(** * Loss functions, loss composition and epoch loop of [models.py]

    The tensors of [models.py] hold 32-bit floats.  This development reads
    them over the real numbers: a scalar that the program can turn into a
    non-finite float (the mean of an empty tensor, a division by a zero
    variance) is an [xR], whose [None] stands for that non-finite value and
    is absorbing, exactly as [nan] is for the operations used here.

    The core only ever handles 3-vectors and 3x3 matrices, so an [N x 3]
    tensor is a list of [vec3] rows, a [3 x N] tensor is three rows of
    scalars, and a batch of matrices is a list of [mat3].

    [th.svd] belongs to the numerical library and is a parameter of the
    development; what a theorem needs from it is stated at the matrix at
    hand by [svd_ok] (orthogonal factors, non-negative singular values in
    descending order, and the product formula). *)

From Stdlib Require Import Reals List Lra Lia Psatz ZArith Bool Arith.
From Stdlib Require Import RNsatz.
From Stdlib Require Ascii String.
Import (notations) String.
Import ListNotations.

Open Scope R_scope.

(** ** Python exceptions and non-finite scalars *)

Inductive exn : Type :=
| AssertionError
| ZeroDivisionError
| IndexError
| RuntimeError.

Inductive py (A : Type) : Type :=
| Ok (a : A)
| Raise (e : exn).

Arguments Ok {A} a.
Arguments Raise {A} e.

Definition py_bind {A B : Type} (m : py A) (k : A -> py B) : py B :=
  match m with
  | Ok a => k a
  | Raise e => Raise e
  end.

Notation "'do' x <- m ; k" := (py_bind m (fun x => k))
  (at level 10, x name, m at level 100, k at level 200).

(** A float scalar: [Some r] is the finite value [r], [None] is [nan]. *)
Definition xR : Type := option R.

Definition xbind {A B : Type} (m : option A) (k : A -> option B) : option B :=
  match m with
  | Some a => k a
  | None => None
  end.

Notation "'let*' x := m 'in' k" := (xbind m (fun x => k))
  (at level 10, x name, m at level 100, k at level 200).

Definition xadd (a b : xR) : xR :=
  let* x := a in let* y := b in Some (x + y).

Definition xmul (a b : xR) : xR :=
  let* x := a in let* y := b in Some (x * y).

(** Float division [a / b]: with a zero divisor the quotient is [nan] or
    infinite, never finite. *)
Definition xdiv (a b : R) : xR :=
  if Req_EM_T b 0 then None else Some (a / b).

(** ** Vectors, matrices and tensors *)

Record vec3 : Type := V3 { vx : R; vy : R; vz : R }.

Record mat3 : Type := M3 {
  m00 : R; m01 : R; m02 : R;
  m10 : R; m11 : R; m12 : R;
  m20 : R; m21 : R; m22 : R
}.

(** A [3 x N] tensor: its three rows. *)
Record t3N : Type := T3N { row0 : list R; row1 : list R; row2 : list R }.

Definition vadd (a b : vec3) : vec3 :=
  V3 (vx a + vx b) (vy a + vy b) (vz a + vz b).

Definition vsub (a b : vec3) : vec3 :=
  V3 (vx a - vx b) (vy a - vy b) (vz a - vz b).

Definition vscale (c : R) (a : vec3) : vec3 :=
  V3 (c * vx a) (c * vy a) (c * vz a).

Definition norm2 (a : vec3) : R := vx a * vx a + vy a * vy a + vz a * vz a.

Definition vdot (a b : vec3) : R := vx a * vx b + vy a * vy b + vz a * vz b.

(** [th.norm(., dim=1)] on one row. *)
Definition vnorm (a : vec3) : R := sqrt (norm2 a).

(** [th.eye(3)]. *)
Definition eye : mat3 := M3 1 0 0 0 1 0 0 0 1.

(** [A.mm(B)], [A @ B]. *)
Definition mmul (A B : mat3) : mat3 :=
  M3 (m00 A * m00 B + m01 A * m10 B + m02 A * m20 B)
     (m00 A * m01 B + m01 A * m11 B + m02 A * m21 B)
     (m00 A * m02 B + m01 A * m12 B + m02 A * m22 B)
     (m10 A * m00 B + m11 A * m10 B + m12 A * m20 B)
     (m10 A * m01 B + m11 A * m11 B + m12 A * m21 B)
     (m10 A * m02 B + m11 A * m12 B + m12 A * m22 B)
     (m20 A * m00 B + m21 A * m10 B + m22 A * m20 B)
     (m20 A * m01 B + m21 A * m11 B + m22 A * m21 B)
     (m20 A * m02 B + m21 A * m12 B + m22 A * m22 B).

(** [A.T]. *)
Definition mT (A : mat3) : mat3 :=
  M3 (m00 A) (m10 A) (m20 A)
     (m01 A) (m11 A) (m21 A)
     (m02 A) (m12 A) (m22 A).

Definition msub (A B : mat3) : mat3 :=
  M3 (m00 A - m00 B) (m01 A - m01 B) (m02 A - m02 B)
     (m10 A - m10 B) (m11 A - m11 B) (m12 A - m12 B)
     (m20 A - m20 B) (m21 A - m21 B) (m22 A - m22 B).

Definition mscale (c : R) (A : mat3) : mat3 :=
  M3 (c * m00 A) (c * m01 A) (c * m02 A)
     (c * m10 A) (c * m11 A) (c * m12 A)
     (c * m20 A) (c * m21 A) (c * m22 A).

(** Matrix times column vector. *)
Definition mvec (A : mat3) (v : vec3) : vec3 :=
  V3 (m00 A * vx v + m01 A * vy v + m02 A * vz v)
     (m10 A * vx v + m11 A * vy v + m12 A * vz v)
     (m20 A * vx v + m21 A * vy v + m22 A * vz v).

(** [th.det]. *)
Definition det (A : mat3) : R :=
  m00 A * (m11 A * m22 A - m12 A * m21 A)
  - m01 A * (m10 A * m22 A - m12 A * m20 A)
  + m02 A * (m10 A * m21 A - m11 A * m20 A).

(** [th.trace]. *)
Definition trace (A : mat3) : R := m00 A + m11 A + m22 A.

(** Sum of the squared entries. *)
Definition frob2 (A : mat3) : R :=
  m00 A * m00 A + m01 A * m01 A + m02 A * m02 A
  + m10 A * m10 A + m11 A * m11 A + m12 A * m12 A
  + m20 A * m20 A + m21 A * m21 A + m22 A * m22 A.

(** [th.linalg.matrix_norm] (Frobenius norm) of one matrix. *)
Definition matrix_norm (A : mat3) : R := sqrt (frob2 A).

(** [th.sign]. *)
Definition sign (x : R) : R :=
  if Rlt_dec 0 x then 1 else if Rlt_dec x 0 then -1 else 0.

(** [diag(s)]. *)
Definition diag (s : vec3) : mat3 :=
  M3 (vx s) 0 0 0 (vy s) 0 0 0 (vz s).

(** [th.sum] of a flat tensor. *)
Definition tsum (l : list R) : R := fold_right Rplus 0 l.

(** [.mean()] of a flat tensor; the mean of an empty tensor is [nan]. *)
Definition tmean (l : list R) : xR :=
  match l with
  | [] => None
  | _ :: _ => Some (tsum l / INR (length l))
  end.

(** Element-wise combination of two equally long rows. *)
Fixpoint map2 {A B C : Type} (f : A -> B -> C) (l1 : list A) (l2 : list B) : list C :=
  match l1, l2 with
  | a :: l1', b :: l2' => f a b :: map2 f l1' l2'
  | _, _ => []
  end.

(** Inner product of two rows. *)
Definition dot (l1 l2 : list R) : R := tsum (map2 Rmult l1 l2).

(** [S.T] for an [N x 3] tensor. *)
Definition transpose_N3 (S : list vec3) : t3N :=
  T3N (map vx S) (map vy S) (map vz S).

(** [S.T] for a [3 x N] tensor. *)
Fixpoint zip3 (a b c : list R) : list vec3 :=
  match a, b, c with
  | x :: a', y :: b', z :: c' => V3 x y z :: zip3 a' b' c'
  | _, _, _ => []
  end.

Definition transpose_3N (T : t3N) : list vec3 :=
  zip3 (row0 T) (row1 T) (row2 T).

(** [T.shape[1]] of a [3 x N] tensor. *)
Definition shape1 (T : t3N) : nat := length (row0 T).

(** [T.mean(axis=1, keepdims=True)]: a [3 x 1] column. *)
Definition mean_axis1 (T : t3N) : option vec3 :=
  let* a := tmean (row0 T) in
  let* b := tmean (row1 T) in
  let* c := tmean (row2 T) in
  Some (V3 a b c).

(** [T - mu] and [T + mu] with the [3 x 1] column broadcast along the rows. *)
Definition sub_col (T : t3N) (mu : vec3) : t3N :=
  T3N (map (fun v => v - vx mu) (row0 T))
      (map (fun v => v - vy mu) (row1 T))
      (map (fun v => v - vz mu) (row2 T)).

Definition add_col (T : t3N) (mu : vec3) : t3N :=
  T3N (map (fun v => v + vx mu) (row0 T))
      (map (fun v => v + vy mu) (row1 T))
      (map (fun v => v + vz mu) (row2 T)).

(** [th.sum(T ** 2)]. *)
Definition sum_sq (T : t3N) : R :=
  tsum (map (fun v => v * v) (row0 T))
  + tsum (map (fun v => v * v) (row1 T))
  + tsum (map (fun v => v * v) (row2 T)).

(** [X1.mm(X2.T)] for two [3 x N] tensors: a [3 x 3] matrix. *)
Definition mm_3N_N3 (X1 X2 : t3N) : mat3 :=
  M3 (dot (row0 X1) (row0 X2)) (dot (row0 X1) (row1 X2)) (dot (row0 X1) (row2 X2))
     (dot (row1 X1) (row0 X2)) (dot (row1 X1) (row1 X2)) (dot (row1 X1) (row2 X2))
     (dot (row2 X1) (row0 X2)) (dot (row2 X1) (row1 X2)) (dot (row2 X1) (row2 X2)).

(** Linear combination [a*r0 + b*r1 + c*r2] of three rows. *)
Definition lin3 (a b c : R) (r0 r1 r2 : list R) : list R :=
  map2 Rplus (map2 Rplus (map (Rmult a) r0) (map (Rmult b) r1)) (map (Rmult c) r2).

(** [A.mm(T)] for a [3 x 3] matrix and a [3 x N] tensor. *)
Definition mm_33_3N (A : mat3) (T : t3N) : t3N :=
  T3N (lin3 (m00 A) (m01 A) (m02 A) (row0 T) (row1 T) (row2 T))
      (lin3 (m10 A) (m11 A) (m12 A) (row0 T) (row1 T) (row2 T))
      (lin3 (m20 A) (m21 A) (m22 A) (row0 T) (row1 T) (row2 T)).

(** [c * T]. *)
Definition scale_3N (c : R) (T : t3N) : t3N :=
  T3N (map (Rmult c) (row0 T)) (map (Rmult c) (row1 T)) (map (Rmult c) (row2 T)).

(** Row-wise difference of two [N x 3] tensors. *)
Definition sub_N3 (A B : list vec3) : list vec3 := map2 vsub A B.

(** The correction matrix: [Z = th.eye(3); Z[-1, -1] *= c]. *)
Definition Zfix (c : R) : mat3 := M3 1 0 0 0 1 0 0 0 (1 * c).

(** ** The Procrustes loss and the closest-rotation regularizers *)

Section Losses.

(** [th.svd]: for a [3 x 3] input [K] it returns [(U, s, V)], to be read
    as [K = U diag(s) V^T]. *)
Variable svd : mat3 -> mat3 * vec3 * mat3.

(** Steps 1 to 4 of [procrustes_loss] on the transposed ([3 x N])
    arguments: the means, the variance, the matrix [K] and the rotation
    [R] built from its factors. *)
Record procrustes_fit : Type := {
  fit_mu1 : vec3;
  fit_mu2 : vec3;
  fit_var1 : R;
  fit_K : mat3;
  fit_R : mat3
}.

Definition procrustes_rotation_of (S1t S2t : t3N) : option procrustes_fit :=
  let* mu1 := mean_axis1 S1t in
  let* mu2 := mean_axis1 S2t in
  let X1 := sub_col S1t mu1 in
  let X2 := sub_col S2t mu2 in
  let var1 := sum_sq X1 in
  let K := mm_3N_N3 X1 X2 in
  let '(U, _, V) := svd K in
  let Z := Zfix (sign (det (mmul U (mT V)))) in
  let R := mmul V (mmul Z (mT U)) in
  Some {| fit_mu1 := mu1; fit_mu2 := mu2; fit_var1 := var1;
          fit_K := K; fit_R := R |}.

(** [procrustes_loss(S1, S2)], line by line.  The two [N x 3] arguments
    are transposed on entry and the result is transposed back before the
    row norms are taken. *)
Definition procrustes_loss (S1 S2 : list vec3) : py xR :=
  let S1t := transpose_N3 S1 in
  let S2t := transpose_N3 S2 in
  if negb (Nat.eqb (shape1 S2t) (shape1 S1t)) then Raise AssertionError else
  Ok (let* fit := procrustes_rotation_of S1t S2t in
      let mu1 := fit_mu1 fit in
      let mu2 := fit_mu2 fit in
      let R := fit_R fit in
      let* scale := xdiv (trace (mmul R (fit_K fit))) (fit_var1 fit) in
      let t := vsub mu2 (vscale scale (mvec R mu1)) in
      let S1_hat := add_col (scale_3N scale (mm_33_3N R S1t)) t in
      let S1_hat' := transpose_3N S1_hat in
      let S2' := transpose_3N S2t in
      tmean (map vnorm (sub_N3 S1_hat' S2'))).

(** Batched helpers: every batched operation of [torch] used below acts
    on each sample on its own. *)
Definition bmm (A B : list mat3) : list mat3 := map2 mmul A B.
Definition bT (A : list mat3) : list mat3 := map mT A.
Definition bdet (A : list mat3) : list R := map det A.
Definition bsub (A B : list mat3) : list mat3 := map2 msub A B.

(** [Z = th.eye(3).unsqueeze(0).repeat(n, 1, 1); Z[:, -1, -1] *= c]. *)
Definition bZfix (n : nat) (c : list R) : list mat3 :=
  map2 (fun Z ci => M3 (m00 Z) (m01 Z) (m02 Z) (m10 Z) (m11 Z) (m12 Z)
                       (m20 Z) (m21 Z) (m22 Z * ci))
       (repeat eye n) c.

(** Batched [th.svd]: the three stacked factors. *)
Definition bsvd (M : list mat3) : list mat3 * list vec3 * list mat3 :=
  (map (fun m => fst (fst (svd m))) M,
   map (fun m => snd (fst (svd m))) M,
   map (fun m => snd (svd m)) M).

(** The lines shared by [deformation_loss] and [energy_loss]: from the
    batch [M] handed to [th.svd] to the batch of rotations [R]. *)
Definition batched_rotation (M : list mat3) : list mat3 :=
  let '(U, _, V) := bsvd M in
  let Z := bZfix (length U) (map sign (bdet (bmm U (bT V)))) in
  bmm U (bmm Z (bT V)).

(** [deformation_loss(jacobian)]. *)
Definition deformation_loss (jacobian : list mat3) : xR :=
  let R := batched_rotation jacobian in
  tmean (map matrix_norm (bsub jacobian R)).

(** [energy_loss(jacobian, actuations)]; [th.bmm] refuses two batches of
    different sizes. *)
Definition energy_loss (jacobian actuations : list mat3) : py xR :=
  if negb (Nat.eqb (length jacobian) (length actuations)) then Raise RuntimeError else
  let R := batched_rotation (bmm jacobian actuations) in
  Ok (tmean (map matrix_norm (bsub jacobian (bmm R actuations)))).

(** *** The same computations, sample by sample *)

(** The rotation built from the factors of a matrix by the procrustes
    loss, [V Z U^T], and by the two regularizers, [U Z V^T]. *)
Definition procrustes_rotation (K : mat3) : mat3 :=
  let '(U, _, V) := svd K in
  mmul V (mmul (Zfix (sign (det (mmul U (mT V))))) (mT U)).

Definition closest_rotation (M : mat3) : mat3 :=
  let '(U, _, V) := svd M in
  mmul U (mmul (Zfix (sign (det (mmul U (mT V))))) (mT V)).

(** The algorithm of the specification for the Procrustes loss, on
    points: centroids, centred sets, variance, cross-covariance, rotation,
    scale, translation, mean residual. *)
Definition centroid (S : list vec3) : option vec3 :=
  match S with
  | [] => None
  | _ :: _ =>
      Some (vscale (/ INR (length S)) (fold_right vadd (V3 0 0 0) S))
  end.

Definition centered (S : list vec3) (mu : vec3) : list vec3 :=
  map (fun p => vsub p mu) S.

Definition outer (a b : vec3) : mat3 :=
  M3 (vx a * vx b) (vx a * vy b) (vx a * vz b)
     (vy a * vx b) (vy a * vy b) (vy a * vz b)
     (vz a * vx b) (vz a * vy b) (vz a * vz b).

Definition madd (A B : mat3) : mat3 :=
  M3 (m00 A + m00 B) (m01 A + m01 B) (m02 A + m02 B)
     (m10 A + m10 B) (m11 A + m11 B) (m12 A + m12 B)
     (m20 A + m20 B) (m21 A + m21 B) (m22 A + m22 B).

Definition mzero : mat3 := M3 0 0 0 0 0 0 0 0 0.

(** [centered(S1)^T . centered(S2)]: the sum of the outer products of
    corresponding points. *)
Fixpoint cross_cov (X1 X2 : list vec3) : mat3 :=
  match X1, X2 with
  | a :: X1', b :: X2' => madd (outer a b) (cross_cov X1' X2')
  | _, _ => mzero
  end.

Definition variance (X : list vec3) : R := tsum (map norm2 X).

Definition similarity (scale : R) (R : mat3) (t p : vec3) : vec3 :=
  vadd (vscale scale (mvec R p)) t.

Definition procrustes_spec (S1 S2 : list vec3) : xR :=
  let* mu1 := centroid S1 in
  let* mu2 := centroid S2 in
  let X1 := centered S1 mu1 in
  let X2 := centered S2 mu2 in
  let var1 := variance X1 in
  let K := cross_cov X1 X2 in
  let R := procrustes_rotation K in
  let* scale := xdiv (trace (mmul R K)) var1 in
  let t := vsub mu2 (vscale scale (mvec R mu1)) in
  tmean (map2 (fun p q => vnorm (vsub (similarity scale R t p) q)) S1 S2).

(** The regularizer of the specification on a batch [M]: the mean
    Frobenius distance of each matrix to its closest rotation. *)
Definition def_residual (M : mat3) : R :=
  matrix_norm (msub M (closest_rotation M)).

Definition rotation_residual (M : list mat3) : xR :=
  tmean (map def_residual M).

(** What [energy_loss] sums for one sample: the distance of the Jacobian
    to the actuation turned by the rotation closest to their product. *)
Definition energy_residual (J A : mat3) : R :=
  matrix_norm (msub J (mmul (closest_rotation (mmul J A)) A)).

End Losses.

(** ** Loss composition *)

(** [mask == TAG]. *)
Definition mask_eq (mask : list Z) (tag : Z) : list bool :=
  map (fun m => Z.eqb m tag) mask.

(** [where.sum()]. *)
Definition mask_sum (w : list bool) : nat := length (filter (fun b => b) w).

(** Boolean-mask indexing [x[where]]; the mask must be as long as [x]. *)
Definition index_mask {A : Type} (x : list A) (w : list bool) : py (list A) :=
  if Nat.eqb (length x) (length w)
  then Ok (map fst (filter snd (combine x w)))
  else Raise IndexError.

(** [th.nn.functional.l1_loss]: mean absolute difference over all entries. *)
Definition abs_entries (p q : vec3) : list R :=
  [Rabs (vx p - vx q); Rabs (vy p - vy q); Rabs (vz p - vz q)].

Definition l1_loss (a b : list vec3) : xR :=
  tmean (concat (map2 abs_entries a b)).

(** The pattern shared by every regression term:
    [l = th.tensor(0.); if where.sum() > 0: l = l1_loss(p[where], t[where]); l *= w]. *)
Definition l1_term (w : R) (prediction target : list vec3) (where_ : list bool)
  : py xR :=
  do l <- (if Nat.ltb 0 (mask_sum where_)
           then do p <- index_mask prediction where_;
                do t <- index_mask target where_;
                Ok (l1_loss p t)
           else Ok (Some 0));
  Ok (xmul l (Some w)).

Section Composers.

Variable svd : mat3 -> mat3 * vec3 * mat3.

(** The region tags are constants of the dataset classes. *)
Variables FLAME_MASK BOUNDARY_MASK : Z.
Variables SKULL_MASK JAW_MASK SURFACE_MASK : Z.
Variable FIXED_MASK : Z.

Record SurfaceINRModel : Type := {
  s_w_deformation : R; s_w_flame : R; s_w_boundary : R
}.

Record INRModel : Type := {
  w_deformation : R; w_jaw : R; w_skull : R; w_surface : R
}.

Record SimulatorModel : Type := { w_energy : R; w_fixed : R }.

(** [SurfaceINRModel.compute_loss], term by term. *)
Definition surface_flame_loss (self : SurfaceINRModel)
  (prediction target : list vec3) (mask : list Z) : py xR :=
  l1_term (s_w_flame self) prediction target (mask_eq mask FLAME_MASK).

Definition surface_boundary_loss (self : SurfaceINRModel)
  (prediction target : list vec3) (mask : list Z) : py xR :=
  l1_term (s_w_boundary self) prediction target (mask_eq mask BOUNDARY_MASK).

Definition surface_def_loss (self : SurfaceINRModel) (jacobian : list mat3) : xR :=
  xmul (deformation_loss svd jacobian) (Some (s_w_deformation self)).

(** [flame_loss + boundary_loss], the first sum of the last line. *)
Definition surface_regression_loss (self : SurfaceINRModel)
  (prediction target : list vec3) (mask : list Z) : py xR :=
  do flame_loss <- surface_flame_loss self prediction target mask;
  do boundary_loss <- surface_boundary_loss self prediction target mask;
  Ok (xadd flame_loss boundary_loss).

Definition surface_compute_loss (self : SurfaceINRModel)
  (prediction target : list vec3) (mask : list Z) (jacobian : list mat3) : py xR :=
  do flame_loss <- surface_flame_loss self prediction target mask;
  do boundary_loss <- surface_boundary_loss self prediction target mask;
  let def_loss := surface_def_loss self jacobian in
  Ok (xadd (xadd flame_loss boundary_loss) def_loss).

(** [INRModel.compute_loss], term by term. *)
Definition inr_surface_loss (self : INRModel)
  (prediction target : list vec3) (mask : list Z) : py xR :=
  l1_term (w_surface self) prediction target (mask_eq mask SURFACE_MASK).

Definition inr_skull_loss (self : INRModel)
  (prediction target : list vec3) (mask : list Z) : py xR :=
  l1_term (w_skull self) prediction target (mask_eq mask SKULL_MASK).

Definition inr_jaw_loss (self : INRModel)
  (prediction target : list vec3) (mask : list Z) : py xR :=
  let where_jaw := mask_eq mask JAW_MASK in
  do l <- (if Nat.ltb 2 (mask_sum where_jaw)
           then do p <- index_mask prediction where_jaw;
                do t <- index_mask target where_jaw;
                procrustes_loss svd p t
           else Ok (Some 0));
  Ok (xmul l (Some (w_jaw self))).

(** [surface_loss + skull_loss + jaw_loss], the sums before [def_loss]. *)
Definition inr_regression_loss (self : INRModel)
  (prediction target : list vec3) (mask : list Z) : py xR :=
  do surface_loss <- inr_surface_loss self prediction target mask;
  do skull_loss <- inr_skull_loss self prediction target mask;
  do jaw_loss <- inr_jaw_loss self prediction target mask;
  Ok (xadd (xadd surface_loss skull_loss) jaw_loss).

Definition inr_def_loss (self : INRModel) (jacobian : list mat3) : xR :=
  xmul (deformation_loss svd jacobian) (Some (w_deformation self)).

Definition inr_compute_loss (self : INRModel)
  (prediction target : list vec3) (mask : list Z) (jacobian : list mat3) : py xR :=
  do surface_loss <- inr_surface_loss self prediction target mask;
  do skull_loss <- inr_skull_loss self prediction target mask;
  do jaw_loss <- inr_jaw_loss self prediction target mask;
  let def_loss := inr_def_loss self jacobian in
  Ok (xadd (xadd (xadd surface_loss skull_loss) jaw_loss) def_loss).

(** [SimulatorModel.compute_loss], term by term. *)
Definition sim_fixed_loss (self : SimulatorModel)
  (prediction target : list vec3) (mask : list Z) : py xR :=
  l1_term (w_fixed self) prediction target (mask_eq mask FIXED_MASK).

Definition sim_e_loss (self : SimulatorModel) (jacobian actuations : list mat3)
  : py xR :=
  do e <- energy_loss svd jacobian actuations;
  Ok (xmul e (Some (w_energy self))).

Definition sim_compute_loss (self : SimulatorModel)
  (prediction target : list vec3) (mask : list Z)
  (jacobian actuations : list mat3) : py xR :=
  do fixed_loss <- sim_fixed_loss self prediction target mask;
  do e_loss <- sim_e_loss self jacobian actuations;
  Ok (xadd fixed_loss e_loss).

End Composers.

(** ** The coordinate network: layers and Fourier encoding *)

(** The modules appended to [self.layers]; a linear layer is described by
    its [in_features] and [out_features]. *)
Inductive layer : Type :=
| Linear (in_features out_features : nat)
| Sin
| Sigmoid.

Record BaseModel : Type := {
  input_size : nat;
  output_size : nat;
  num_hidden_layers : nat;
  hidden_size : nat;
  use_sigmoid_output : bool;
  with_fourier : bool;
  fourier_features : nat
}.

Fixpoint hidden_layers (n hidden : nat) : list layer :=
  match n with
  | O => []
  | S n' => Linear hidden hidden :: Sin :: hidden_layers n' hidden
  end.

(** [self.layers] as built by [BaseModel.__init__]. *)
Definition layers (self : BaseModel) : list layer :=
  (if negb (with_fourier self)
   then [Linear (input_size self) (hidden_size self)]
   else [Linear (input_size self * 2 * fourier_features self) (hidden_size self)])
  ++ [Sin]
  ++ hidden_layers (num_hidden_layers self) (hidden_size self)
  ++ [Linear (hidden_size self) (output_size self)]
  ++ (if use_sigmoid_output self then [Sigmoid] else []).

(** [np.pi * 2 ** th.arange(0, fourier_features)]. *)
Definition frequencies (F : nat) : list R :=
  map (fun k => PI * 2 ^ k) (seq 0 F).

(** One scalar after [features * x.unsqueeze(-1)] and
    [th.cat([sin, cos], dim=-1)]. *)
Definition encode_scalar (F : nat) (x : R) : list R :=
  let xff := map (fun f => f * x) (frequencies F) in
  map sin xff ++ map cos xff.

(** [BaseModel.fourier_encode] on an [N x D] batch.  [view(N, -1)] cannot
    infer the missing size of a tensor without rows. *)
Definition fourier_encode (self : BaseModel) (x : list (list R)) : py (list (list R)) :=
  match x with
  | [] => Raise RuntimeError
  | _ :: _ =>
      Ok (map (fun row => concat (map (encode_scalar (fourier_features self)) row)) x)
  end.

(** The argument of [forward]: one coordinate ([x.dim() == 1]) or a batch. *)
Inductive coordinates : Type :=
| Single (x : list R)
| Batched (x : list (list R)).

(** [if x.dim() == 1: x = x.unsqueeze(0)]. *)
Definition as_batch (x : coordinates) : list (list R) :=
  match x with
  | Single v => [v]
  | Batched b => b
  end.

(** What [forward] hands to [self.layers[0]]. *)
Definition forward_input (self : BaseModel) (x : coordinates) : py (list (list R)) :=
  let x := as_batch x in
  if with_fourier self then fourier_encode self x else Ok x.

(** A linear layer accepts rows of width [in_features] only. *)
Definition accepts (l : layer) (row : list R) : bool :=
  match l with
  | Linear i _ => Nat.eqb (length row) i
  | Sin | Sigmoid => true
  end.

(** ** Datasets and the epoch loop *)

(** What [train_epoch] asks of a dataset and of the batches it yields. *)
Class DatasetLike (D B : Type) : Type := {
  ds_len : D -> nat;                   (* len(dataset) *)
  ds_getitem : D -> nat -> nat -> B;   (* dataset[start:end] *)
  batch_len : B -> nat;                (* len(batch) *)
  batch_rows : B -> nat                (* rows of the arrays in the batch *)
}.

(** Python's [l[start:end]] for in-range non-negative bounds; a slice that
    reaches beyond the end is truncated. *)
Definition slice {A : Type} (l : list A) (start_inx end_inx : nat) : list A :=
  firstn (end_inx - start_inx) (skipn start_inx l).

(** Modelled from the spec: the dataset classes of [datasets.py], which is
    not among the sources.  A dataset is a sliceable collection whose
    slices are Batch tuples of parallel arrays: [(inputs, mask, target)]
    for the surface and the full-head mode, and
    [(inputs, mask, target, actuations)] for the simulator.  [len] of such
    a tuple is the number of its components; [process_batch] unpacks it
    into exactly that many names. *)
Record INRDataset : Type := {
  inr_inputs : list vec3;
  inr_mask : list Z;
  inr_target : list vec3
}.

Record SimulatorDataset : Type := {
  sim_inputs : list vec3;
  sim_mask : list Z;
  sim_target : list vec3;
  sim_actuations : list mat3
}.

Definition batch3 : Type := list vec3 * list Z * list vec3.
Definition batch4 : Type := list vec3 * list Z * list vec3 * list mat3.

#[export] Instance INRDataset_like : DatasetLike INRDataset batch3 := {
  ds_len d := length (inr_inputs d);
  ds_getitem d s e :=
    (slice (inr_inputs d) s e, slice (inr_mask d) s e, slice (inr_target d) s e);
  batch_len _ := 3%nat;
  batch_rows b := length (fst (fst b))
}.

#[export] Instance SimulatorDataset_like : DatasetLike SimulatorDataset batch4 := {
  ds_len d := length (sim_inputs d);
  ds_getitem d s e :=
    (slice (sim_inputs d) s e, slice (sim_mask d) s e, slice (sim_target d) s e,
     slice (sim_actuations d) s e);
  batch_len _ := 4%nat;
  batch_rows b := length (fst (fst (fst b)))
}.

Section Trainer.

Context {D B : Type} {DL : DatasetLike D B}.

(** The network parameters together with the optimizer state. *)
Variable Model : Type.

(** [dataset.prepare_for_epoch()]: the dataset as it stands afterwards. *)
Variable prepare_for_epoch : D -> D.

(** [self.process_batch(batch)]: the loss of the variant on a batch. *)
Variable process_batch : Model -> B -> py xR.

(** [optimizer.zero_grad(); loss.backward(); optimizer.step()]. *)
Variable optimizer_step : Model -> B -> Model.

Record accumulators : Type := {
  acc_model : Model;
  total_loss : xR;
  total_samples : nat
}.

(** [dataset[start_inx:end_inx]] for batch number [batch_inx]. *)
Definition batch_at (dataset : D) (batch_size batch_inx : nat) : B :=
  let start_inx := (batch_inx * batch_size)%nat in
  let end_inx := ((batch_inx + 1) * batch_size)%nat in
  ds_getitem dataset start_inx end_inx.

(** The loop body from [loss = self.process_batch(batch)] on. *)
Definition batch_step (st : py accumulators) (batch : B) : py accumulators :=
  do a <- st;
  do loss <- process_batch (acc_model a) batch;
  let model' := optimizer_step (acc_model a) batch in
  Ok {| acc_model := model';
        total_samples := (total_samples a + batch_len batch)%nat;
        total_loss := xadd (total_loss a)
                           (xmul loss (Some (INR (batch_len batch)))) |}.

(** One turn of the loop. *)
Definition epoch_step (dataset : D) (batch_size : nat)
  (st : py accumulators) (batch_inx : nat) : py accumulators :=
  batch_step st (batch_at dataset batch_size batch_inx).

(** [max(len(dataset) // batch_size, 1)]; [//] by zero raises. *)
Definition num_batches (dataset : D) (batch_size : nat) : py nat :=
  match batch_size with
  | O => Raise ZeroDivisionError
  | S _ => Ok (Nat.max (ds_len dataset / batch_size) 1)
  end.

(** The loop of [train_epoch]: the accumulators when it ends. *)
Definition train_loop (self : Model) (dataset : D) (batch_size : nat)
  : py accumulators :=
  do n <- num_batches dataset batch_size;
  let dataset' := prepare_for_epoch dataset in
  fold_left (epoch_step dataset' batch_size) (seq 0 n)
            (Ok {| acc_model := self; total_loss := Some 0; total_samples := 0 |}).

(** The batches the loop takes from the prepared dataset, in order. *)
Definition visited_batches (dataset : D) (batch_size : nat) : py (list B) :=
  do n <- num_batches dataset batch_size;
  Ok (map (batch_at (prepare_for_epoch dataset) batch_size) (seq 0 n)).

(** The losses [loss.item()] of the successive batches, each one computed
    with the model as the optimizer left it after the batch before. *)
Fixpoint batch_losses (self : Model) (bs : list B) : py (list xR) :=
  match bs with
  | [] => Ok []
  | b :: bs' =>
      do l <- process_batch self b;
      do ls <- batch_losses (optimizer_step self b) bs';
      Ok (l :: ls)
  end.

(** [total_loss / total_samples] on a Python float and a Python int. *)
Definition float_div_int (a : xR) (n : nat) : py xR :=
  match n with
  | O => Raise ZeroDivisionError
  | S _ => Ok (let* x := a in Some (x / INR n))
  end.

(** [BaseModel.train_epoch]: the returned value. *)
Definition train_epoch (self : Model) (dataset : D) (batch_size : nat) : py xR :=
  do a <- train_loop self dataset batch_size;
  float_div_int (total_loss a) (total_samples a).

End Trainer.

(** Sum of float scalars. *)
Definition xsum (l : list xR) : xR := fold_right xadd (Some 0) l.

(** ** Vocabulary of the statements *)

(** Orthogonal matrices and proper rotations. *)
Definition orthogonal (A : mat3) : Prop :=
  mmul (mT A) A = eye /\ mmul A (mT A) = eye.

Definition proper_rotation (A : mat3) : Prop :=
  orthogonal A /\ det A = 1.

(** What [th.svd] promises about the triple it returns for [K]. *)
Definition svd_ok (K : mat3) (usv : mat3 * vec3 * mat3) : Prop :=
  let '(U, s, V) := usv in
  orthogonal U /\ orthogonal V /\
  (0 <= vz s /\ vz s <= vy s /\ vy s <= vx s) /\
  K = mmul U (mmul (diag s) (mT V)).

(** The two outer factors returned by [th.svd] are orthogonal. *)
Definition factors_orthogonal (usv : mat3 * vec3 * mat3) : Prop :=
  let '(U, _, V) := usv in orthogonal U /\ orthogonal V.

(** A decomposition routine that is right on diagonal matrices with
    non-negative descending entries; it serves the concrete examples. *)
Definition svd_diagonal (K : mat3) : mat3 * vec3 * mat3 :=
  (eye, V3 (m00 K) (m11 K) (m22 K), eye).

(** A small full-head dataset of four samples and a stand-in for the
    network: the loss of a batch is the first coordinate of its first
    input, and the optimizer leaves the (trivial) model alone. *)
Definition four_samples : INRDataset :=
  {| inr_inputs := [V3 1 0 0; V3 1 0 0; V3 3 0 0; V3 3 0 0];
     inr_mask := [0%Z; 0%Z; 2%Z; 2%Z];
     inr_target := [V3 1 0 0; V3 1 0 0; V3 3 0 0; V3 3 0 0] |}.

Definition first_coordinate_loss (_ : unit) (batch : batch3) : py xR :=
  match fst (fst batch) with
  | [] => Ok None
  | p :: _ => Ok (Some (vx p))
  end.

Definition keep_model (m : unit) (_ : batch3) : unit := m.

(** The batches [bs] cut from the array [l] are full and make up its
    first [(len(l) // B) * B] entries, leaving out the last [len(l) mod B]. *)
Definition covers_prefix {A : Type} (l : list A) (B : nat) (bs : list (list A)) : Prop :=
  Forall (fun b => length b = B) bs /\
  concat bs = firstn (length l / B * B) l /\
  length (skipn (length l / B * B) l) = (length l mod B)%nat.

(** Point sets for the examples: three coincident points, and four
    points in a plane around the origin. *)
Definition coincident_points : list vec3 := [V3 1 2 3; V3 1 2 3; V3 1 2 3].

Definition planar_points : list vec3 :=
  [V3 1 0 0; V3 (-1) 0 0; V3 0 1 0; V3 0 (-1) 0].

Definition coincident_points_4 : list vec3 :=
  [V3 0 0 1; V3 0 0 1; V3 0 0 1; V3 0 0 1].

(** * Further definitions: the remaining code of the sources *)

(** ** The similarity transform of the Procrustes loss *)

(** Lines 19 to 55 of [procrustes_loss]: the transform [(scale, R, t)]
    that the loss then applies to [S1]. *)
Definition procrustes_transform (svd : mat3 -> mat3 * vec3 * mat3)
  (S1 S2 : list vec3) : py (option (R * mat3 * vec3)) :=
  let S1t := transpose_N3 S1 in
  let S2t := transpose_N3 S2 in
  if negb (Nat.eqb (shape1 S2t) (shape1 S1t)) then Raise AssertionError else
  Ok (let* fit := procrustes_rotation_of svd S1t S2t in
      let mu1 := fit_mu1 fit in
      let mu2 := fit_mu2 fit in
      let R := fit_R fit in
      let* scale := xdiv (trace (mmul R (fit_K fit))) (fit_var1 fit) in
      let t := vsub mu2 (vscale scale (mvec R mu1)) in
      Some (scale, R, t)).

(** Sum over the points of the squared distance between
    [scale R S1_i + t] and [S2_i]. *)
Definition squared_residual (scale : R) (Rot : mat3) (t : vec3)
  (S1 S2 : list vec3) : R :=
  tsum (map2 (fun p q => norm2 (vsub (similarity scale Rot t p) q)) S1 S2).

(** All the points of a set coincide. *)
Definition all_equal (S : list vec3) : Prop :=
  forall p q, In p S -> In q S -> p = q.

(** Symmetric matrices: the actuations of the simulator. *)
Definition symmetric (A : mat3) : Prop := mT A = A.

(** The rows of a matrix, as vectors. *)
Definition rows_of (A : mat3) : list vec3 :=
  [V3 (m00 A) (m01 A) (m02 A); V3 (m10 A) (m11 A) (m12 A);
   V3 (m20 A) (m21 A) (m22 A)].

(** A symmetric actuation for the examples: a stretch along the first axis. *)
Definition stretch : mat3 := diag (V3 3 1 1).

(** The three arrays of a batch have one row per sample. *)
Definition aligned (prediction target : list vec3) (mask : list Z) : Prop :=
  length prediction = length mask /\ length target = length mask.

(** A float scalar that is not negative when it is finite. *)
Definition xnonneg (v : xR) : Prop := forall r, v = Some r -> 0 <= r.

(** The model after the optimizer has stepped through the batches [bs]. *)
Definition model_after {Model B : Type} (optimizer_step : Model -> B -> Model)
  (self : Model) (bs : list B) : Model :=
  fold_left optimizer_step bs self.

(** ** The network with its parameters: [forward] *)

(** The squared Euclidean norm of a row. *)
Definition sum_squares (row : list R) : R := tsum (map (fun v => v * v) row).

(** Two coordinates that differ by an even integer. *)
Definition even_shift (a b : R) : Prop :=
  exists n : nat, b = a + 2 * INR n \/ a = b + 2 * INR n.

(** A module of [self.layers] with its parameters: the weight of a linear
    layer has one row per output feature. *)
Inductive module : Type :=
| MLinear (in_features : nat) (weight : list (list R)) (bias : list R)
| MSin
| MSigmoid.

Definition module_shape (m : module) : layer :=
  match m with
  | MLinear i W _ => Linear i (length W)
  | MSin => Sin
  | MSigmoid => Sigmoid
  end.

(** [weight] is [out_features x in_features] and [bias] has [out_features]
    entries, as [th.nn.Linear] creates them. *)
Definition well_shaped (m : module) : Prop :=
  match m with
  | MLinear i W b => Forall (fun w => length w = i) W /\ length b = length W
  | MSin | MSigmoid => True
  end.

Definition sigmoid (x : R) : R := 1 / (1 + exp (- x)).

(** [layer(x)] on a batch with at least one row: [x W^T + b] for a linear
    layer, which refuses rows of another width than [in_features]; the
    activations work entry by entry. *)
Definition apply_module (m : module) (x : list (list R)) : py (list (list R)) :=
  match m with
  | MLinear i W b =>
      if forallb (fun row => Nat.eqb (length row) i) x
      then Ok (map (fun row => map2 (fun w bj => dot row w + bj) W b) x)
      else Raise RuntimeError
  | MSin => Ok (map (map sin) x)
  | MSigmoid => Ok (map (map sigmoid) x)
  end.

(** [for layer in self.layers: x = layer(x)]. *)
Definition run_layers (ms : list module) (x : list (list R)) : py (list (list R)) :=
  fold_left (fun acc m => do x <- acc; apply_module m x) ms (Ok x).

(** A model instance: its hyper-parameters, the modules of [self.layers]
    and the two parameters of the sigmoid output. *)
Record Network : Type := {
  config : BaseModel;
  modules : list module;
  scale : R;
  translation : R
}.

(** The modules are those [__init__] appends, whatever their values. *)
Definition built (net : Network) : Prop :=
  map module_shape (modules net) = layers (config net)
  /\ Forall well_shaped (modules net).

(** [BaseModel.forward]. *)
Definition forward (net : Network) (x : coordinates) : py (list (list R)) :=
  do x <- forward_input (config net) x;
  do x <- run_layers (modules net) x;
  Ok (if use_sigmoid_output (config net)
      then map (map (fun v => v * scale net + translation net)) x
      else x).

(** The row width after the layers [ls], for rows of width [w]. *)
Fixpoint widths (ls : list layer) (w : nat) : option nat :=
  match ls with
  | [] => Some w
  | Linear i o :: ls' => if Nat.eqb w i then widths ls' o else None
  | (Sin | Sigmoid) :: ls' => widths ls' w
  end.

(** The width [self.layers[0]] expects, in input columns. *)
Definition first_width (self : BaseModel) (D : nat) : nat :=
  if with_fourier self then (D * 2 * fourier_features self)%nat else D.

(** A one-neuron network with sigmoid output. *)
Definition tiny_network : Network :=
  {| config := Build_BaseModel 1 1 0 1 true false 0;
     modules := [MLinear 1 [[1]] [0]; MSin; MLinear 1 [[1]] [0]; MSigmoid];
     scale := 2;
     translation := -1 |}.

(** A network with one Fourier feature on a single coordinate. *)
Definition tiny_fourier_network : Network :=
  {| config := Build_BaseModel 1 1 0 1 false true 1;
     modules := [MLinear 2 [[1; 1]] [0]; MSin; MLinear 1 [[1]] [0]];
     scale := 1;
     translation := 0 |}.

(** ** [process_batch] of the three variants *)

(** A batch of coordinates as the rows [forward] works on, and a row of
    three entries read back as a point. *)
Definition rows_of_points (inputs : list vec3) : list (list R) :=
  map (fun p => [vx p; vy p; vz p]) inputs.

Definition point_of_row (row : list R) : vec3 :=
  V3 (nth 0 row 0) (nth 1 row 0) (nth 2 row 0).

(** A network of one of the three classes with its defaults
    [input_size = 3] and [output_size = 3], the sizes that the tensors of
    the datasets and the 3 x 3 Jacobians of the losses go with: the
    modules are those of [__init__], the weights are free. *)
Record Model3D : Type := {
  model_network : Network;
  model_built : built model_network;
  model_inputs : input_size (config model_network) = 3%nat;
  model_outputs : output_size (config model_network) = 3%nat
}.

Section ProcessBatch.

Variable svd : mat3 -> mat3 * vec3 * mat3.
Variables FLAME_MASK BOUNDARY_MASK : Z.
Variables SKULL_MASK JAW_MASK SURFACE_MASK : Z.
Variable FIXED_MASK : Z.

(** [self.construct_jacobian(inputs)]: the derivatives come from
    [th.func.jacrev] and are not computed here; the call may raise. *)
Variable construct_jacobian : Model3D -> list vec3 -> py (list mat3).

(** [SurfaceINRModel.process_batch]: [self(inputs)] is [forward], with its
    exceptions. *)
Definition surface_process_batch (self : SurfaceINRModel) (net : Model3D)
  (batch : batch3) : py xR :=
  let '(inputs, mask, target) := batch in
  do rows <- forward (model_network net) (Batched (rows_of_points inputs));
  let prediction := map point_of_row rows in
  do jacobian <- construct_jacobian net inputs;
  surface_compute_loss svd FLAME_MASK BOUNDARY_MASK self
                       prediction target mask jacobian.

(** [INRModel.process_batch]. *)
Definition inr_process_batch (self : INRModel) (net : Model3D)
  (batch : batch3) : py xR :=
  let '(inputs, mask, target) := batch in
  do rows <- forward (model_network net) (Batched (rows_of_points inputs));
  let prediction := map point_of_row rows in
  do jacobian <- construct_jacobian net inputs;
  inr_compute_loss svd SKULL_MASK JAW_MASK SURFACE_MASK self
                   prediction target mask jacobian.

(** [SimulatorModel.process_batch]. *)
Definition sim_process_batch (self : SimulatorModel) (net : Model3D)
  (batch : batch4) : py xR :=
  let '(inputs, mask, target, actuations) := batch in
  do rows <- forward (model_network net) (Batched (rows_of_points inputs));
  let prediction := map point_of_row rows in
  do jacobian <- construct_jacobian net inputs;
  sim_compute_loss svd FIXED_MASK self
                   prediction target mask jacobian actuations.

End ProcessBatch.

(** A batch that [process_batch] can go through: at least one row, and as
    many tags and targets as inputs. *)
Definition usable3 (batch : batch3) : Prop :=
  let '(inputs, mask, target) := batch in
  inputs <> [] /\ length mask = length inputs /\ length target = length inputs.

Definition usable4 (batch : batch4) : Prop :=
  let '(inputs, mask, target, actuations) := batch in
  inputs <> [] /\ length mask = length inputs /\ length target = length inputs
  /\ length actuations = length inputs.

(** A small network of three inputs and three outputs, without Fourier
    features, and the same architecture behind one Fourier feature. *)
Definition small_network : Network :=
  {| config := Build_BaseModel 3 3 0 1 false false 0;
     modules := [MLinear 3 [[1; 0; 0]] [0]; MSin;
                 MLinear 1 [[1]; [1]; [1]] [0; 0; 0]];
     scale := 1;
     translation := 0 |}.

Definition small_fourier_network : Network :=
  {| config := Build_BaseModel 3 3 0 1 false true 1;
     modules := [MLinear 6 [[1; 0; 0; 0; 0; 0]] [0]; MSin;
                 MLinear 1 [[1]; [1]; [1]] [0; 0; 0]];
     scale := 1;
     translation := 0 |}.

(** A stand-in for the Jacobians: the identity for every sample. *)
Definition identity_jacobian (_ : Model3D) (inputs : list vec3) : py (list mat3) :=
  Ok (map (fun _ => eye) inputs).

(** A dataset whose mask lost its last entry, and an empty one. *)
Definition short_mask_samples : INRDataset :=
  {| inr_inputs := [V3 1 0 0; V3 1 0 0; V3 3 0 0; V3 3 0 0];
     inr_mask := [0%Z; 0%Z; 2%Z];
     inr_target := [V3 1 0 0; V3 1 0 0; V3 3 0 0; V3 3 0 0] |}.

Definition no_samples : INRDataset :=
  {| inr_inputs := []; inr_mask := []; inr_target := [] |}.

(** ** [uv_baseline.py]: values of the UV map carried to the vertices *)

(** numpy's [a[i]] for an integer index into an array of [n] entries: a
    negative index counts from the end, anything else raises. *)
Definition np_index (n : nat) (i : Z) : py nat :=
  if ((0 <=? i) && (i <? Z.of_nat n))%Z then Ok (Z.to_nat i)
  else if ((- Z.of_nat n <=? i) && (i <? 0))%Z then Ok (Z.to_nat (i + Z.of_nat n))
  else Raise IndexError.

(** [a[k] += v] on an array. *)
Fixpoint add_at (a : list R) (k : nat) (v : R) : list R :=
  match a, k with
  | [], _ => []
  | x :: a', O => (x + v) :: a'
  | x :: a', S k' => x :: add_at a' k' v
  end.

(** A corner of a face as [ObjParser] reads it from [v/vt/vn]:
    [vertex[0]] and [vertex[1]], both counted from 1 in the file. *)
Record corner : Type := { v_index : Z; vt_index : Z }.

(** The vertex and the UV value a corner refers to. *)
Definition resolve (num_vertices : nat) (values_uv : list R) (vertex : corner)
  : py (nat * R) :=
  do k <- np_index num_vertices (v_index vertex - 1);
  do j <- np_index (length values_uv) (vt_index vertex - 1);
  Ok (k, nth j values_uv 0).

(** The body of the inner loop:
    [values_3d[vertex[0] - 1] += values_uv[vertex[1] - 1]] and
    [counts[vertex[0] - 1] += 1]. *)
Definition accumulate (values_uv : list R) (st : py (list R * list R))
  (vertex : corner) : py (list R * list R) :=
  do s <- st;
  do kv <- resolve (length (fst s)) values_uv vertex;
  Ok (add_at (fst s) (fst kv) (snd kv), add_at (snd s) (fst kv) 1).

(** [MeshWithUV.assign_values_3d]: the new [self.values_3d]. *)
Definition assign_values_3d (num_vertices : nat) (faces : list (list corner))
  (values_uv : list R) : py (list xR) :=
  let values_3d := repeat 0 num_vertices in
  let counts := repeat 0 num_vertices in
  do s <- fold_left (accumulate values_uv) (concat faces) (Ok (values_3d, counts));
  Ok (map2 xdiv (fst s) (snd s)).

(** All corners resolved, in the order of the loop. *)
Fixpoint resolve_all (num_vertices : nat) (values_uv : list R)
  (corners : list corner) : py (list (nat * R)) :=
  match corners with
  | [] => Ok []
  | c :: cs =>
      do p <- resolve num_vertices values_uv c;
      do ps <- resolve_all num_vertices values_uv cs;
      Ok (p :: ps)
  end.

(** The UV values that reach vertex [k]. *)
Definition contributions (ps : list (nat * R)) (k : nat) : list R :=
  map snd (filter (fun p => Nat.eqb (fst p) k) ps).

(** An index numpy accepts for an array of [n] entries. *)
Definition in_bounds (n : nat) (i : Z) : Prop :=
  (- Z.of_nat n <= i < Z.of_nat n)%Z.

(** Both indices of a corner can be resolved. *)
Definition resolvable (num_vertices num_values : nat) (vertex : corner) : Prop :=
  in_bounds num_vertices (v_index vertex - 1)
  /\ in_bounds num_values (vt_index vertex - 1).

(** One triangle over three vertices, two of its corners sharing a UV value. *)
Definition one_triangle : list (list corner) :=
  [[{| v_index := 1; vt_index := 1 |};
    {| v_index := 2; vt_index := 2 |};
    {| v_index := 3; vt_index := 1 |}]].

(** ** [uv_baseline.py]: reflection of the UV values about the mid line *)

(** [self.values_uv] as [MeshWithUV.__init__] sets it: the [u] coordinate
    relative to [mid_point]. *)
Definition initial_values_uv (uv_coords : list (R * R)) (mid_point : R) : list R :=
  map (fun p => fst p - mid_point) uv_coords.

(** A point of the left half, mirrored:
    [reflected[i, 0] = mid_point - reflected[i, 0] + mid_point]. *)
Definition mirrored (mid_point : R) (p : R * R) : R * R :=
  (mid_point - fst p + mid_point, snd p).

Definition dist2 (p q : R * R) : R :=
  (fst p - fst q) * (fst p - fst q) + (snd p - snd q) * (snd p - snd q).

Section Reflect.

(** [self.kdtree.query(point)[1]]: the index of a nearest UV coordinate. *)
Variable query : list (R * R) -> R * R -> nat.

(** [MeshWithUV.reflect]: the new [self.values_uv].  The right-hand side
    [self.values_uv[indc]] is read before anything is written. *)
Definition reflect (uv_coords : list (R * R)) (mid_point : R) (values_uv : list R)
  : list R :=
  map2 (fun p old =>
          if Rlt_dec (fst p) mid_point
          then nth (query uv_coords (mirrored mid_point p)) values_uv 0
          else old)
       uv_coords values_uv.

(** What the tree promises for the query point [q]. *)
Definition nearest (pts : list (R * R)) (q : R * R) : Prop :=
  (query pts q < length pts)%nat /\
  forall p, In p pts -> dist2 (nth (query pts q) pts (0, 0)) q <= dist2 p q.

End Reflect.

(** Every point left of the mid line has its mirror image in the layout. *)
Definition symmetric_layout (uv_coords : list (R * R)) (mid_point : R) : Prop :=
  forall p, In p uv_coords -> fst p < mid_point ->
            In (mirrored mid_point p) uv_coords.

(** ** [visualize_full_random_search.py]: the checkpoints of a mode *)

(** [s.startswith(p)]. *)
Fixpoint startswith (p s : String.string) : bool :=
  match p, s with
  | String.EmptyString, _ => true
  | String.String a p', String.String b s' => Ascii.eqb a b && startswith p' s'
  | String.String _ _, String.EmptyString => false
  end.

(** [p in s] for two strings. *)
Fixpoint contains (p s : String.string) : bool :=
  startswith p s
  || match s with
     | String.EmptyString => false
     | String.String _ s' => contains p s'
     end.

(** [s.endswith(p)]. *)
Fixpoint endswith (p s : String.string) : bool :=
  String.eqb p s
  || match s with
     | String.EmptyString => false
     | String.String _ s' => endswith p s'
     end.

(** The test of the loop over [os.listdir(args.checkpoints_path)]:
    [file.endswith('.pth') and args.mode in file]. *)
Definition selected (mode file : String.string) : bool :=
  endswith ".pth"%string file && contains mode file.

(** * Properties *)

(** ** Lists, sums and transposition *)

Lemma map2_length {A B C : Type} (f : A -> B -> C) (l1 : list A) (l2 : list B) :
  length (map2 f l1 l2) = Nat.min (length l1) (length l2).
Proof.
  revert l2; induction l1 as [|a l1 IH]; intros [|b l2]; simpl; auto.
Qed.

Lemma map2_map_l {A A' B C : Type} (f : A' -> B -> C) (g : A -> A')
  (l1 : list A) (l2 : list B) :
  map2 f (map g l1) l2 = map2 (fun a b => f (g a) b) l1 l2.
Proof.
  revert l2; induction l1 as [|a l1 IH]; intros [|b l2]; simpl; auto.
  now rewrite IH.
Qed.

Lemma map_map2 {A B C E : Type} (h : C -> E) (f : A -> B -> C)
  (l1 : list A) (l2 : list B) :
  map h (map2 f l1 l2) = map2 (fun a b => h (f a b)) l1 l2.
Proof.
  revert l2; induction l1 as [|a l1 IH]; intros [|b l2]; simpl; auto.
  now rewrite IH.
Qed.

Lemma tsum_app (l1 l2 : list R) : tsum (l1 ++ l2) = tsum l1 + tsum l2.
Proof.
  induction l1 as [|a l1 IH]; simpl; [ring | rewrite IH; ring].
Qed.

Lemma tsum_nonneg (l : list R) : Forall (fun x => 0 <= x) l -> 0 <= tsum l.
Proof.
  induction 1 as [|x l Hx _ IH]; simpl; lra.
Qed.

Lemma tsum_zero_all (l : list R) :
  Forall (fun x => 0 <= x) l -> tsum l = 0 -> Forall (fun x => x = 0) l.
Proof.
  induction 1 as [|x l Hx Hl IH]; simpl; intros Hs; constructor.
  - pose proof (tsum_nonneg l Hl). lra.
  - apply IH. pose proof (tsum_nonneg l Hl). lra.
Qed.

Lemma zip3_transpose (S : list vec3) :
  transpose_3N (transpose_N3 S) = S.
Proof.
  unfold transpose_3N, transpose_N3; simpl.
  induction S as [|[x y z] S IH]; simpl; [reflexivity | now rewrite IH].
Qed.

Lemma tmean_map_cons {A : Type} (f : A -> R) (p : A) (S : list A) :
  tmean (map f (p :: S))
  = Some (tsum (map f (p :: S)) / INR (length (p :: S))).
Proof. simpl. now rewrite length_map. Qed.

Lemma tsum_map_vx (l : list vec3) :
  tsum (map vx l) = vx (fold_right vadd (V3 0 0 0) l).
Proof. induction l as [|q l IH]; simpl; [reflexivity | now rewrite <- IH]. Qed.

Lemma tsum_map_vy (l : list vec3) :
  tsum (map vy l) = vy (fold_right vadd (V3 0 0 0) l).
Proof. induction l as [|q l IH]; simpl; [reflexivity | now rewrite <- IH]. Qed.

Lemma tsum_map_vz (l : list vec3) :
  tsum (map vz l) = vz (fold_right vadd (V3 0 0 0) l).
Proof. induction l as [|q l IH]; simpl; [reflexivity | now rewrite <- IH]. Qed.

Lemma centroid_mean_axis1 (S : list vec3) :
  mean_axis1 (transpose_N3 S) = centroid S.
Proof.
  destruct S as [|p S]; [reflexivity|].
  unfold mean_axis1, transpose_N3, centroid. cbn [row0 row1 row2].
  rewrite !tmean_map_cons, tsum_map_vx, tsum_map_vy, tsum_map_vz.
  cbn [xbind]. unfold vscale, Rdiv. f_equal. f_equal; ring.
Qed.

Lemma sub_col_centered (S : list vec3) (mu : vec3) :
  sub_col (transpose_N3 S) mu = transpose_N3 (centered S mu).
Proof.
  unfold sub_col, transpose_N3, centered; simpl.
  now rewrite !map_map.
Qed.

Lemma sum_sq_variance (X : list vec3) :
  sum_sq (transpose_N3 X) = variance X.
Proof.
  unfold sum_sq, transpose_N3, variance; simpl.
  induction X as [|p X IH]; simpl; [ring|].
  rewrite <- IH. unfold norm2. ring.
Qed.

Lemma mm_cross_cov (X1 X2 : list vec3) :
  mm_3N_N3 (transpose_N3 X1) (transpose_N3 X2) = cross_cov X1 X2.
Proof.
  revert X2; induction X1 as [|a X1 IH]; intros [|b X2]; try reflexivity.
  simpl cross_cov. rewrite <- IH. reflexivity.
Qed.

Lemma similarity_rows (scale : R) (A : mat3) (t : vec3) (S : list vec3) :
  transpose_3N (add_col (scale_3N scale (mm_33_3N A (transpose_N3 S))) t)
  = map (similarity scale A t) S.
Proof.
  unfold transpose_3N, add_col, scale_3N, mm_33_3N, transpose_N3, lin3; simpl.
  induction S as [|p S IH]; simpl; [reflexivity|].
  rewrite IH. reflexivity.
Qed.

(** ** The Procrustes loss follows the stated algorithm *)

Section ProcrustesAlgorithm.

Variable svd : mat3 -> mat3 * vec3 * mat3.

(** On equal cardinalities the tensor computation of [procrustes_loss]
    and the point-wise algorithm give the same value. *)
Lemma procrustes_loss_pointwise (S1 S2 : list vec3) :
  length S1 = length S2 ->
  procrustes_loss svd S1 S2 = Ok (procrustes_spec svd S1 S2).
Proof.
  intros Hlen. unfold procrustes_loss, procrustes_spec, procrustes_rotation_of.
  unfold shape1 at 1 2. cbn [transpose_N3 row0].
  rewrite !length_map, Hlen, Nat.eqb_refl. cbn [negb]. f_equal.
  rewrite !centroid_mean_axis1.
  destruct (centroid S1) as [mu1|]; [|reflexivity].
  destruct (centroid S2) as [mu2|]; [|reflexivity].
  cbn [xbind].
  rewrite !sub_col_centered, sum_sq_variance, mm_cross_cov.
  unfold procrustes_rotation.
  destruct (svd (cross_cov (centered S1 mu1) (centered S2 mu2))) as [[U s] V].
  cbn [xbind fit_mu1 fit_mu2 fit_var1 fit_K fit_R].
  match goal with |- context [xdiv ?a ?b] => destruct (xdiv a b) as [scale|] end;
    [|reflexivity].
  cbn [xbind].
  rewrite similarity_rows, zip3_transpose.
  unfold sub_N3. now rewrite map_map2, map2_map_l.
Qed.

(** C1.  For two point sets of equal cardinality, [procrustes_loss]
    returns what the algorithm of the specification returns: with both
    sets centred, [var1] the sum of squared norms of the centred first
    set, [K] the cross-covariance, [R = V Z U^T] from the factors of [K],
    [scale = trace(R K) / var1] and [t = mu2 - scale R mu1], it is the
    mean over the points of the Euclidean distance between
    [scale R S1_i + t] and [S2_i]. *)
Theorem procrustes_loss_computes_spec (S1 S2 : list vec3) :
  length S1 = length S2 ->
  procrustes_loss svd S1 S2 = Ok (procrustes_spec svd S1 S2).
Proof. apply procrustes_loss_pointwise. Qed.

End ProcrustesAlgorithm.

(** Two point sets of four points each. *)
Lemma procrustes_loss_computes_spec_witness :
  procrustes_loss svd_diagonal planar_points coincident_points_4
  = Ok (procrustes_spec svd_diagonal planar_points coincident_points_4).
Proof.
  apply (procrustes_loss_computes_spec svd_diagonal planar_points coincident_points_4).
  reflexivity.
Defined.

(** ** Algebra of 3x3 matrices *)

Lemma mat3_ext (A B : mat3) :
  m00 A = m00 B -> m01 A = m01 B -> m02 A = m02 B ->
  m10 A = m10 B -> m11 A = m11 B -> m12 A = m12 B ->
  m20 A = m20 B -> m21 A = m21 B -> m22 A = m22 B -> A = B.
Proof. destruct A, B; simpl; intros; subst; reflexivity. Qed.

Ltac mat_ring :=
  apply mat3_ext; simpl; ring.

Lemma mmul_assoc (A B C : mat3) : mmul A (mmul B C) = mmul (mmul A B) C.
Proof. mat_ring. Qed.

Lemma mmul_eye_l (A : mat3) : mmul eye A = A.
Proof. mat_ring. Qed.

Lemma mmul_eye_r (A : mat3) : mmul A eye = A.
Proof. mat_ring. Qed.

Lemma mT_mmul (A B : mat3) : mT (mmul A B) = mmul (mT B) (mT A).
Proof. mat_ring. Qed.

Lemma mT_involutive (A : mat3) : mT (mT A) = A.
Proof. now destruct A. Qed.

Lemma det_mmul (A B : mat3) : det (mmul A B) = det A * det B.
Proof. unfold det; simpl; ring. Qed.

Lemma det_mT (A : mat3) : det (mT A) = det A.
Proof. unfold det; simpl; ring. Qed.

Lemma det_eye : det eye = 1.
Proof. unfold det; simpl; ring. Qed.

Lemma det_Zfix (c : R) : det (Zfix c) = c.
Proof. unfold det; simpl; ring. Qed.

Lemma orthogonal_eye : orthogonal eye.
Proof. split; mat_ring. Qed.

Lemma orthogonal_mT (A : mat3) : orthogonal A -> orthogonal (mT A).
Proof. intros [H1 H2]; split; rewrite mT_involutive; assumption. Qed.

Lemma orthogonal_mmul (A B : mat3) :
  orthogonal A -> orthogonal B -> orthogonal (mmul A B).
Proof.
  intros [A1 A2] [B1 B2]; split; rewrite mT_mmul.
  - rewrite mmul_assoc, <- (mmul_assoc (mT B)), A1, mmul_eye_r. exact B1.
  - rewrite mmul_assoc, <- (mmul_assoc A), B2, mmul_eye_r. exact A2.
Qed.

Lemma orthogonal_det (A : mat3) : orthogonal A -> det A = 1 \/ det A = -1.
Proof.
  intros [H _].
  assert (Hd : det A * det A = 1).
  { rewrite <- (det_mT A) at 1. rewrite <- det_mmul, H. apply det_eye. }
  assert (Hf : (det A - 1) * (det A + 1) = 0) by lra.
  apply Rmult_integral in Hf. destruct Hf; [left | right]; lra.
Qed.

Lemma sign_pos (x : R) : 0 < x -> sign x = 1.
Proof.
  intros H; unfold sign. destruct (Rlt_dec 0 x); [reflexivity | contradiction].
Qed.

Lemma sign_neg (x : R) : x < 0 -> sign x = -1.
Proof.
  intros H; unfold sign. destruct (Rlt_dec 0 x); [lra|].
  destruct (Rlt_dec x 0); [reflexivity | contradiction].
Qed.

Lemma sign_mul_self (x : R) : x = 1 \/ x = -1 -> x * sign x = 1.
Proof.
  intros [-> | ->]; [rewrite sign_pos | rewrite sign_neg]; lra.
Qed.

Lemma orthogonal_Zfix (c : R) : c = 1 \/ c = -1 -> orthogonal (Zfix c).
Proof. intros [-> | ->]; split; mat_ring. Qed.

(** The sign handed to [Zfix] is the determinant of [U V^T]. *)
Lemma sign_det_UVt (U V : mat3) :
  orthogonal U -> orthogonal V ->
  det U * det V * sign (det (mmul U (mT V))) = 1.
Proof.
  intros HU HV. rewrite det_mmul, det_mT. apply sign_mul_self.
  destruct (orthogonal_det U HU) as [-> | ->],
           (orthogonal_det V HV) as [-> | ->]; lra.
Qed.

Lemma sign_det_UVt_unit (U V : mat3) :
  orthogonal U -> orthogonal V ->
  sign (det (mmul U (mT V))) = 1 \/ sign (det (mmul U (mT V))) = -1.
Proof.
  intros HU HV. rewrite det_mmul, det_mT.
  destruct (orthogonal_det U HU) as [-> | ->],
           (orthogonal_det V HV) as [-> | ->];
    replace (1 * 1) with 1 by ring || replace (1 * -1) with (-1) by ring
    || replace (-1 * 1) with (-1) by ring || replace (-1 * -1) with 1 by ring;
    (rewrite sign_pos by lra; now left) || (rewrite sign_neg by lra; now right).
Qed.

(** ** Batched operations are per-sample operations *)

Section PerSample.

Variable svd : mat3 -> mat3 * vec3 * mat3.

Lemma map2_map_map {A B C E : Type} (f : B -> C -> E) (g : A -> B) (h : A -> C)
  (l : list A) :
  map2 f (map g l) (map h l) = map (fun a => f (g a) (h a)) l.
Proof. induction l as [|a l IH]; simpl; [reflexivity | now rewrite IH]. Qed.

Lemma bZfix_map {A : Type} (c : A -> R) (l : list A) (n : nat) :
  n = length l ->
  bZfix n (map c l) = map (fun a => Zfix (c a)) l.
Proof.
  intros ->. unfold bZfix.
  induction l as [|a l IH]; simpl; [reflexivity | now rewrite IH].
Qed.

Lemma batched_rotation_map (M : list mat3) :
  batched_rotation svd M = map (closest_rotation svd) M.
Proof.
  unfold batched_rotation, bsvd, bmm, bT, bdet.
  rewrite length_map, !map_map, map2_map_map, !map_map.
  rewrite (bZfix_map _ M) by reflexivity.
  rewrite !map2_map_map.
  apply map_ext; intros m. unfold closest_rotation.
  destruct (svd m) as [[U s] V]; reflexivity.
Qed.

Lemma deformation_loss_per_sample (jacobian : list mat3) :
  deformation_loss svd jacobian = rotation_residual svd jacobian.
Proof.
  unfold deformation_loss, rotation_residual, bsub.
  rewrite batched_rotation_map.
  rewrite <- (map_id jacobian) at 1.
  now rewrite map2_map_map, map_map.
Qed.

End PerSample.

(** ** The constructed rotation is proper *)

Section ProperRotation.

Variable svd : mat3 -> mat3 * vec3 * mat3.

Lemma VZUt_proper (U V : mat3) :
  orthogonal U -> orthogonal V ->
  proper_rotation (mmul V (mmul (Zfix (sign (det (mmul U (mT V))))) (mT U))).
Proof.
  intros HU HV. split.
  - apply orthogonal_mmul; [exact HV|].
    apply orthogonal_mmul; [|now apply orthogonal_mT].
    apply orthogonal_Zfix. now apply sign_det_UVt_unit.
  - pose proof (sign_det_UVt U V HU HV) as H.
    set (c := sign (det (mmul U (mT V)))) in *.
    rewrite !det_mmul, det_Zfix, det_mT.
    transitivity (det U * det V * c); [ring | exact H].
Qed.

Lemma UZVt_proper (U V : mat3) :
  orthogonal U -> orthogonal V ->
  proper_rotation (mmul U (mmul (Zfix (sign (det (mmul U (mT V))))) (mT V))).
Proof.
  intros HU HV. split.
  - apply orthogonal_mmul; [exact HU|].
    apply orthogonal_mmul; [|now apply orthogonal_mT].
    apply orthogonal_Zfix. now apply sign_det_UVt_unit.
  - pose proof (sign_det_UVt U V HU HV) as H.
    set (c := sign (det (mmul U (mT V)))) in *.
    rewrite !det_mmul, det_Zfix, det_mT.
    transitivity (det U * det V * c); [ring | exact H].
Qed.

Lemma closest_rotation_proper (M : mat3) :
  factors_orthogonal (svd M) -> proper_rotation (closest_rotation svd M).
Proof.
  unfold factors_orthogonal, closest_rotation.
  destruct (svd M) as [[U s] V]. intros [HU HV]. now apply UZVt_proper.
Qed.

Lemma procrustes_rotation_proper (K : mat3) :
  factors_orthogonal (svd K) -> proper_rotation (procrustes_rotation svd K).
Proof.
  unfold factors_orthogonal, procrustes_rotation.
  destruct (svd K) as [[U s] V]. intros [HU HV]. now apply VZUt_proper.
Qed.


End ProperRotation.

Lemma svd_diagonal_orthogonal (K : mat3) : factors_orthogonal (svd_diagonal K).
Proof. split; apply orthogonal_eye. Qed.


(** ** Loss composition: empty regions and unmatched samples *)

Lemma xmul_zero_l (w : R) : xmul (Some 0) (Some w) = Some 0.
Proof. unfold xmul; simpl. f_equal. ring. Qed.

Lemma l1_term_empty (w : R) (prediction target : list vec3) (where_ : list bool) :
  mask_sum where_ = 0%nat ->
  l1_term w prediction target where_ = Ok (Some 0).
Proof.
  intros H. unfold l1_term. rewrite H. cbn [Nat.ltb Nat.leb py_bind].
  now rewrite xmul_zero_l.
Qed.

Section EmptyRegions.

Variable svd : mat3 -> mat3 * vec3 * mat3.
Variables FLAME_MASK BOUNDARY_MASK : Z.
Variables SKULL_MASK JAW_MASK SURFACE_MASK : Z.
Variable FIXED_MASK : Z.

Lemma inr_jaw_loss_small (inr : INRModel) (prediction target : list vec3)
  (mask : list Z) :
  (mask_sum (mask_eq mask JAW_MASK) <= 2)%nat ->
  inr_jaw_loss svd JAW_MASK inr prediction target mask = Ok (Some 0).
Proof.
  intros H. unfold inr_jaw_loss.
  destruct (Nat.ltb_spec 2 (mask_sum (mask_eq mask JAW_MASK))) as [Hlt|_]; [lia|].
  cbn [py_bind]. now rewrite xmul_zero_l.
Qed.

(** C5.  In each of the three variants a regression term whose region has
    no member in the batch is returned as the finite value zero, without
    an exception, whatever the arrays hold; the alignment term of the JAW
    region of the full-head variant is zero in the same way as soon as the
    region has at most two members.  Such a term is still added: with
    all its regions empty, a composed loss is the sum of these zeros and
    of the weighted regularizer. *)
Theorem empty_region_terms_are_zero
  (surface : SurfaceINRModel) (inr : INRModel) (sim : SimulatorModel)
  (prediction target : list vec3) (mask : list Z) :
  (mask_sum (mask_eq mask FLAME_MASK) = 0%nat ->
   surface_flame_loss FLAME_MASK surface prediction target mask = Ok (Some 0)) /\
  (mask_sum (mask_eq mask BOUNDARY_MASK) = 0%nat ->
   surface_boundary_loss BOUNDARY_MASK surface prediction target mask = Ok (Some 0)) /\
  (mask_sum (mask_eq mask SURFACE_MASK) = 0%nat ->
   inr_surface_loss SURFACE_MASK inr prediction target mask = Ok (Some 0)) /\
  (mask_sum (mask_eq mask SKULL_MASK) = 0%nat ->
   inr_skull_loss SKULL_MASK inr prediction target mask = Ok (Some 0)) /\
  (mask_sum (mask_eq mask FIXED_MASK) = 0%nat ->
   sim_fixed_loss FIXED_MASK sim prediction target mask = Ok (Some 0)) /\
  ((mask_sum (mask_eq mask JAW_MASK) <= 2)%nat ->
   inr_jaw_loss svd JAW_MASK inr prediction target mask = Ok (Some 0)) /\
  (mask_sum (mask_eq mask FLAME_MASK) = 0%nat ->
   mask_sum (mask_eq mask BOUNDARY_MASK) = 0%nat ->
   forall jacobian,
     surface_compute_loss svd FLAME_MASK BOUNDARY_MASK surface
                          prediction target mask jacobian
     = Ok (xadd (xadd (Some 0) (Some 0)) (surface_def_loss svd surface jacobian))) /\
  (mask_sum (mask_eq mask SURFACE_MASK) = 0%nat ->
   mask_sum (mask_eq mask SKULL_MASK) = 0%nat ->
   (mask_sum (mask_eq mask JAW_MASK) <= 2)%nat ->
   forall jacobian,
     inr_compute_loss svd SKULL_MASK JAW_MASK SURFACE_MASK inr
                      prediction target mask jacobian
     = Ok (xadd (xadd (xadd (Some 0) (Some 0)) (Some 0))
                (inr_def_loss svd inr jacobian))).
Proof.
  split; [intros H; now apply l1_term_empty|].
  split; [intros H; now apply l1_term_empty|].
  split; [intros H; now apply l1_term_empty|].
  split; [intros H; now apply l1_term_empty|].
  split; [intros H; now apply l1_term_empty|].
  split; [apply inr_jaw_loss_small|].
  split.
  - intros Hf Hb jacobian.
    unfold surface_compute_loss, surface_flame_loss, surface_boundary_loss.
    now rewrite !l1_term_empty by assumption.
  - intros Hs Hk Hj jacobian.
    unfold inr_compute_loss, inr_surface_loss, inr_skull_loss.
    rewrite !l1_term_empty by assumption.
    now rewrite inr_jaw_loss_small by assumption.
Qed.

End EmptyRegions.

(** A full-head batch with two JAW samples (tag 1) and no other region. *)
Lemma empty_region_terms_are_zero_witness :
  inr_jaw_loss svd_diagonal 1 (Build_INRModel (1/50) 1 2 10)
               [V3 0 0 0; V3 1 0 0] [V3 0 1 0; V3 1 1 0] [1%Z; 1%Z] = Ok (Some 0)
  /\ inr_skull_loss 0 (Build_INRModel (1/50) 1 2 10)
               [V3 0 0 0; V3 1 0 0] [V3 0 1 0; V3 1 1 0] [1%Z; 1%Z] = Ok (Some 0).
Proof.
  pose proof (empty_region_terms_are_zero svd_diagonal 5 6 0 1 2 7
                (Build_SurfaceINRModel (1/50) 1 1) (Build_INRModel (1/50) 1 2 10)
                (Build_SimulatorModel (1/2) 2)
                [V3 0 0 0; V3 1 0 0] [V3 0 1 0; V3 1 1 0] [1%Z; 1%Z])
    as (_ & _ & _ & Hskull & _ & Hjaw & _).
  split.
  - apply Hjaw. vm_compute. lia.
  - apply Hskull. reflexivity.
Defined.

Lemma mask_eq_app (m1 m2 : list Z) (tag : Z) :
  mask_eq (m1 ++ m2) tag = mask_eq m1 tag ++ mask_eq m2 tag.
Proof. apply map_app. Qed.

Lemma mask_eq_unmatched (m1 m2 : list Z) (m tag : Z) :
  m <> tag ->
  mask_eq (m1 ++ m :: m2) tag = mask_eq m1 tag ++ false :: mask_eq m2 tag.
Proof.
  intros H. rewrite mask_eq_app. simpl.
  destruct (Z.eqb_spec m tag); [contradiction | reflexivity].
Qed.

Lemma mask_sum_drop_false (w1 w2 : list bool) :
  mask_sum (w1 ++ false :: w2) = mask_sum (w1 ++ w2).
Proof. unfold mask_sum. rewrite !filter_app. reflexivity. Qed.

Lemma combine_app_eq {A B : Type} (x1 x2 : list A) (y1 y2 : list B) :
  length x1 = length y1 ->
  combine (x1 ++ x2) (y1 ++ y2) = combine x1 y1 ++ combine x2 y2.
Proof.
  revert y1; induction x1 as [|a x1 IH]; intros [|b y1] H; try discriminate.
  - reflexivity.
  - simpl. now rewrite IH by (simpl in H; lia).
Qed.

Lemma index_mask_drop_false {A : Type} (x1 x2 : list A) (a : A) (w1 w2 : list bool) :
  length x1 = length w1 ->
  index_mask (x1 ++ a :: x2) (w1 ++ false :: w2) = index_mask (x1 ++ x2) (w1 ++ w2).
Proof.
  intros H. unfold index_mask.
  rewrite !length_app. cbn [length]. rewrite !Nat.add_succ_r. cbn [Nat.eqb].
  destruct (Nat.eqb _ _); [|reflexivity].
  f_equal. rewrite !combine_app_eq by exact H.
  rewrite !filter_app. reflexivity.
Qed.

Lemma l1_term_drop_unmatched (w : R) (p1 p2 t1 t2 : list vec3) (p t : vec3)
  (w1 w2 : list bool) :
  length p1 = length w1 -> length t1 = length w1 ->
  l1_term w (p1 ++ p :: p2) (t1 ++ t :: t2) (w1 ++ false :: w2)
  = l1_term w (p1 ++ p2) (t1 ++ t2) (w1 ++ w2).
Proof.
  intros Hp Ht. unfold l1_term.
  now rewrite mask_sum_drop_false, !index_mask_drop_false.
Qed.

Lemma tmean_insert (l1 l2 : list R) (x : R) :
  tmean (l1 ++ x :: l2)
  = Some ((tsum l1 + x + tsum l2) / INR (S (length l1 + length l2))).
Proof.
  destruct l1 as [|y l1]; cbn [app tmean].
  - simpl. f_equal. f_equal. ring.
  - f_equal. f_equal.
    + change (y :: l1 ++ x :: l2) with ((y :: l1) ++ x :: l2).
      rewrite tsum_app. simpl. ring.
    + f_equal. cbn [length]. rewrite length_app. cbn [length]. lia.
Qed.

Section UnmatchedSamples.

Variable svd : mat3 -> mat3 * vec3 * mat3.
Variables FLAME_MASK BOUNDARY_MASK : Z.
Variables SKULL_MASK JAW_MASK SURFACE_MASK : Z.
Variable FIXED_MASK : Z.

Lemma deformation_loss_insert (j1 j2 : list mat3) (j : mat3) :
  deformation_loss svd (j1 ++ j :: j2)
  = Some ((tsum (map (def_residual svd) j1) + def_residual svd j + tsum (map (def_residual svd) j2))
          / INR (S (length j1 + length j2))).
Proof.
  rewrite deformation_loss_per_sample. unfold rotation_residual.
  rewrite map_app. cbn [map]. rewrite tmean_insert, !length_map. reflexivity.
Qed.

Lemma energy_loss_per_sample (jacobian actuations : list mat3) :
  length jacobian = length actuations ->
  energy_loss svd jacobian actuations
  = Ok (tmean (map2 (energy_residual svd) jacobian actuations)).
Proof.
  intros H. unfold energy_loss. rewrite H, Nat.eqb_refl. cbn [negb].
  f_equal. f_equal. rewrite batched_rotation_map. unfold bsub, bmm.
  clear H. revert actuations.
  induction jacobian as [|J js IH]; intros [|A acts]; try reflexivity.
  simpl. now rewrite IH.
Qed.

Lemma map2_app {A B C : Type} (f : A -> B -> C) (a1 a2 : list A) (b1 b2 : list B) :
  length a1 = length b1 ->
  map2 f (a1 ++ a2) (b1 ++ b2) = map2 f a1 b1 ++ map2 f a2 b2.
Proof.
  revert b1; induction a1 as [|x a1 IH]; intros [|y b1] H; try discriminate.
  - reflexivity.
  - simpl. now rewrite IH by (simpl in H; lia).
Qed.

Lemma energy_loss_insert (j1 j2 a1 a2 : list mat3) (j a : mat3) :
  length j1 = length a1 -> length j2 = length a2 ->
  energy_loss svd (j1 ++ j :: j2) (a1 ++ a :: a2)
  = Ok (Some ((tsum (map2 (energy_residual svd) j1 a1) + energy_residual svd j a
               + tsum (map2 (energy_residual svd) j2 a2))
              / INR (S (length j1 + length j2)))).
Proof.
  intros H1 H2. rewrite energy_loss_per_sample.
  - rewrite map2_app by exact H1. cbn [map2].
    rewrite tmean_insert, !map2_length, <- H1, <- H2, !Nat.min_id. reflexivity.
  - rewrite !length_app. simpl. lia.
Qed.

Lemma surface_loss_regression_and_regularizer (surface : SurfaceINRModel)
  (prediction target : list vec3) (mask : list Z) (jacobian : list mat3) :
  surface_compute_loss svd FLAME_MASK BOUNDARY_MASK surface
    prediction target mask jacobian
  = do reg <- surface_regression_loss FLAME_MASK BOUNDARY_MASK surface
                prediction target mask;
    Ok (xadd reg (xmul (deformation_loss svd jacobian)
                       (Some (s_w_deformation surface)))).
Proof.
  unfold surface_compute_loss, surface_regression_loss, surface_def_loss.
  destruct (surface_flame_loss _ _ _ _ _) as [f|]; [|reflexivity].
  destruct (surface_boundary_loss _ _ _ _ _) as [b|]; reflexivity.
Qed.

Lemma inr_loss_regression_and_regularizer (inr : INRModel)
  (prediction target : list vec3) (mask : list Z) (jacobian : list mat3) :
  inr_compute_loss svd SKULL_MASK JAW_MASK SURFACE_MASK inr
    prediction target mask jacobian
  = do reg <- inr_regression_loss svd SKULL_MASK JAW_MASK SURFACE_MASK inr
                prediction target mask;
    Ok (xadd reg (xmul (deformation_loss svd jacobian)
                       (Some (w_deformation inr)))).
Proof.
  unfold inr_compute_loss, inr_regression_loss, inr_def_loss.
  destruct (inr_surface_loss _ _ _ _ _) as [a|]; [|reflexivity].
  destruct (inr_skull_loss _ _ _ _ _) as [b|]; [|reflexivity].
  destruct (inr_jaw_loss _ _ _ _ _ _) as [c|]; reflexivity.
Qed.

Lemma sim_loss_regression_and_regularizer (sim : SimulatorModel)
  (prediction target : list vec3) (mask : list Z)
  (jacobian actuations : list mat3) (e : xR) :
  energy_loss svd jacobian actuations = Ok e ->
  sim_compute_loss svd FIXED_MASK sim prediction target mask jacobian actuations
  = do reg <- sim_fixed_loss FIXED_MASK sim prediction target mask;
    Ok (xadd reg (xmul e (Some (w_energy sim)))).
Proof.
  intros He. unfold sim_compute_loss, sim_e_loss. now rewrite He.
Qed.

Lemma surface_regression_drop_unmatched (surface : SurfaceINRModel)
  (p1 p2 t1 t2 : list vec3) (p t : vec3) (m1 m2 : list Z) (m : Z) :
  length p1 = length m1 -> length t1 = length m1 ->
  m <> FLAME_MASK -> m <> BOUNDARY_MASK ->
  surface_regression_loss FLAME_MASK BOUNDARY_MASK surface
    (p1 ++ p :: p2) (t1 ++ t :: t2) (m1 ++ m :: m2)
  = surface_regression_loss FLAME_MASK BOUNDARY_MASK surface
      (p1 ++ p2) (t1 ++ t2) (m1 ++ m2).
Proof.
  intros Hp Ht Hf Hb.
  unfold surface_regression_loss, surface_flame_loss, surface_boundary_loss.
  rewrite !mask_eq_unmatched by assumption.
  rewrite !l1_term_drop_unmatched by (unfold mask_eq; now rewrite length_map).
  now rewrite !mask_eq_app.
Qed.

Lemma inr_regression_drop_unmatched (inr : INRModel)
  (p1 p2 t1 t2 : list vec3) (p t : vec3) (m1 m2 : list Z) (m : Z) :
  length p1 = length m1 -> length t1 = length m1 ->
  m <> SKULL_MASK -> m <> JAW_MASK -> m <> SURFACE_MASK ->
  inr_regression_loss svd SKULL_MASK JAW_MASK SURFACE_MASK inr
    (p1 ++ p :: p2) (t1 ++ t :: t2) (m1 ++ m :: m2)
  = inr_regression_loss svd SKULL_MASK JAW_MASK SURFACE_MASK inr
      (p1 ++ p2) (t1 ++ t2) (m1 ++ m2).
Proof.
  intros Hp Ht Hs Hjw Hsf.
  assert (Hw : forall tag, length p1 = length (mask_eq m1 tag)
                           /\ length t1 = length (mask_eq m1 tag)).
  { intros tag. unfold mask_eq. now rewrite length_map. }
  unfold inr_regression_loss, inr_surface_loss, inr_skull_loss, inr_jaw_loss.
  rewrite !mask_eq_unmatched by assumption.
  rewrite !l1_term_drop_unmatched by apply Hw.
  rewrite mask_sum_drop_false, !index_mask_drop_false by apply Hw.
  now rewrite !mask_eq_app.
Qed.

Lemma sim_fixed_drop_unmatched (sim : SimulatorModel)
  (p1 p2 t1 t2 : list vec3) (p t : vec3) (m1 m2 : list Z) (m : Z) :
  length p1 = length m1 -> length t1 = length m1 ->
  m <> FIXED_MASK ->
  sim_fixed_loss FIXED_MASK sim (p1 ++ p :: p2) (t1 ++ t :: t2) (m1 ++ m :: m2)
  = sim_fixed_loss FIXED_MASK sim (p1 ++ p2) (t1 ++ t2) (m1 ++ m2).
Proof.
  intros Hp Ht Hf. unfold sim_fixed_loss.
  rewrite !mask_eq_unmatched by assumption.
  rewrite !l1_term_drop_unmatched by (unfold mask_eq; now rewrite length_map).
  now rewrite !mask_eq_app.
Qed.

(** Two losses that share their regression part differ by the weighted
    difference of their regularizers. *)
Lemma regularizer_difference (reg : py xR) (w r r' v v' : R) :
  (do x <- reg; Ok (xadd x (xmul (Some r) (Some w)))) = Ok (Some v) ->
  (do x <- reg; Ok (xadd x (xmul (Some r') (Some w)))) = Ok (Some v') ->
  v - v' = w * (r - r').
Proof.
  destruct reg as [[x|]|e]; cbn [py_bind xadd xmul xbind]; try discriminate.
  intros H H'.
  assert (E : v = x + r * w) by congruence.
  assert (E' : v' = x + r' * w) by congruence.
  subst. ring.
Qed.

(** C9.  A sample whose tag is none of the tags of the mode reaches the
    composed loss through the regularizer only.  The loss returned by
    [compute_loss] is the sum of the regression (and alignment) terms of
    the batch without that sample -- its prediction, target and tag play
    no part -- and of the weighted regularizer, which is the mean over the
    Jacobians of all samples, that sample's included: its residual
    [def_residual j] (or [energy_residual j a]) is one of the summands.
    The sample does contribute: replacing its Jacobian by another one
    changes the loss by the weight times the difference of the two
    residuals, divided by the number of samples. *)
Theorem unmatched_sample_reaches_only_regularizer
  (surface : SurfaceINRModel) (inr : INRModel) (sim : SimulatorModel)
  (p1 p2 t1 t2 : list vec3) (p t : vec3) (m1 m2 : list Z) (m : Z)
  (j1 j2 a1 a2 : list mat3) (j a : mat3) :
  length p1 = length m1 -> length t1 = length m1 ->
  length j1 = length a1 -> length j2 = length a2 ->
  (m <> FLAME_MASK -> m <> BOUNDARY_MASK ->
   surface_compute_loss svd FLAME_MASK BOUNDARY_MASK surface
     (p1 ++ p :: p2) (t1 ++ t :: t2) (m1 ++ m :: m2) (j1 ++ j :: j2)
   = do reg <- surface_regression_loss FLAME_MASK BOUNDARY_MASK surface
                 (p1 ++ p2) (t1 ++ t2) (m1 ++ m2);
     Ok (xadd reg
           (xmul (Some ((tsum (map (def_residual svd) j1) + def_residual svd j
                         + tsum (map (def_residual svd) j2))
                        / INR (S (length j1 + length j2))))
                 (Some (s_w_deformation surface))))) /\
  (m <> SKULL_MASK -> m <> JAW_MASK -> m <> SURFACE_MASK ->
   inr_compute_loss svd SKULL_MASK JAW_MASK SURFACE_MASK inr
     (p1 ++ p :: p2) (t1 ++ t :: t2) (m1 ++ m :: m2) (j1 ++ j :: j2)
   = do reg <- inr_regression_loss svd SKULL_MASK JAW_MASK SURFACE_MASK inr
                 (p1 ++ p2) (t1 ++ t2) (m1 ++ m2);
     Ok (xadd reg
           (xmul (Some ((tsum (map (def_residual svd) j1) + def_residual svd j
                         + tsum (map (def_residual svd) j2))
                        / INR (S (length j1 + length j2))))
                 (Some (w_deformation inr))))) /\
  (m <> FIXED_MASK ->
   sim_compute_loss svd FIXED_MASK sim
     (p1 ++ p :: p2) (t1 ++ t :: t2) (m1 ++ m :: m2) (j1 ++ j :: j2) (a1 ++ a :: a2)
   = do reg <- sim_fixed_loss FIXED_MASK sim (p1 ++ p2) (t1 ++ t2) (m1 ++ m2);
     Ok (xadd reg
           (xmul (Some ((tsum (map2 (energy_residual svd) j1 a1)
                         + energy_residual svd j a
                         + tsum (map2 (energy_residual svd) j2 a2))
                        / INR (S (length j1 + length j2))))
                 (Some (w_energy sim))))) /\
  (forall (j' : mat3) (v v' : R),
      m <> FLAME_MASK -> m <> BOUNDARY_MASK ->
      surface_compute_loss svd FLAME_MASK BOUNDARY_MASK surface
        (p1 ++ p :: p2) (t1 ++ t :: t2) (m1 ++ m :: m2) (j1 ++ j :: j2)
      = Ok (Some v) ->
      surface_compute_loss svd FLAME_MASK BOUNDARY_MASK surface
        (p1 ++ p :: p2) (t1 ++ t :: t2) (m1 ++ m :: m2) (j1 ++ j' :: j2)
      = Ok (Some v') ->
      v - v' = s_w_deformation surface
               * ((def_residual svd j - def_residual svd j')
                  / INR (S (length j1 + length j2)))) /\
  (forall (j' : mat3) (v v' : R),
      m <> SKULL_MASK -> m <> JAW_MASK -> m <> SURFACE_MASK ->
      inr_compute_loss svd SKULL_MASK JAW_MASK SURFACE_MASK inr
        (p1 ++ p :: p2) (t1 ++ t :: t2) (m1 ++ m :: m2) (j1 ++ j :: j2)
      = Ok (Some v) ->
      inr_compute_loss svd SKULL_MASK JAW_MASK SURFACE_MASK inr
        (p1 ++ p :: p2) (t1 ++ t :: t2) (m1 ++ m :: m2) (j1 ++ j' :: j2)
      = Ok (Some v') ->
      v - v' = w_deformation inr
               * ((def_residual svd j - def_residual svd j')
                  / INR (S (length j1 + length j2)))) /\
  (forall (j' : mat3) (v v' : R),
      m <> FIXED_MASK ->
      sim_compute_loss svd FIXED_MASK sim
        (p1 ++ p :: p2) (t1 ++ t :: t2) (m1 ++ m :: m2) (j1 ++ j :: j2)
        (a1 ++ a :: a2)
      = Ok (Some v) ->
      sim_compute_loss svd FIXED_MASK sim
        (p1 ++ p :: p2) (t1 ++ t :: t2) (m1 ++ m :: m2) (j1 ++ j' :: j2)
        (a1 ++ a :: a2)
      = Ok (Some v') ->
      v - v' = w_energy sim
               * ((energy_residual svd j a - energy_residual svd j' a)
                  / INR (S (length j1 + length j2)))).
Proof.
  intros Hp Ht Hj1 Hj2.
  assert (Hn : INR (S (length j1 + length j2)) <> 0)
    by (apply not_0_INR; discriminate).
  assert (Hsurf : forall j0, m <> FLAME_MASK -> m <> BOUNDARY_MASK ->
            surface_compute_loss svd FLAME_MASK BOUNDARY_MASK surface
              (p1 ++ p :: p2) (t1 ++ t :: t2) (m1 ++ m :: m2) (j1 ++ j0 :: j2)
            = do reg <- surface_regression_loss FLAME_MASK BOUNDARY_MASK surface
                          (p1 ++ p2) (t1 ++ t2) (m1 ++ m2);
              Ok (xadd reg
                    (xmul (Some ((tsum (map (def_residual svd) j1)
                                  + def_residual svd j0
                                  + tsum (map (def_residual svd) j2))
                                 / INR (S (length j1 + length j2))))
                          (Some (s_w_deformation surface))))).
  { intros j0 Hf Hb. rewrite surface_loss_regression_and_regularizer.
    rewrite surface_regression_drop_unmatched by assumption.
    now rewrite deformation_loss_insert. }
  assert (Hinr : forall j0, m <> SKULL_MASK -> m <> JAW_MASK -> m <> SURFACE_MASK ->
            inr_compute_loss svd SKULL_MASK JAW_MASK SURFACE_MASK inr
              (p1 ++ p :: p2) (t1 ++ t :: t2) (m1 ++ m :: m2) (j1 ++ j0 :: j2)
            = do reg <- inr_regression_loss svd SKULL_MASK JAW_MASK SURFACE_MASK inr
                          (p1 ++ p2) (t1 ++ t2) (m1 ++ m2);
              Ok (xadd reg
                    (xmul (Some ((tsum (map (def_residual svd) j1)
                                  + def_residual svd j0
                                  + tsum (map (def_residual svd) j2))
                                 / INR (S (length j1 + length j2))))
                          (Some (w_deformation inr))))).
  { intros j0 Hs Hjw Hsf. rewrite inr_loss_regression_and_regularizer.
    rewrite inr_regression_drop_unmatched by assumption.
    now rewrite deformation_loss_insert. }
  assert (Hsim : forall j0, m <> FIXED_MASK ->
            sim_compute_loss svd FIXED_MASK sim
              (p1 ++ p :: p2) (t1 ++ t :: t2) (m1 ++ m :: m2) (j1 ++ j0 :: j2)
              (a1 ++ a :: a2)
            = do reg <- sim_fixed_loss FIXED_MASK sim
                          (p1 ++ p2) (t1 ++ t2) (m1 ++ m2);
              Ok (xadd reg
                    (xmul (Some ((tsum (map2 (energy_residual svd) j1 a1)
                                  + energy_residual svd j0 a
                                  + tsum (map2 (energy_residual svd) j2 a2))
                                 / INR (S (length j1 + length j2))))
                          (Some (w_energy sim))))).
  { intros j0 Hf.
    rewrite (sim_loss_regression_and_regularizer sim _ _ _ _ _ _
               (energy_loss_insert j1 j2 a1 a2 j0 a Hj1 Hj2)).
    now rewrite sim_fixed_drop_unmatched by assumption. }
  split; [apply Hsurf|]. split; [apply Hinr|]. split; [apply Hsim|].
  split; [|split].
  - intros j' v v' Hf Hb Hv Hv'.
    rewrite Hsurf in Hv, Hv' by assumption.
    rewrite (regularizer_difference _ _ _ _ _ _ Hv Hv'). field. exact Hn.
  - intros j' v v' Hs Hjw Hsf Hv Hv'.
    rewrite Hinr in Hv, Hv' by assumption.
    rewrite (regularizer_difference _ _ _ _ _ _ Hv Hv'). field. exact Hn.
  - intros j' v v' Hf Hv Hv'.
    rewrite Hsim in Hv, Hv' by assumption.
    rewrite (regularizer_difference _ _ _ _ _ _ Hv Hv'). field. exact Hn.
Qed.

End UnmatchedSamples.

(** ** Fourier encoding *)

Lemma frequencies_length (F : nat) : length (frequencies F) = F.
Proof. unfold frequencies. now rewrite length_map, length_seq. Qed.

Lemma frequencies_nth (F k : nat) :
  (k < F)%nat -> nth_error (frequencies F) k = Some (PI * 2 ^ k).
Proof.
  intros H. unfold frequencies.
  rewrite nth_error_map, nth_error_seq.
  destruct (Nat.ltb_spec k F); [reflexivity | lia].
Qed.

Lemma encode_scalar_length (F : nat) (x : R) :
  length (encode_scalar F x) = (2 * F)%nat.
Proof.
  unfold encode_scalar. rewrite length_app, !length_map, frequencies_length. lia.
Qed.

Lemma encode_scalar_sin (F k : nat) (x : R) :
  (k < F)%nat -> nth_error (encode_scalar F x) k = Some (sin (2 ^ k * PI * x)).
Proof.
  intros H. unfold encode_scalar.
  rewrite nth_error_app1 by (rewrite !length_map, frequencies_length; exact H).
  rewrite !nth_error_map, frequencies_nth by exact H. simpl.
  do 2 f_equal. ring.
Qed.

Lemma encode_scalar_cos (F k : nat) (x : R) :
  (k < F)%nat -> nth_error (encode_scalar F x) (F + k) = Some (cos (2 ^ k * PI * x)).
Proof.
  intros H. unfold encode_scalar.
  rewrite nth_error_app2 by (rewrite !length_map, frequencies_length; lia).
  rewrite !length_map, frequencies_length.
  replace (F + k - F)%nat with k by lia.
  rewrite !nth_error_map, frequencies_nth by exact H. simpl.
  do 2 f_equal. ring.
Qed.

(** Position [d * L + i] of a concatenation of blocks of length [L]. *)
Lemma nth_error_concat_blocks {A B : Type} (f : A -> list B) (L : nat)
  (row : list A) (d i : nat) (a : A) :
  (forall y, length (f y) = L) ->
  nth_error row d = Some a -> (i < L)%nat ->
  nth_error (concat (map f row)) (d * L + i) = nth_error (f a) i.
Proof.
  intros HL. revert d. induction row as [|y row IH]; intros d Hd Hi.
  - destruct d; discriminate.
  - destruct d as [|d]; simpl in Hd |- *.
    + injection Hd as ->. apply nth_error_app1. now rewrite HL.
    + rewrite nth_error_app2 by (rewrite HL; lia).
      rewrite HL. replace (L + d * L + i - L)%nat with (d * L + i)%nat by lia.
      now apply IH.
Qed.

Lemma concat_blocks_length {A B : Type} (f : A -> list B) (L : nat) (row : list A) :
  (forall y, length (f y) = L) ->
  length (concat (map f row)) = (length row * L)%nat.
Proof.
  intros HL. induction row as [|y row IH]; simpl; [reflexivity|].
  rewrite length_app, HL, IH. reflexivity.
Qed.

(** C8.  With Fourier encoding enabled, every row of a batch is turned
    into a feature vector of width [D * 2 * fourier_features] for a row of
    [D] scalars, hence of the width [input_size * 2 * fourier_features]
    that the first linear layer takes when [D = input_size]; the scalar at
    position [d] contributes [sin(2^k pi x)] and [cos(2^k pi x)] for each
    [k < fourier_features], all of them laid out in the block of that
    scalar. *)
Theorem fourier_encoding_width_and_values (self : BaseModel) (x : coordinates) :
  with_fourier self = true ->
  let F := fourier_features self in
  hd Sin (layers self) = Linear (input_size self * 2 * F) (hidden_size self) /\
  forall n row, nth_error (as_batch x) n = Some row ->
    exists rows enc,
      forward_input self x = Ok rows /\ length rows = length (as_batch x) /\
      nth_error rows n = Some enc /\
      length enc = (length row * 2 * F)%nat /\
      (length row = input_size self -> accepts (hd Sin (layers self)) enc = true) /\
      forall d xd k, nth_error row d = Some xd -> (k < F)%nat ->
        nth_error enc (d * (2 * F) + k) = Some (sin (2 ^ k * PI * xd)) /\
        nth_error enc (d * (2 * F) + F + k) = Some (cos (2 ^ k * PI * xd)).
Proof.
  intros Hf F.
  assert (Hhd : hd Sin (layers self)
                = Linear (input_size self * 2 * F) (hidden_size self)).
  { unfold layers. rewrite Hf. reflexivity. }
  split; [exact Hhd|].
  intros n row Hn.
  unfold forward_input, fourier_encode. rewrite Hf.
  destruct (as_batch x) as [|r0 x'] eqn:Ex; [destruct n; discriminate|].
  eexists. exists (concat (map (encode_scalar F) row)).
  split; [reflexivity|]. split; [apply length_map|].
  split; [now rewrite nth_error_map, Hn|].
  assert (Hlen : length (concat (map (encode_scalar F) row))
                 = (length row * 2 * F)%nat).
  { rewrite (concat_blocks_length _ (2 * F)) by apply encode_scalar_length. lia. }
  split; [exact Hlen|]. split.
  - intros HD. rewrite Hhd. cbn [accepts]. rewrite Hlen, HD. apply Nat.eqb_refl.
  - intros d xd k Hd Hk. split.
    + rewrite (nth_error_concat_blocks _ (2 * F) row d k xd)
        by (auto using encode_scalar_length; lia).
      now apply encode_scalar_sin.
    + rewrite <- Nat.add_assoc.
      rewrite (nth_error_concat_blocks _ (2 * F) row d (F + k) xd)
        by (auto using encode_scalar_length; lia).
      now apply encode_scalar_cos.
Qed.

(** One coordinate through the default architecture: 60 features. *)
Lemma fourier_encoding_width_and_values_witness :
  exists rows enc,
    forward_input (Build_BaseModel 3 3 3 32 false true 10) (Single [0; 0; 0])
    = Ok rows
    /\ nth_error rows 0 = Some enc /\ length enc = 60%nat.
Proof.
  destruct (fourier_encoding_width_and_values
              (Build_BaseModel 3 3 3 32 false true 10) (Single [0; 0; 0])
              eq_refl) as [_ H].
  destruct (H 0%nat [0; 0; 0] eq_refl) as (rows & enc & Hrows & _ & Hn & Hlen & _).
  exists rows, enc. repeat split; assumption.
Defined.

(** ** The epoch loop *)

Lemma slice_length {A : Type} (l : list A) (s e : nat) :
  length (slice l s e) = Nat.min (e - s) (length l - s).
Proof. unfold slice. now rewrite length_firstn, length_skipn. Qed.

Lemma firstn_plus {A : Type} (a b : nat) (l : list A) :
  firstn (a + b) l = firstn a l ++ firstn b (skipn a l).
Proof.
  revert l; induction a as [|a IH]; intros l; [reflexivity|].
  destruct l as [|x l]; simpl.
  - now rewrite firstn_nil.
  - now rewrite IH.
Qed.

(** Consecutive slices of width [B] add up to a prefix. *)
Lemma concat_slices {A : Type} (l : list A) (B n : nat) :
  concat (map (fun i => slice l (i * B) ((i + 1) * B)) (seq 0 n))
  = firstn (n * B) l.
Proof.
  induction n as [|n IH]; [reflexivity|].
  rewrite seq_S, map_app, concat_app, IH. cbn [map concat Nat.add].
  rewrite app_nil_r. unfold slice.
  replace ((n + 1) * B - n * B)%nat with B by lia.
  replace (S n * B)%nat with (n * B + B)%nat by lia.
  now rewrite firstn_plus.
Qed.

Lemma full_slice_length {A : Type} (l : list A) (B i : nat) :
  ((i + 1) * B <= length l)%nat ->
  length (slice l (i * B) ((i + 1) * B)) = B.
Proof. intros H. rewrite slice_length. lia. Qed.

Lemma div_mul_le (L B : nat) : (L / B * B <= L)%nat.
Proof.
  destruct B as [|B]; [simpl; lia|].
  rewrite Nat.mul_comm. apply Nat.Div0.mul_div_le.
Qed.

Section EpochLoop.

Context {D B : Type} {DL : DatasetLike D B}.
Variable Model : Type.
Variable prepare_for_epoch : D -> D.
Variable process_batch : Model -> B -> py xR.
Variable optimizer_step : Model -> B -> Model.

(** The loop runs the body once on each visited batch, in order. *)
Lemma train_loop_visited (self : Model) (dataset : D) (batch_size : nat) :
  train_loop Model prepare_for_epoch process_batch optimizer_step
             self dataset batch_size
  = do bs <- visited_batches prepare_for_epoch dataset batch_size;
    fold_left (batch_step Model process_batch optimizer_step) bs
              (Ok {| acc_model := self; total_loss := Some 0; total_samples := 0 |}).
Proof.
  unfold train_loop, visited_batches.
  destruct (num_batches dataset batch_size) as [n|e]; [|reflexivity].
  cbn [py_bind]. generalize (seq 0 n) as l.
  generalize (Ok {| acc_model := self; total_loss := Some 0; total_samples := 0 |}).
  intros st l; revert st.
  induction l as [|i l IH]; intros st; [reflexivity|]. simpl. apply IH.
Qed.

End EpochLoop.

Lemma slices_cover_prefix {A : Type} (l : list A) (B n : nat) :
  (0 < B)%nat -> (B <= length l)%nat -> n = Nat.max (length l / B) 1 ->
  n = (length l / B)%nat /\
  covers_prefix l B (map (fun i => slice l (i * B) ((i + 1) * B)) (seq 0 n)).
Proof.
  intros HB HL Hn.
  assert (1 <= length l / B)%nat by (apply Nat.div_le_lower_bound; lia).
  assert (Hn' : n = (length l / B)%nat) by lia.
  split; [exact Hn'|]. unfold covers_prefix. repeat split.
  - apply Forall_map, Forall_forall. intros i Hi. apply in_seq in Hi.
    apply full_slice_length. pose proof (div_mul_le (length l) B). nia.
  - rewrite concat_slices. now rewrite Hn'.
  - rewrite length_skipn. pose proof (Nat.div_mod_eq (length l) B). lia.
Qed.

Lemma short_slice_small_dataset {A : Type} (l : list A) (B i : nat) :
  (0 < B)%nat -> (i < Nat.max (length l / B) 1)%nat ->
  (length (slice l (i * B) ((i + 1) * B)) < B)%nat -> (length l < B)%nat.
Proof.
  intros HB Hi Hlt.
  destruct (Nat.lt_ge_cases (length l) B) as [Hs|HL]; [exact Hs|].
  assert (1 <= length l / B)%nat by (apply Nat.div_le_lower_bound; lia).
  rewrite full_slice_length in Hlt; [lia|].
  pose proof (div_mul_le (length l) B). nia.
Qed.

(** C10.  When the dataset holds at least [batch_size] samples and
    preparing it for the epoch keeps its length [L], the loop visits
    [L // batch_size] batches of exactly [batch_size] rows each; together
    they are the first [(L // batch_size) * batch_size] samples of the
    prepared dataset, so that its last [L mod batch_size] samples are in no
    batch.  A batch with fewer than [batch_size] rows is visited only when
    [L < batch_size].  This holds for the three-array datasets of the
    surface and full-head modes and for the four-array dataset of the
    simulator. *)
Theorem batches_are_full_and_skip_the_tail (batch_size : nat) :
  (0 < batch_size)%nat ->
  (forall (prepare_for_epoch : INRDataset -> INRDataset) (dataset : INRDataset),
      let dataset' := prepare_for_epoch dataset in
      let L := ds_len dataset in
      length (inr_inputs dataset') = L ->
      length (inr_mask dataset') = L ->
      length (inr_target dataset') = L ->
      exists bs : list batch3,
        visited_batches prepare_for_epoch dataset batch_size = Ok bs /\
        ((batch_size <= L)%nat ->
         length bs = (L / batch_size)%nat /\
         Forall (fun b => batch_rows b = batch_size) bs /\
         covers_prefix (inr_inputs dataset') batch_size
                       (map (fun b : batch3 => fst (fst b)) bs) /\
         covers_prefix (inr_mask dataset') batch_size
                       (map (fun b : batch3 => snd (fst b)) bs) /\
         covers_prefix (inr_target dataset') batch_size
                       (map (fun b : batch3 => snd b) bs)) /\
        (forall b, In b bs -> (batch_rows b < batch_size)%nat ->
                   (L < batch_size)%nat)) /\
  (forall (prepare_for_epoch : SimulatorDataset -> SimulatorDataset)
          (dataset : SimulatorDataset),
      let dataset' := prepare_for_epoch dataset in
      let L := ds_len dataset in
      length (sim_inputs dataset') = L ->
      length (sim_mask dataset') = L ->
      length (sim_target dataset') = L ->
      length (sim_actuations dataset') = L ->
      exists bs : list batch4,
        visited_batches prepare_for_epoch dataset batch_size = Ok bs /\
        ((batch_size <= L)%nat ->
         length bs = (L / batch_size)%nat /\
         Forall (fun b => batch_rows b = batch_size) bs /\
         covers_prefix (sim_inputs dataset') batch_size
                       (map (fun b : batch4 => fst (fst (fst b))) bs) /\
         covers_prefix (sim_mask dataset') batch_size
                       (map (fun b : batch4 => snd (fst (fst b))) bs) /\
         covers_prefix (sim_target dataset') batch_size
                       (map (fun b : batch4 => snd (fst b)) bs) /\
         covers_prefix (sim_actuations dataset') batch_size
                       (map (fun b : batch4 => snd b) bs)) /\
        (forall b, In b bs -> (batch_rows b < batch_size)%nat ->
                   (L < batch_size)%nat)).
Proof.
  intros HB. destruct batch_size as [|k]; [lia|]. set (Bs := S k) in *. split.
  - intros prep dataset dataset' L Hi Hm Ht.
    unfold visited_batches, num_batches. fold Bs. cbn [py_bind]. fold dataset' L.
    set (n := Nat.max (L / Bs) 1).
    eexists; split; [reflexivity|]. split.
    + intros HL.
      destruct (slices_cover_prefix (inr_inputs dataset') Bs n HB)
        as [Hn Hci]; [lia | now rewrite Hi |].
      destruct (slices_cover_prefix (inr_mask dataset') Bs n HB)
        as [_ Hcm]; [lia | now rewrite Hm |].
      destruct (slices_cover_prefix (inr_target dataset') Bs n HB)
        as [_ Hct]; [lia | now rewrite Ht |].
      rewrite Hi in Hn. rewrite length_map, length_seq, !map_map.
      split; [exact Hn|]. split; [|split; [exact Hci | split; [exact Hcm | exact Hct]]].
      apply Forall_map. destruct Hci as [Hrows _].
      rewrite Forall_map in Hrows. exact Hrows.
    + intros b Hb Hlt. apply in_map_iff in Hb. destruct Hb as (i & <- & Hin).
      apply in_seq in Hin. rewrite <- Hi.
      apply (short_slice_small_dataset _ Bs i HB); [rewrite Hi; fold n; lia|].
      exact Hlt.
  - intros prep dataset dataset' L Hi Hm Ht Ha.
    unfold visited_batches, num_batches. fold Bs. cbn [py_bind]. fold dataset' L.
    set (n := Nat.max (L / Bs) 1).
    eexists; split; [reflexivity|]. split.
    + intros HL.
      destruct (slices_cover_prefix (sim_inputs dataset') Bs n HB)
        as [Hn Hci]; [lia | now rewrite Hi |].
      destruct (slices_cover_prefix (sim_mask dataset') Bs n HB)
        as [_ Hcm]; [lia | now rewrite Hm |].
      destruct (slices_cover_prefix (sim_target dataset') Bs n HB)
        as [_ Hct]; [lia | now rewrite Ht |].
      destruct (slices_cover_prefix (sim_actuations dataset') Bs n HB)
        as [_ Hca]; [lia | now rewrite Ha |].
      rewrite Hi in Hn. rewrite length_map, length_seq, !map_map.
      split; [exact Hn|].
      split; [|split; [exact Hci | split; [exact Hcm | split; [exact Hct | exact Hca]]]].
      apply Forall_map. destruct Hci as [Hrows _].
      rewrite Forall_map in Hrows. exact Hrows.
    + intros b Hb Hlt. apply in_map_iff in Hb. destruct Hb as (i & <- & Hin).
      apply in_seq in Hin. rewrite <- Hi.
      apply (short_slice_small_dataset _ Bs i HB); [rewrite Hi; fold n; lia|].
      exact Hlt.
Qed.

(** Four samples in batches of three: one full batch, one sample left. *)
Lemma batches_are_full_and_skip_the_tail_witness :
  exists bs : list batch3,
    visited_batches (fun d => d) four_samples 3 = Ok bs
    /\ Forall (fun b => batch_rows b = 3%nat) bs
    /\ covers_prefix (inr_inputs four_samples) 3
                     (map (fun b : batch3 => fst (fst b)) bs).
Proof.
  destruct (batches_are_full_and_skip_the_tail 3 ltac:(lia)) as [Hinr _].
  destruct (Hinr (fun d => d) four_samples eq_refl eq_refl eq_refl)
    as (bs & Hv & Hfull & _).
  exists bs. split; [exact Hv|].
  destruct Hfull as (_ & Hrows & Hcov & _); [simpl; lia|].
  split; [exact Hrows | exact Hcov].
Defined.

(** ** What the accumulators of the epoch loop hold *)

Section EpochAccumulators.

Context {D B : Type} {DL : DatasetLike D B}.
Variable Model : Type.
Variable prepare_for_epoch : D -> D.
Variable process_batch : Model -> B -> py xR.
Variable optimizer_step : Model -> B -> Model.

(** Every batch has the same [len]: the number of arrays in the tuple. *)
Variable c : nat.
Hypothesis batch_len_const : forall b : B, batch_len b = c.

Lemma weighted_sum_from (ls : list xR) (t0 : R) :
  fold_left (fun acc l => xadd acc (xmul l (Some (INR c)))) ls (Some t0)
  = xbind (xsum ls) (fun s => Some (t0 + s * INR c)).
Proof.
  revert t0. induction ls as [|l ls IH]; intros t0.
  - simpl. f_equal. ring.
  - cbn [fold_left xsum fold_right]. destruct l as [x|].
    + cbn [xmul xadd xbind]. rewrite IH. fold (xsum ls).
      destruct (xsum ls) as [s|]; cbn [xbind]; [f_equal; ring | reflexivity].
    + cbn [xmul xadd xbind].
      clear IH. induction ls as [|l' ls IH']; [reflexivity|].
      cbn [fold_left]. exact IH'.
Qed.

Lemma fold_batch_step (bs : list B) (a0 : accumulators Model) (ls : list xR) :
  batch_losses Model process_batch optimizer_step (acc_model Model a0) bs = Ok ls ->
  exists m',
    fold_left (batch_step Model process_batch optimizer_step) bs (Ok a0)
    = Ok {| acc_model := m';
            total_loss :=
              fold_left (fun acc l => xadd acc (xmul l (Some (INR c)))) ls
                        (total_loss Model a0);
            total_samples := (total_samples Model a0 + c * length bs)%nat |}.
Proof.
  revert a0 ls. induction bs as [|b bs IH]; intros a0 ls Hls.
  - injection Hls as <-. exists (acc_model Model a0).
    cbn [fold_left length]. rewrite Nat.mul_0_r, Nat.add_0_r.
    now destruct a0.
  - cbn [batch_losses] in Hls.
    destruct (process_batch (acc_model Model a0) b) as [l|e] eqn:El;
      [|discriminate].
    cbn [py_bind] in Hls.
    destruct (batch_losses Model process_batch optimizer_step
                (optimizer_step (acc_model Model a0) b) bs) as [ls'|e] eqn:Els;
      [|discriminate].
    injection Hls as <-.
    cbn [fold_left]. unfold batch_step at 2. cbn [py_bind]. rewrite El.
    cbn [py_bind]. rewrite batch_len_const.
    destruct (IH {| acc_model := optimizer_step (acc_model Model a0) b;
                    total_samples := (total_samples Model a0 + c)%nat;
                    total_loss := xadd (total_loss Model a0)
                                       (xmul l (Some (INR c))) |}
                 ls' Els) as [m' Hm'].
    exists m'. rewrite Hm'.
    cbn [total_loss total_samples fold_left length]. do 2 f_equal. lia.
Qed.

(** When no batch makes [process_batch] raise, the loop ends with
    [total_samples = c * (number of batches)] and the accumulated loss
    [c * (sum of the batch losses)]; the quotient is the plain mean of the
    batch losses. *)
Lemma train_epoch_mean_of_batch_losses
  (self : Model) (dataset : D) (batch_size : nat) (bs : list B) (ls : list xR) :
  (0 < c)%nat ->
  visited_batches prepare_for_epoch dataset batch_size = Ok bs ->
  batch_losses Model process_batch optimizer_step self bs = Ok ls ->
  (exists m',
      train_loop Model prepare_for_epoch process_batch optimizer_step
                 self dataset batch_size
      = Ok {| acc_model := m';
              total_loss := xbind (xsum ls) (fun s => Some (0 + s * INR c));
              total_samples := (0 + c * length bs)%nat |}) /\
  train_epoch Model prepare_for_epoch process_batch optimizer_step
              self dataset batch_size
  = Ok (xbind (xsum ls) (fun s => Some (s / INR (length bs)))).
Proof.
  intros Hc Hbs Hls.
  assert (Hnb : bs <> []).
  { unfold visited_batches, num_batches in Hbs.
    destruct batch_size as [|k]; [discriminate|]. unfold py_bind in Hbs.
    injection Hbs as <-. intros Hnil.
    apply (f_equal (@length B)) in Hnil.
    rewrite length_map, length_seq in Hnil. cbn [length] in Hnil. lia. }
  destruct (fold_batch_step bs
              {| acc_model := self; total_loss := Some 0; total_samples := 0 |}
              ls Hls) as [m' Hm'].
  cbn [total_loss total_samples] in Hm'. rewrite weighted_sum_from in Hm'.
  assert (Hloop : train_loop Model prepare_for_epoch process_batch optimizer_step
                             self dataset batch_size
                  = Ok {| acc_model := m';
                          total_loss := xbind (xsum ls) (fun s => Some (0 + s * INR c));
                          total_samples := (0 + c * length bs)%nat |}).
  { rewrite train_loop_visited, Hbs. cbn [py_bind]. exact Hm'. }
  split; [exists m'; exact Hloop|].
  unfold train_epoch. rewrite Hloop. cbn [py_bind total_loss total_samples].
  unfold float_div_int.
  destruct (0 + c * length bs)%nat as [|n] eqn:En.
  - destruct bs; [contradiction | simpl in En; lia].
  - f_equal. destruct (xsum ls) as [s|]; [|reflexivity]. cbn [xbind]. f_equal.
    rewrite <- En. cbn [Nat.add]. rewrite mult_INR.
    assert (INR c <> 0) by (apply not_0_INR; lia).
    assert (INR (length bs) <> 0).
    { apply not_0_INR. destruct bs; [contradiction | discriminate]. }
    field. split; assumption.
Qed.

End EpochAccumulators.

(** C3.  On four samples in batches of two, the loop visits the two
    slices [0:2] and [2:4], of two rows each, yet adds [len(batch)] -- the
    three components of the tuple [(inputs, mask, target)] -- to
    [total_samples] and [loss * 3] to [total_loss] at each turn: the
    accumulators end at 12 and 6 where the sample-weighted sums are 8 and
    4.  The value returned, 12 / 6, is the mean loss 2 all the same (see
    [train_epoch_mean_of_batch_losses]). *)
Theorem train_epoch_counts_tuple_components :
  visited_batches (fun d => d) four_samples 2
  = Ok [([V3 1 0 0; V3 1 0 0], [0%Z; 0%Z], [V3 1 0 0; V3 1 0 0]);
        ([V3 3 0 0; V3 3 0 0], [2%Z; 2%Z], [V3 3 0 0; V3 3 0 0])]
  /\ list_sum
       (map (fun b : batch3 => batch_rows b)
            [([V3 1 0 0; V3 1 0 0], [0%Z; 0%Z], [V3 1 0 0; V3 1 0 0]);
             ([V3 3 0 0; V3 3 0 0], [2%Z; 2%Z], [V3 3 0 0; V3 3 0 0])])
     = 4%nat
  /\ train_loop unit (fun d => d) first_coordinate_loss keep_model tt four_samples 2
     = Ok {| acc_model := tt; total_loss := Some 12; total_samples := 6 |}
  /\ train_epoch unit (fun d => d) first_coordinate_loss keep_model tt four_samples 2
     = Ok (Some 2).
Proof.
  split; [reflexivity|]. split; [reflexivity|].
  assert (Hloop :
            train_loop unit (fun d => d) first_coordinate_loss keep_model tt
                       four_samples 2
            = Ok {| acc_model := tt; total_loss := Some 12; total_samples := 6 |}).
  { unfold train_loop. cbn. do 2 f_equal. f_equal. lra. }
  split; [exact Hloop|].
  unfold train_epoch. rewrite Hloop. cbn. do 2 f_equal. lra.
Qed.

(** ** The rotation built from the factors is the best one *)

Lemma trace_mmul_comm (A B : mat3) : trace (mmul A B) = trace (mmul B A).
Proof. unfold trace; simpl; ring. Qed.

Lemma trace_mmul_diag (P : mat3) (s : vec3) :
  trace (mmul P (diag s)) = vx s * m00 P + vy s * m11 P + vz s * m22 P.
Proof. unfold trace; simpl; ring. Qed.

Lemma frob2_trace (A : mat3) : frob2 A = trace (mmul (mT A) A).
Proof. unfold frob2, trace; simpl; ring. Qed.

Lemma frob2_msub (A B : mat3) :
  frob2 (msub A B) = frob2 A - 2 * trace (mmul (mT B) A) + frob2 B.
Proof. unfold frob2, trace; simpl; ring. Qed.

Lemma frob2_nonneg (A : mat3) : 0 <= frob2 A.
Proof.
  unfold frob2.
  pose proof (Rle_0_sqr (m00 A)). pose proof (Rle_0_sqr (m01 A)).
  pose proof (Rle_0_sqr (m02 A)). pose proof (Rle_0_sqr (m10 A)).
  pose proof (Rle_0_sqr (m11 A)). pose proof (Rle_0_sqr (m12 A)).
  pose proof (Rle_0_sqr (m20 A)). pose proof (Rle_0_sqr (m21 A)).
  pose proof (Rle_0_sqr (m22 A)). unfold Rsqr in *. lra.
Qed.

Lemma frob2_orthogonal (Q : mat3) : orthogonal Q -> frob2 Q = 3.
Proof.
  intros [H _]. rewrite frob2_trace, H. unfold trace; simpl; ring.
Qed.

Lemma orthogonal_cancel_l (U A : mat3) :
  orthogonal U -> mmul (mT U) (mmul U A) = A.
Proof. intros [H _]. now rewrite mmul_assoc, H, mmul_eye_l. Qed.

(** The entries of an orthogonal matrix, as polynomial equations. *)
Lemma orthogonal_equations (a b c d e f g h i : R) :
  orthogonal (M3 a b c d e f g h i) ->
  (a * a + d * d + g * g = 1 /\ a * b + d * e + g * h = 0 /\
   a * c + d * f + g * i = 0 /\ b * b + e * e + h * h = 1 /\
   b * c + e * f + h * i = 0 /\ c * c + f * f + i * i = 1) /\
  (a * a + b * b + c * c = 1 /\ d * d + e * e + f * f = 1 /\
   g * g + h * h + i * i = 1).
Proof.
  intros [H1 H2]. unfold mmul, mT, eye in H1, H2. simpl in H1, H2.
  injection H1 as ? ? ? ? ? ? ? ? ?. injection H2 as ? ? ? ? ? ? ? ? ?.
  repeat split; assumption.
Qed.

(** An orthogonal matrix of determinant -1 has trace at most 1:
    [4 (1 - tr P)] is a sum of four squares. *)
Lemma reflection_trace_le (P : mat3) :
  orthogonal P -> det P = -1 -> trace P <= 1.
Proof.
  destruct P as [a b c d e f g h i]. intros HP Hd.
  apply orthogonal_equations in HP.
  destruct HP as [(c00 & c01 & c02 & c11 & c12 & c22) (r00 & r11 & r22)].
  unfold det, trace in *. simpl in *.
  assert (Hid : 4 * (1 - (a + e + i))
                = (1 - (a + e + i)) * (1 - (a + e + i))
                  + (b - d) * (b - d) + (c - g) * (c - g) + (f - h) * (f - h))
    by nsatz.
  pose proof (Rle_0_sqr (1 - (a + e + i))) as Q1.
  pose proof (Rle_0_sqr (b - d)) as Q2.
  pose proof (Rle_0_sqr (c - g)) as Q3.
  pose proof (Rle_0_sqr (f - h)) as Q4.
  unfold Rsqr in *. lra.
Qed.

Lemma orthogonal_diag_le (P : mat3) :
  orthogonal P -> m00 P <= 1 /\ m11 P <= 1 /\ m22 P <= 1.
Proof.
  destruct P as [a b c d e f g h i]. intros HP.
  apply orthogonal_equations in HP.
  destruct HP as [_ (r00 & r11 & r22)]. simpl.
  repeat split; [clear - r00 | clear - r11 | clear - r22]; nra.
Qed.

(** Weighted diagonal of an orthogonal matrix against descending
    non-negative weights. *)
Lemma diag_trace_bound (P : mat3) (s : vec3) :
  orthogonal P ->
  0 <= vz s -> vz s <= vy s -> vy s <= vx s ->
  trace (mmul P (diag s)) <= vx s + vy s + det P * vz s.
Proof.
  intros HP H3 H2 H1. rewrite trace_mmul_diag.
  destruct (orthogonal_diag_le P HP) as (Ha & He & Hi).
  destruct s as [s1 s2 s3]; simpl in *.
  destruct (orthogonal_det P HP) as [Hd | Hd]; rewrite Hd.
  - assert (s1 * m00 P <= s1) by nra.
    assert (s2 * m11 P <= s2) by nra.
    assert (s3 * m22 P <= s3) by nra. lra.
  - pose proof (reflection_trace_le P HP Hd) as Ht. unfold trace in Ht.
    assert (E : s1 * m00 P + s2 * m11 P + s3 * m22 P
                = (s1 - s2) * m00 P + (s2 - s3) * (m00 P + m11 P)
                  + s3 * (m00 P + m11 P + m22 P)) by ring.
    rewrite E.
    assert ((s1 - s2) * m00 P <= s1 - s2) by nra.
    assert ((s2 - s3) * (m00 P + m11 P) <= (s2 - s3) * 2) by nra.
    assert (s3 * (m00 P + m11 P + m22 P) <= s3 * 1) by nra.
    lra.
Qed.

Lemma sign_det_UVt_eq (U V : mat3) :
  orthogonal U -> orthogonal V ->
  sign (det (mmul U (mT V))) = det U * det V.
Proof.
  intros HU HV. rewrite det_mmul, det_mT.
  destruct (orthogonal_det U HU) as [-> | ->],
           (orthogonal_det V HV) as [-> | ->].
  - replace (1 * 1) with 1 by ring. apply sign_pos; lra.
  - replace (1 * -1) with (-1) by ring. apply sign_neg; lra.
  - replace (-1 * 1) with (-1) by ring. apply sign_neg; lra.
  - replace (-1 * -1) with 1 by ring. apply sign_pos; lra.
Qed.

(** Among the proper rotations [Q], [V Z U^T] maximizes [trace(Q K)]. *)
Lemma VZUt_maximizes_trace (K U V Q : mat3) (s : vec3) :
  svd_ok K (U, s, V) -> proper_rotation Q ->
  let R := mmul V (mmul (Zfix (sign (det (mmul U (mT V))))) (mT U)) in
  trace (mmul R K) = vx s + vy s + det U * det V * vz s /\
  trace (mmul Q K) <= trace (mmul R K).
Proof.
  intros (HU & HV & (H3 & H2 & H1) & HK) [HQ HdQ] R.
  assert (HR : trace (mmul R K) = vx s + vy s + det U * det V * vz s).
  { unfold R. rewrite HK, (sign_det_UVt_eq U V HU HV).
    rewrite <- !mmul_assoc, (orthogonal_cancel_l U _ HU).
    rewrite trace_mmul_comm, <- !mmul_assoc.
    destruct HV as [HV1 _]. rewrite HV1.
    unfold trace; simpl; ring. }
  split; [exact HR|]. rewrite HR.
  set (P := mmul (mT V) (mmul Q U)).
  assert (HP : orthogonal P).
  { apply orthogonal_mmul; [now apply orthogonal_mT|].
    now apply orthogonal_mmul. }
  assert (HdP : det P = det U * det V).
  { unfold P. rewrite !det_mmul, det_mT, HdQ. ring. }
  assert (Htr : trace (mmul Q K) = trace (mmul P (diag s))).
  { rewrite HK. unfold P.
    rewrite (mmul_assoc Q U), (mmul_assoc (mmul Q U)).
    rewrite trace_mmul_comm. now rewrite mmul_assoc. }
  rewrite Htr, <- HdP. now apply diag_trace_bound.
Qed.

Lemma mT_UZVt (U V : mat3) (c : R) :
  mT (mmul U (mmul (Zfix c) (mT V))) = mmul V (mmul (Zfix c) (mT U)).
Proof. mat_ring. Qed.

Lemma proper_rotation_mT (Q : mat3) : proper_rotation Q -> proper_rotation (mT Q).
Proof.
  intros [HQ Hd]. split; [now apply orthogonal_mT | now rewrite det_mT].
Qed.

Lemma tmean_const (l : list R) (v : R) :
  l <> [] -> Forall (fun x => x = v) l -> tmean l = Some v.
Proof.
  intros Hne Hall. destruct l as [|x l]; [contradiction|].
  cbn [tmean]. f_equal.
  assert (Hs : forall l', Forall (fun x => x = v) l' ->
                          tsum l' = INR (length l') * v).
  { induction 1 as [|y l' Hy _ IH]; [simpl; ring|].
    change (tsum (y :: l')) with (y + tsum l'). cbn [length].
    rewrite IH, Hy, S_INR. ring. }
  rewrite (Hs _ Hall).
  assert (INR (length (x :: l)) <> 0) by (apply not_0_INR; discriminate).
  now field.
Qed.

Section NearestRotation.

Variable svd : mat3 -> mat3 * vec3 * mat3.

(** With a correct decomposition, no proper rotation is closer to [M] in
    Frobenius norm than [closest_rotation M]. *)
Lemma closest_rotation_nearest (M Q : mat3) :
  svd_ok M (svd M) -> proper_rotation Q ->
  def_residual svd M <= matrix_norm (msub M Q).
Proof.
  intros Hsvd HQ. unfold def_residual, matrix_norm. apply sqrt_le_1_alt.
  pose proof (closest_rotation_proper svd M) as HR.
  unfold closest_rotation, factors_orthogonal in *.
  destruct (svd M) as [[U s] V].
  assert (Ho : orthogonal U /\ orthogonal V) by (split; apply Hsvd).
  specialize (HR Ho). destruct HR as [HR _].
  rewrite !frob2_msub, (frob2_orthogonal _ HR), (frob2_orthogonal _ (proj1 HQ)).
  rewrite mT_UZVt.
  pose proof (VZUt_maximizes_trace M U V (mT Q) s Hsvd (proper_rotation_mT Q HQ))
    as [_ Hle].
  cbv zeta in Hle. lra.
Qed.

Lemma matrix_norm_self (M : mat3) : matrix_norm (msub M M) = 0.
Proof.
  unfold matrix_norm.
  replace (frob2 (msub M M)) with 0 by (unfold frob2; simpl; ring).
  apply sqrt_0.
Qed.

(** A proper rotation is its own closest rotation. *)
Lemma rotation_residual_zero (M : mat3) :
  svd_ok M (svd M) -> proper_rotation M -> def_residual svd M = 0.
Proof.
  intros Hsvd HM.
  pose proof (closest_rotation_nearest M M Hsvd HM) as Hle.
  rewrite matrix_norm_self in Hle.
  pose proof (sqrt_pos (frob2 (msub M (closest_rotation svd M)))) as Hge.
  unfold def_residual, matrix_norm in *. lra.
Qed.

(** The closest rotation to [c I], [c > 0], is at distance [|c - 1| sqrt 3]. *)
Lemma scaled_identity_residual (c : R) :
  svd_ok (mscale c eye) (svd (mscale c eye)) -> 0 < c ->
  def_residual svd (mscale c eye) = Rabs (c - 1) * sqrt 3.
Proof.
  intros Hsvd Hc.
  pose proof (closest_rotation_proper svd (mscale c eye)) as HR.
  unfold def_residual, matrix_norm, closest_rotation, factors_orthogonal in *.
  destruct (svd (mscale c eye)) as [[U s] V].
  assert (Ho : orthogonal U /\ orthogonal V) by (split; apply Hsvd).
  specialize (HR Ho). destruct HR as [HR _].
  set (R := mmul U (mmul (Zfix (sign (det (mmul U (mT V))))) (mT V))) in *.
  assert (Htr : trace R = 3).
  { pose proof (VZUt_maximizes_trace (mscale c eye) U V eye s Hsvd
                  (conj orthogonal_eye det_eye)) as [_ Hle].
    cbv zeta in Hle. rewrite <- mT_UZVt in Hle. fold R in Hle.
    assert (E1 : trace (mmul eye (mscale c eye)) = 3 * c)
      by (unfold trace; simpl; ring).
    assert (E2 : trace (mmul (mT R) (mscale c eye)) = c * trace R)
      by (unfold trace; simpl; ring).
    rewrite E1, E2 in Hle.
    destruct (orthogonal_diag_le R HR) as (Ha & He & Hi).
    unfold trace in *. nra. }
  rewrite frob2_msub, (frob2_orthogonal _ HR).
  replace (trace (mmul (mT R) (mscale c eye))) with (c * trace R)
    by (unfold trace; simpl; ring).
  replace (frob2 (mscale c eye)) with (3 * (c * c))
    by (unfold frob2; simpl; ring).
  rewrite Htr.
  replace (3 * (c * c) - 2 * (c * 3) + 3) with (Rsqr (c - 1) * 3)
    by (unfold Rsqr; ring).
  rewrite sqrt_mult by (try apply Rle_0_sqr; lra).
  now rewrite sqrt_Rsqr_abs.
Qed.

(** C6.  On a non-empty batch for which [th.svd] returns a correct
    decomposition of every matrix, [deformation_loss] returns 0 when all
    matrices are proper rotations, and [|c - 1| sqrt 3] when all of them
    are [c I] for a [c > 0]. *)
Theorem closest_rotation_idempotence (M : list mat3) :
  M <> [] ->
  Forall (fun m => svd_ok m (svd m)) M ->
  (Forall proper_rotation M -> deformation_loss svd M = Some 0) /\
  (forall c, 0 < c -> Forall (fun m => m = mscale c eye) M ->
             deformation_loss svd M = Some (Rabs (c - 1) * sqrt 3)).
Proof.
  intros Hne Hsvd. rewrite deformation_loss_per_sample. unfold rotation_residual.
  assert (Hne' : map (def_residual svd) M <> [])
    by (destruct M; [contradiction | discriminate]).
  split.
  - intros Hrot. apply tmean_const; [exact Hne'|].
    apply Forall_map. rewrite Forall_forall in *.
    intros m Hm. apply rotation_residual_zero; auto.
  - intros c Hc Hall. apply tmean_const; [exact Hne'|].
    apply Forall_map. rewrite Forall_forall in *.
    intros m Hm. pose proof (Hsvd m Hm) as Hs.
    rewrite (Hall m Hm) in *. now apply scaled_identity_residual.
Qed.

(** C2, in the form that holds.  For two batches of equal size and a correct
    [th.svd], [energy_loss] forms [M_i = J_i A_i], takes for each sample
    the proper rotation [R_i] nearest to [M_i], and returns the mean over
    the batch of the Frobenius distance between [J_i] and [R_i A_i]. *)
Theorem energy_loss_distance_to_rotated_actuation (jacobian actuations : list mat3) :
  length jacobian = length actuations ->
  Forall (fun m => svd_ok m (svd m)) (bmm jacobian actuations) ->
  energy_loss svd jacobian actuations
  = Ok (tmean (map2 (fun J A =>
                       matrix_norm (msub J (mmul (closest_rotation svd (mmul J A)) A)))
                    jacobian actuations)) /\
  Forall (fun m =>
            proper_rotation (closest_rotation svd m) /\
            forall Q, proper_rotation Q ->
                      matrix_norm (msub m (closest_rotation svd m))
                      <= matrix_norm (msub m Q))
         (bmm jacobian actuations).
Proof.
  intros Hlen Hsvd. split.
  - now apply energy_loss_per_sample.
  - rewrite Forall_forall in *. intros m Hm. pose proof (Hsvd m Hm) as Hs. split.
    + apply closest_rotation_proper. unfold svd_ok, factors_orthogonal in *.
      destruct (svd m) as [[U s] V]. split; apply Hs.
    + intros Q HQ. now apply closest_rotation_nearest.
Qed.

End NearestRotation.

(** ** Concrete instances *)

Lemma svd_diagonal_ok (a b c : R) :
  0 <= c -> c <= b -> b <= a ->
  svd_ok (diag (V3 a b c)) (svd_diagonal (diag (V3 a b c))).
Proof.
  intros H1 H2 H3. unfold svd_ok, svd_diagonal.
  split; [apply orthogonal_eye|]. split; [apply orthogonal_eye|].
  split; [simpl; lra | mat_ring].
Qed.

Lemma closest_rotation_svd_diagonal (M : mat3) :
  closest_rotation svd_diagonal M = eye.
Proof.
  unfold closest_rotation, svd_diagonal.
  replace (det (mmul eye (mT eye))) with 1 by (unfold det; simpl; ring).
  rewrite sign_pos by lra. mat_ring.
Qed.

Lemma mscale_eye_diag (c : R) : mscale c eye = diag (V3 c c c).
Proof. mat_ring. Qed.

(** The identity, and twice the identity, as one-sample batches. *)
Lemma closest_rotation_idempotence_witness :
  deformation_loss svd_diagonal [eye] = Some 0
  /\ deformation_loss svd_diagonal [mscale 2 eye] = Some (Rabs (2 - 1) * sqrt 3).
Proof.
  split.
  - apply (closest_rotation_idempotence svd_diagonal [eye]).
    + discriminate.
    + constructor; [|constructor].
      change eye with (diag (V3 1 1 1)). apply svd_diagonal_ok; lra.
    + constructor; [|constructor]. split; [apply orthogonal_eye | apply det_eye].
  - apply (closest_rotation_idempotence svd_diagonal [mscale 2 eye]).
    + discriminate.
    + constructor; [|constructor].
      rewrite mscale_eye_diag. apply svd_diagonal_ok; lra.
    + lra.
    + constructor; [reflexivity | constructor].
Defined.

(** A full-head batch of one sample whose tag 9 is none of 0, 1, 2 and
    whose Jacobian is twice the identity: the loss is the weight 1/50
    times the residual [sqrt 3] of that Jacobian. *)
Lemma unmatched_sample_reaches_only_regularizer_witness :
  inr_compute_loss svd_diagonal 0 1 2 (Build_INRModel (1/50) 1 2 10)
    [V3 1 2 3] [V3 4 5 6] [9%Z] [mscale 2 eye]
  = Ok (Some (Rabs (2 - 1) * sqrt 3 * (1/50))).
Proof.
  pose proof (unmatched_sample_reaches_only_regularizer svd_diagonal
                0 1 0 1 2 0
                (Build_SurfaceINRModel (1/50) 1 1) (Build_INRModel (1/50) 1 2 10)
                (Build_SimulatorModel (1/2) 2)
                [] [] [] [] (V3 1 2 3) (V3 4 5 6) [] [] 9 [] [] [] []
                (mscale 2 eye) eye
                eq_refl eq_refl eq_refl eq_refl)
    as (_ & Hinr & _).
  cbn [app] in Hinr. rewrite Hinr by discriminate.
  unfold inr_regression_loss, inr_surface_loss, inr_skull_loss.
  rewrite !l1_term_empty by reflexivity.
  rewrite inr_jaw_loss_small by (vm_compute; lia).
  cbn [py_bind xadd xmul xbind map tsum fold_right length Nat.add w_deformation].
  rewrite scaled_identity_residual
    by (try lra; rewrite mscale_eye_diag; apply svd_diagonal_ok; lra).
  do 2 f_equal. simpl INR. field.
Defined.

(** One Jacobian [2 I] with the actuation [3 I]. *)
Lemma energy_loss_distance_to_rotated_actuation_witness :
  energy_loss svd_diagonal [mscale 2 eye] [mscale 3 eye]
  = Ok (tmean [matrix_norm
                 (msub (mscale 2 eye)
                       (mmul (closest_rotation svd_diagonal
                                (mmul (mscale 2 eye) (mscale 3 eye)))
                             (mscale 3 eye)))]).
Proof.
  apply (energy_loss_distance_to_rotated_actuation svd_diagonal
           [mscale 2 eye] [mscale 3 eye]).
  - reflexivity.
  - constructor; [|constructor].
    replace (mmul (mscale 2 eye) (mscale 3 eye)) with (diag (V3 6 6 6))
      by mat_ring.
    apply svd_diagonal_ok; lra.
Defined.

(** Against C2 as it is worded.  For the Jacobian [2 I] and the actuation [3 I]
    the product is [6 I], whose decomposition [(I, (6, 6, 6), I)] is
    correct and whose closest rotation is [I]: the distance of the product
    to that rotation is [sqrt 75], while [energy_loss] returns the
    distance [sqrt 3] between [2 I] and [I (3 I)]. *)
Lemma energy_loss_is_not_distance_of_product :
  svd_ok (mmul (mscale 2 eye) (mscale 3 eye))
         (svd_diagonal (mmul (mscale 2 eye) (mscale 3 eye)))
  /\ rotation_residual svd_diagonal (bmm [mscale 2 eye] [mscale 3 eye])
     = Some (sqrt 75 / 1)
  /\ energy_loss svd_diagonal [mscale 2 eye] [mscale 3 eye] = Ok (Some (sqrt 3 / 1))
  /\ energy_loss svd_diagonal [mscale 2 eye] [mscale 3 eye]
     <> Ok (rotation_residual svd_diagonal (bmm [mscale 2 eye] [mscale 3 eye])).
Proof.
  assert (H75 : rotation_residual svd_diagonal (bmm [mscale 2 eye] [mscale 3 eye])
                = Some (sqrt 75 / 1)).
  { unfold rotation_residual, bmm, def_residual. cbn [map2 map tmean tsum fold_right length INR].
    rewrite closest_rotation_svd_diagonal. unfold matrix_norm.
    replace (frob2 (msub (mmul (mscale 2 eye) (mscale 3 eye)) eye)) with 75
      by (unfold frob2; simpl; ring).
    do 2 f_equal. ring. }
  assert (H3 : energy_loss svd_diagonal [mscale 2 eye] [mscale 3 eye]
               = Ok (Some (sqrt 3 / 1))).
  { rewrite (energy_loss_per_sample svd_diagonal) by reflexivity.
    unfold energy_residual. cbn [map2 map tmean tsum fold_right length INR].
    rewrite closest_rotation_svd_diagonal. unfold matrix_norm.
    replace (frob2 (msub (mscale 2 eye) (mmul eye (mscale 3 eye)))) with 3
      by (unfold frob2; simpl; ring).
    do 3 f_equal. ring. }
  split; [|split; [exact H75 | split; [exact H3|]]].
  - replace (mmul (mscale 2 eye) (mscale 3 eye)) with (diag (V3 6 6 6))
      by mat_ring.
    apply svd_diagonal_ok; lra.
  - rewrite H75, H3. intros [= E].
    assert (E' : sqrt 3 = sqrt 75) by lra.
    apply sqrt_inj in E'; lra.
Qed.

(** ** Aligning a point set with its similar copy *)

Lemma vec3_ext (a b : vec3) :
  vx a = vx b -> vy a = vy b -> vz a = vz b -> a = b.
Proof. destruct a, b; simpl; intros; subst; reflexivity. Qed.

Ltac vec_ring := apply vec3_ext; simpl; ring.

Lemma norm2_nonneg (a : vec3) : 0 <= norm2 a.
Proof.
  unfold norm2. pose proof (Rle_0_sqr (vx a)). pose proof (Rle_0_sqr (vy a)).
  pose proof (Rle_0_sqr (vz a)). unfold Rsqr in *. lra.
Qed.

Lemma norm2_zero (a : vec3) : norm2 a = 0 -> a = V3 0 0 0.
Proof.
  unfold norm2. intros H. pose proof (Rle_0_sqr (vx a)).
  pose proof (Rle_0_sqr (vy a)). pose proof (Rle_0_sqr (vz a)). unfold Rsqr in *.
  apply vec3_ext; simpl; apply Rsqr_eq_0; unfold Rsqr; lra.
Qed.

Lemma norm2_vsub (a b : vec3) :
  norm2 (vsub a b) = norm2 a + norm2 b - 2 * vdot a b.
Proof. unfold norm2, vdot; simpl; ring. Qed.

Lemma orthogonal_norm2 (Q : mat3) (x : vec3) :
  orthogonal Q -> norm2 (mvec Q x) = norm2 x.
Proof.
  destruct Q as [a b c d e f g h i], x as [x y z]. intros HQ.
  apply orthogonal_equations in HQ.
  destruct HQ as [(c00 & c01 & c02 & c11 & c12 & c22) _].
  unfold norm2; simpl.
  transitivity ((a * a + d * d + g * g) * (x * x)
                + (b * b + e * e + h * h) * (y * y)
                + (c * c + f * f + i * i) * (z * z)
                + 2 * (a * b + d * e + g * h) * (x * y)
                + 2 * (a * c + d * f + g * i) * (x * z)
                + 2 * (b * c + e * f + h * i) * (y * z)); [ring|].
  rewrite c00, c01, c02, c11, c12, c22. ring.
Qed.

Lemma trace_mmul_madd (Q A B : mat3) :
  trace (mmul Q (madd A B)) = trace (mmul Q A) + trace (mmul Q B).
Proof. unfold trace; simpl; ring. Qed.

Lemma trace_mmul_outer (Q : mat3) (x y : vec3) :
  trace (mmul Q (outer x y)) = vdot y (mvec Q x).
Proof. unfold trace, vdot; simpl; ring. Qed.

(** [trace(Q K)] for a cross-covariance [K], point by point. *)
Lemma trace_cross_cov (Q : mat3) (X Y : list vec3) :
  trace (mmul Q (cross_cov X Y))
  = tsum (map2 (fun x y => vdot y (mvec Q x)) X Y).
Proof.
  revert Y; induction X as [|x X IH]; intros [|y Y];
    try (unfold trace; simpl; ring).
  cbn [cross_cov map2 tsum fold_right].
  rewrite trace_mmul_madd, trace_mmul_outer, IH. reflexivity.
Qed.

Lemma fold_vadd_similarity (s : R) (Rs : mat3) (t : vec3) (S : list vec3) :
  fold_right vadd (V3 0 0 0) (map (similarity s Rs t) S)
  = vadd (vscale s (mvec Rs (fold_right vadd (V3 0 0 0) S)))
         (vscale (INR (length S)) t).
Proof.
  induction S as [|p S IH]; [vec_ring|].
  cbn [map fold_right length]. rewrite IH, S_INR. unfold similarity. vec_ring.
Qed.

Lemma centroid_similarity (s : R) (Rs : mat3) (t : vec3) (S : list vec3) (m : vec3) :
  centroid S = Some m ->
  centroid (map (similarity s Rs t) S) = Some (similarity s Rs t m).
Proof.
  destruct S as [|p S]; [discriminate|].
  unfold centroid. intros [= <-]. cbn [map]. f_equal.
  change (similarity s Rs t p :: map (similarity s Rs t) S)
    with (map (similarity s Rs t) (p :: S)).
  rewrite fold_vadd_similarity, length_map.
  assert (Hn : INR (length (p :: S)) <> 0) by (apply not_0_INR; discriminate).
  unfold similarity. apply vec3_ext; simpl vx; simpl vy; simpl vz; field; exact Hn.
Qed.

Lemma centered_similarity (s : R) (Rs : mat3) (t : vec3) (S : list vec3) (m : vec3) :
  centered (map (similarity s Rs t) S) (similarity s Rs t m)
  = map (fun x => vscale s (mvec Rs x)) (centered S m).
Proof.
  unfold centered. rewrite !map_map. apply map_ext. intros p.
  unfold similarity. vec_ring.
Qed.

Lemma centroid_some (S : list vec3) : S <> [] -> exists m, centroid S = Some m.
Proof. destruct S; [contradiction | intros _; eexists; reflexivity]. Qed.

(** The centroid is the only point all of whose differences vanish. *)
Lemma variance_zero_all_equal (S : list vec3) (m : vec3) :
  variance (centered S m) = 0 -> forall p, In p S -> p = m.
Proof.
  unfold variance, centered. rewrite map_map. intros H p Hp.
  apply tsum_zero_all in H.
  - rewrite Forall_map, Forall_forall in H. specialize (H p Hp).
    apply norm2_zero in H. injection H as Hx Hy Hz.
    apply vec3_ext; lra.
  - apply Forall_map, Forall_forall. intros q _. apply norm2_nonneg.
Qed.

Lemma tsum_map_linear {A : Type} (a b : R) (f g : A -> R) (X : list A) :
  tsum (map (fun x => a * f x + b * g x) X)
  = a * tsum (map f X) + b * tsum (map g X).
Proof.
  induction X as [|x X IH]; simpl; [ring | rewrite IH; ring].
Qed.

Lemma tsum_map_scale {A : Type} (a : R) (f : A -> R) (X : list A) :
  tsum (map (fun x => a * f x) X) = a * tsum (map f X).
Proof.
  induction X as [|x X IH]; simpl; [ring | rewrite IH; ring].
Qed.

Lemma map2_map_r {A B : Type} (f : A -> A -> B) (g : A -> A) (X : list A) :
  map2 f X (map g X) = map (fun x => f x (g x)) X.
Proof. induction X as [|x X IH]; simpl; [reflexivity | now rewrite IH]. Qed.

Section Alignment.

Variable svd : mat3 -> mat3 * vec3 * mat3.

(** The heart of the matter: on the cross-covariance of a centred set
    with its image under [s Rs], the rotation built from a correct
    decomposition acts on every point of the set as [Rs] does, and
    [trace(R K)] is [s] times the variance. *)
Lemma rotation_recovered (X : list vec3) (s : R) (Rs : mat3) :
  let K := cross_cov X (map (fun x => vscale s (mvec Rs x)) X) in
  let R := procrustes_rotation svd K in
  proper_rotation Rs -> 0 < s -> svd_ok K (svd K) ->
  trace (mmul R K) = s * variance X /\
  Forall (fun x => mvec R x = mvec Rs x) X.
Proof.
  intros K R HRs Hs Hsvd.
  assert (HR : proper_rotation R).
  { apply procrustes_rotation_proper. unfold svd_ok, factors_orthogonal in *.
    destruct (svd K) as [[U sg] V]. split; apply Hsvd. }
  set (T := fun Q : mat3 => tsum (map (fun x => vdot (mvec Rs x) (mvec Q x)) X)).
  assert (Htr : forall Q, trace (mmul Q K) = s * T Q).
  { intros Q. unfold K, T. rewrite trace_cross_cov, map2_map_r.
    rewrite <- tsum_map_scale. f_equal. apply map_ext. intros x.
    unfold vdot; simpl; ring. }
  assert (HTs : T Rs = variance X).
  { unfold T, variance. f_equal. apply map_ext. intros x.
    rewrite <- (orthogonal_norm2 Rs x (proj1 HRs)). reflexivity. }
  assert (Hmax : trace (mmul Rs K) <= trace (mmul R K)).
  { unfold R, procrustes_rotation. unfold svd_ok in Hsvd.
    destruct (svd K) as [[U sg] V] eqn:E.
    apply (VZUt_maximizes_trace K U V Rs sg Hsvd HRs). }
  rewrite !Htr, HTs in Hmax.
  assert (HT : variance X <= T R) by nra.
  set (D := fun x => norm2 (vsub (mvec R x) (mvec Rs x))).
  assert (HD : tsum (map D X) = 2 * variance X + (-2) * T R).
  { unfold T, variance. rewrite <- tsum_map_linear. f_equal.
    apply map_ext. intros x. unfold D.
    rewrite norm2_vsub, (orthogonal_norm2 R x (proj1 HR)),
      (orthogonal_norm2 Rs x (proj1 HRs)).
    unfold vdot. ring. }
  assert (Hnn : Forall (fun v => 0 <= v) (map D X)).
  { apply Forall_map, Forall_forall. intros x _. apply norm2_nonneg. }
  pose proof (tsum_nonneg _ Hnn) as H0.
  assert (Hz : tsum (map D X) = 0) by lra.
  split.
  - rewrite Htr. assert (T R = variance X) by lra. congruence.
  - pose proof (tsum_zero_all _ Hnn Hz) as Hall.
    rewrite Forall_map in Hall. rewrite Forall_forall in *.
    intros x Hx. specialize (Hall x Hx). unfold D in Hall.
    apply norm2_zero in Hall. injection Hall as Hx0 Hy0 Hz0.
    apply vec3_ext; simpl; lra.
Qed.

Lemma xdiv_some (a b : R) : b <> 0 -> xdiv a b = Some (a / b).
Proof. intros H. unfold xdiv. destruct (Req_EM_T b 0); [contradiction | reflexivity]. Qed.

Lemma vnorm_zero : vnorm (V3 0 0 0) = 0.
Proof.
  unfold vnorm, norm2; simpl.
  replace (0 * 0 + 0 * 0 + 0 * 0) with 0 by ring. apply sqrt_0.
Qed.

(** C7, in the form that holds.  Let [S] hold two different points at least, let
    [Rs] be a proper rotation, [s > 0] and [t] a translation, and let
    [th.svd] decompose correctly the matrix [K] it is handed.  Then
    [procrustes_loss(S, s Rs S + t)] is 0. *)
Theorem procrustes_aligns_similar_copy
  (S : list vec3) (s : R) (Rs : mat3) (t : vec3) :
  let S2 := map (similarity s Rs t) S in
  proper_rotation Rs -> 0 < s ->
  (exists p q, In p S /\ In q S /\ p <> q) ->
  (forall fit,
      procrustes_rotation_of svd (transpose_N3 S) (transpose_N3 S2) = Some fit ->
      svd_ok (fit_K fit) (svd (fit_K fit))) ->
  procrustes_loss svd S S2 = Ok (Some 0).
Proof.
  intros S2 HRs Hs (p & q & Hp & Hq & Hpq) Hsvd.
  assert (Hne : S <> []) by (intros ->; contradiction).
  destruct (centroid_some S Hne) as [m1 Hm1].
  pose proof (centroid_similarity s Rs t S m1 Hm1) as Hm2. fold S2 in Hm2.
  set (X := centered S m1).
  set (g := fun x => vscale s (mvec Rs x)).
  assert (HX2 : centered S2 (similarity s Rs t m1) = map g X)
    by apply centered_similarity.
  set (K := cross_cov X (map g X)).
  assert (Hfit : procrustes_rotation_of svd (transpose_N3 S) (transpose_N3 S2)
                 = Some {| fit_mu1 := m1; fit_mu2 := similarity s Rs t m1;
                           fit_var1 := variance X; fit_K := K;
                           fit_R := procrustes_rotation svd K |}).
  { unfold procrustes_rotation_of.
    rewrite !centroid_mean_axis1, Hm1, Hm2. cbn [xbind].
    rewrite !sub_col_centered, sum_sq_variance, mm_cross_cov, HX2.
    fold X K. unfold procrustes_rotation.
    destruct (svd K) as [[U sg] V]. reflexivity. }
  specialize (Hsvd _ Hfit). cbn [fit_K] in Hsvd.
  destruct (rotation_recovered X s Rs HRs Hs Hsvd) as [Htr Hall].
  fold g K in Htr, Hall.
  assert (Hvar : variance X <> 0).
  { intros H0. pose proof (variance_zero_all_equal S m1 H0) as Heq.
    apply Hpq. now rewrite (Heq p Hp), (Heq q Hq). }
  rewrite procrustes_loss_pointwise by (unfold S2; now rewrite length_map).
  f_equal. unfold procrustes_spec.
  rewrite Hm1, Hm2. cbn [xbind]. rewrite HX2. fold X K.
  set (R := procrustes_rotation svd K) in *.
  rewrite Htr, xdiv_some by exact Hvar.
  replace (s * variance X / variance X) with s by (now field).
  cbn [xbind]. unfold S2. rewrite map2_map_r.
  apply tmean_const.
  - destruct S; [contradiction | discriminate].
  - apply Forall_map, Forall_forall. intros x Hx.
    assert (Hc : In (vsub x m1) X) by (apply (in_map (fun p0 => vsub p0 m1)); exact Hx).
    rewrite Forall_forall in Hall. specialize (Hall _ Hc).
    rewrite <- vnorm_zero. f_equal.
    injection Hall as Hx0 Hy0 Hz0. simpl in Hx0, Hy0, Hz0.
    unfold similarity. apply vec3_ext; simpl; nra.
Qed.

End Alignment.

Lemma xdiv_zero (a b : R) : b = 0 -> xdiv a b = None.
Proof. intros H. unfold xdiv. destruct (Req_EM_T b 0); [reflexivity | contradiction]. Qed.

(** Against C7 as it is worded.  Three coincident points are a point set with
    [N >= 3]; the identity is a proper rotation and 1 a positive scale.
    The centred set vanishes, [K] is the zero matrix, which
    [(I, (0, 0, 0), I)] decomposes correctly, and the scale is the float
    quotient of 0 by [var1 = 0]: the loss is [nan], not 0. *)
Lemma procrustes_loss_nan_on_coincident_points :
  (3 <= length coincident_points)%nat
  /\ proper_rotation eye
  /\ (forall fit,
        procrustes_rotation_of svd_diagonal (transpose_N3 coincident_points)
          (transpose_N3 (map (similarity 1 eye (V3 0 0 0)) coincident_points))
        = Some fit ->
        fit_var1 fit = 0 /\ svd_ok (fit_K fit) (svd_diagonal (fit_K fit)))
  /\ procrustes_loss svd_diagonal coincident_points
       (map (similarity 1 eye (V3 0 0 0)) coincident_points) = Ok None
  /\ procrustes_loss svd_diagonal coincident_points
       (map (similarity 1 eye (V3 0 0 0)) coincident_points) <> Ok (Some 0).
Proof.
  set (S2 := map (similarity 1 eye (V3 0 0 0)) coincident_points).
  assert (Hm1 : centroid coincident_points = Some (V3 1 2 3)).
  { unfold centroid, coincident_points. f_equal. apply vec3_ext; simpl; field. }
  pose proof (centroid_similarity 1 eye (V3 0 0 0) _ _ Hm1) as Hm2. fold S2 in Hm2.
  pose proof (centered_similarity 1 eye (V3 0 0 0) coincident_points (V3 1 2 3))
    as HX2. fold S2 in HX2.
  assert (HX : centered coincident_points (V3 1 2 3)
               = [V3 0 0 0; V3 0 0 0; V3 0 0 0]).
  { unfold centered, coincident_points. cbn [map].
    repeat f_equal; apply vec3_ext; simpl; ring. }
  rewrite HX in HX2. cbn [map] in HX2.
  assert (Hvar : variance [V3 0 0 0; V3 0 0 0; V3 0 0 0] = 0)
    by (unfold variance, norm2; simpl; ring).
  assert (Hloss : procrustes_loss svd_diagonal coincident_points S2 = Ok None).
  { rewrite procrustes_loss_pointwise by reflexivity. f_equal.
    unfold procrustes_spec. rewrite Hm1, Hm2. cbn [xbind].
    rewrite HX, xdiv_zero by exact Hvar. reflexivity. }
  split; [simpl; lia|]. split; [split; [apply orthogonal_eye | apply det_eye]|].
  split; [|split; [exact Hloss | rewrite Hloss; discriminate]].
  intros fit. unfold procrustes_rotation_of.
  rewrite !centroid_mean_axis1, Hm1, Hm2. cbn [xbind].
  rewrite !sub_col_centered, sum_sq_variance, mm_cross_cov, HX, HX2.
  intros [= <-]. cbn [fit_var1 fit_K]. split; [exact Hvar|].
  unfold svd_ok, svd_diagonal.
  split; [apply orthogonal_eye|]. split; [apply orthogonal_eye|].
  split; [simpl; lra | mat_ring].
Qed.

(** Four points in a plane, doubled and shifted: [K = diag(4, 4, 0)]. *)
Lemma procrustes_aligns_similar_copy_witness :
  procrustes_loss svd_diagonal planar_points
    (map (similarity 2 eye (V3 1 2 3)) planar_points) = Ok (Some 0).
Proof.
  apply (procrustes_aligns_similar_copy svd_diagonal planar_points 2 eye (V3 1 2 3)).
  - split; [apply orthogonal_eye | apply det_eye].
  - lra.
  - exists (V3 1 0 0), (V3 (-1) 0 0). split; [now left|]. split; [right; now left|].
    intros H. injection H as H. lra.
  - set (S2 := map (similarity 2 eye (V3 1 2 3)) planar_points).
    assert (Hm1 : centroid planar_points = Some (V3 0 0 0)).
    { unfold centroid, planar_points. f_equal. apply vec3_ext; simpl; field. }
    pose proof (centroid_similarity 2 eye (V3 1 2 3) _ _ Hm1) as Hm2. fold S2 in Hm2.
    pose proof (centered_similarity 2 eye (V3 1 2 3) planar_points (V3 0 0 0))
      as HX2. fold S2 in HX2.
    intros fit. unfold procrustes_rotation_of.
    rewrite !centroid_mean_axis1, Hm1, Hm2. cbn [xbind].
    rewrite !sub_col_centered, sum_sq_variance, mm_cross_cov, HX2.
    intros [= <-]. cbn [fit_K].
    unfold svd_ok, svd_diagonal.
    split; [apply orthogonal_eye|]. split; [apply orthogonal_eye|].
    split; [simpl; lra | mat_ring].
Defined.

(** * Further properties *)

(** ** The Procrustes loss: what it ignores *)

Lemma tmean_nonneg (l : list R) (r : R) :
  Forall (fun x => 0 <= x) l -> tmean l = Some r -> 0 <= r.
Proof.
  intros Hl Hm. destruct l as [|x l]; [discriminate|]. unfold tmean in Hm.
  assert (E : r = tsum (x :: l) / INR (length (x :: l))) by congruence.
  rewrite E. unfold Rdiv. apply Rmult_le_pos; [exact (tsum_nonneg _ Hl)|].
  apply Rlt_le, Rinv_0_lt_compat, lt_0_INR. cbn [length]. lia.
Qed.

Lemma map2_vnorm_nonneg {A B : Type} (f : A -> B -> vec3)
  (l1 : list A) (l2 : list B) :
  Forall (fun x => 0 <= x) (map2 (fun p q => vnorm (f p q)) l1 l2).
Proof.
  revert l2. induction l1 as [|p l1 IH]; intros [|q l2]; cbn [map2];
    constructor; [apply sqrt_pos | apply IH].
Qed.

Lemma procrustes_loss_mismatch (svd : mat3 -> mat3 * vec3 * mat3)
  (S1 S2 : list vec3) :
  length S1 <> length S2 -> procrustes_loss svd S1 S2 = Raise AssertionError.
Proof.
  intros H. unfold procrustes_loss, shape1. cbn [transpose_N3 row0].
  rewrite !length_map.
  destruct (Nat.eqb_spec (length S2) (length S1)) as [E|_];
    [symmetry in E; contradiction | reflexivity].
Qed.

Lemma map2_map_both {A A' B B' C : Type} (f : A' -> B' -> C)
  (g : A -> A') (h : B -> B') (l1 : list A) (l2 : list B) :
  map2 f (map g l1) (map h l2) = map2 (fun a b => f (g a) (h b)) l1 l2.
Proof.
  revert l2; induction l1 as [|a l1 IH]; intros [|b l2]; simpl; auto.
  now rewrite IH.
Qed.

Lemma map2_ext {A B C : Type} (f g : A -> B -> C) (l1 : list A) (l2 : list B) :
  (forall a b, f a b = g a b) -> map2 f l1 l2 = map2 g l1 l2.
Proof.
  intros H. revert l2; induction l1 as [|a l1 IH]; intros [|b l2]; simpl; auto.
  now rewrite H, IH.
Qed.

Lemma centroid_shift (S : list vec3) (c m : vec3) :
  centroid S = Some m ->
  centroid (map (fun p => vadd p c) S) = Some (vadd m c).
Proof.
  intros Hm.
  pose proof (centroid_similarity 1 eye c S m Hm) as H.
  replace (map (fun p => vadd p c) S) with (map (similarity 1 eye c) S)
    by (apply map_ext; intros p; unfold similarity; vec_ring).
  rewrite H. f_equal. unfold similarity. vec_ring.
Qed.

Lemma centered_shift (S : list vec3) (c m : vec3) :
  centered (map (fun p => vadd p c) S) (vadd m c) = centered S m.
Proof.
  unfold centered. rewrite map_map. apply map_ext. intros p. vec_ring.
Qed.

(** X2.  The loss only sees the shapes of the two sets: moving either set
    as a whole by a translation changes neither the value nor the
    exception. *)
Theorem procrustes_loss_translation_invariant
  (svd : mat3 -> mat3 * vec3 * mat3) (S1 S2 : list vec3) (c d : vec3) :
  procrustes_loss svd (map (fun p => vadd p c) S1) (map (fun q => vadd q d) S2)
  = procrustes_loss svd S1 S2.
Proof.
  destruct (Nat.eq_dec (length S1) (length S2)) as [Hlen|Hlen].
  - rewrite !procrustes_loss_pointwise by (rewrite ?length_map; exact Hlen).
    f_equal. unfold procrustes_spec.
    destruct (centroid S1) as [m1|] eqn:Hm1.
    + rewrite (centroid_shift S1 c m1 Hm1). cbn [xbind].
      destruct (centroid S2) as [m2|] eqn:Hm2.
      * rewrite (centroid_shift S2 d m2 Hm2). cbn [xbind].
        rewrite !centered_shift.
        destruct (xdiv _ _) as [scale|]; [|reflexivity]. cbn [xbind].
        rewrite map2_map_both. f_equal. apply map2_ext. intros p q.
        f_equal. unfold similarity. vec_ring.
      * destruct S2; [|discriminate]. reflexivity.
    + destruct S1; [|discriminate]. reflexivity.
  - rewrite !procrustes_loss_mismatch by (rewrite ?length_map; exact Hlen).
    reflexivity.
Qed.

(** ** The transform of the Procrustes loss is the best similarity *)

Lemma fold_vadd_centered (S : list vec3) (m : vec3) :
  fold_right vadd (V3 0 0 0) (centered S m)
  = vsub (fold_right vadd (V3 0 0 0) S) (vscale (INR (length S)) m).
Proof.
  induction S as [|p S IH]; [vec_ring|].
  unfold centered in *. cbn [map fold_right length]. rewrite IH, S_INR. vec_ring.
Qed.

Lemma centered_sum_zero (S : list vec3) (m : vec3) :
  centroid S = Some m -> fold_right vadd (V3 0 0 0) (centered S m) = V3 0 0 0.
Proof.
  intros Hm. rewrite fold_vadd_centered.
  destruct S as [|p S]; [discriminate|].
  assert (Hm' : m = vscale (/ INR (length (p :: S)))
                            (fold_right vadd (V3 0 0 0) (p :: S)))
    by (unfold centroid in Hm; congruence).
  assert (INR (length (p :: S)) <> 0) by (apply not_0_INR; discriminate).
  rewrite Hm'. apply vec3_ext; simpl vx; simpl vy; simpl vz; now field.
Qed.

Lemma norm2_affine (c : R) (Q : mat3) (e x y : vec3) :
  norm2 (vsub (vadd (vscale c (mvec Q x)) e) y)
  = c * c * norm2 (mvec Q x) - 2 * c * vdot y (mvec Q x) + norm2 y
    + 2 * c * vdot e (mvec Q x) - 2 * vdot e y + norm2 e.
Proof. unfold norm2, vdot; simpl; ring. Qed.

(** Sum of the squared residuals of [x -> c Q x + e] between two lists of
    the same length. *)
Lemma squared_residual_expand (c : R) (Q : mat3) (e : vec3) (X Y : list vec3) :
  orthogonal Q -> length X = length Y ->
  tsum (map2 (fun x y => norm2 (vsub (vadd (vscale c (mvec Q x)) e) y)) X Y)
  = c * c * variance X - 2 * c * trace (mmul Q (cross_cov X Y)) + variance Y
    + 2 * c * vdot e (mvec Q (fold_right vadd (V3 0 0 0) X))
    - 2 * vdot e (fold_right vadd (V3 0 0 0) Y)
    + INR (length X) * norm2 e.
Proof.
  intros HQ. revert Y. induction X as [|x X IH]; intros [|y Y] Hlen;
    try discriminate.
  - unfold variance, trace, vdot, norm2; simpl; ring.
  - cbn [map2 tsum fold_right cross_cov length]. fold (tsum (map2
      (fun x0 y0 => norm2 (vsub (vadd (vscale c (mvec Q x0)) e) y0)) X Y)).
    rewrite IH by (simpl in Hlen; lia).
    rewrite norm2_affine, (orthogonal_norm2 Q x HQ).
    rewrite trace_mmul_madd, trace_mmul_outer, S_INR.
    unfold variance. cbn [map tsum fold_right].
    fold (tsum (map norm2 X)) (tsum (map norm2 Y)).
    unfold vdot; simpl; ring.
Qed.

Lemma variance_nonneg (X : list vec3) : 0 <= variance X.
Proof.
  unfold variance. apply tsum_nonneg, Forall_map, Forall_forall.
  intros x _. apply norm2_nonneg.
Qed.

Section ProcrustesOptimal.

Variable svd : mat3 -> mat3 * vec3 * mat3.

(** X3.  When the points of [S1] do not all coincide and [th.svd]
    decomposes [K] correctly, [procrustes_loss] builds a transform
    [(scale, R, t)] with [scale >= 0] and [R] a proper rotation, returns
    the mean distance between [scale R S1_i + t] and [S2_i], and no other
    similarity [x -> c Q x + u] with [c >= 0] and [Q] a proper rotation
    has a smaller sum of squared distances: it solves the orthogonal
    Procrustes problem of its docstring. *)
Theorem procrustes_transform_optimal (S1 S2 : list vec3) :
  length S1 = length S2 ->
  ~ all_equal S1 ->
  (forall fit,
      procrustes_rotation_of svd (transpose_N3 S1) (transpose_N3 S2) = Some fit ->
      svd_ok (fit_K fit) (svd (fit_K fit))) ->
  exists (s : R) (Rot : mat3) (t : vec3),
    procrustes_transform svd S1 S2 = Ok (Some (s, Rot, t)) /\
    0 <= s /\ proper_rotation Rot /\
    procrustes_loss svd S1 S2
    = Ok (tmean (map2 (fun p q => vnorm (vsub (similarity s Rot t p) q)) S1 S2)) /\
    forall (c : R) (Q : mat3) (u : vec3),
      0 <= c -> proper_rotation Q ->
      squared_residual s Rot t S1 S2 <= squared_residual c Q u S1 S2.
Proof.
  intros Hlen Hneq Hsvd.
  assert (Hne : S1 <> []) by (intros ->; apply Hneq; intros p q []).
  assert (Hne2 : S2 <> []) by (intros ->; destruct S1; [contradiction | discriminate]).
  destruct (centroid_some S1 Hne) as [m1 Hm1].
  destruct (centroid_some S2 Hne2) as [m2 Hm2].
  set (X := centered S1 m1). set (Y := centered S2 m2).
  set (K := cross_cov X Y). set (Rot := procrustes_rotation svd K).
  assert (Hfit : procrustes_rotation_of svd (transpose_N3 S1) (transpose_N3 S2)
                 = Some {| fit_mu1 := m1; fit_mu2 := m2;
                           fit_var1 := variance X; fit_K := K;
                           fit_R := Rot |}).
  { unfold procrustes_rotation_of.
    rewrite !centroid_mean_axis1, Hm1, Hm2. cbn [xbind].
    rewrite !sub_col_centered, sum_sq_variance, mm_cross_cov.
    fold X Y K. unfold Rot, procrustes_rotation.
    destruct (svd K) as [[U sg] V]. reflexivity. }
  specialize (Hsvd _ Hfit). cbn [fit_K] in Hsvd.
  assert (Hvar : variance X <> 0).
  { intros H0. apply Hneq. intros p q Hp Hq.
    now rewrite (variance_zero_all_equal S1 m1 H0 p Hp),
                (variance_zero_all_equal S1 m1 H0 q Hq). }
  assert (Hvpos : 0 < variance X) by (pose proof (variance_nonneg X); lra).
  set (T := trace (mmul Rot K)).
  assert (HRot : proper_rotation Rot).
  { apply procrustes_rotation_proper. unfold svd_ok, factors_orthogonal in *.
    destruct (svd K) as [[U sg] V]. split; apply Hsvd. }
  assert (Hmax : 0 <= T /\ forall Q, proper_rotation Q -> trace (mmul Q K) <= T).
  { unfold T, Rot, procrustes_rotation. unfold svd_ok in Hsvd.
    destruct (svd K) as [[U sg] V] eqn:E. split.
    - destruct (VZUt_maximizes_trace K U V eye sg Hsvd
                  (conj orthogonal_eye det_eye)) as [Htr _].
      cbv zeta in Htr. rewrite Htr.
      destruct Hsvd as (HU & HV & (H3 & H2 & H1) & _).
      destruct (orthogonal_det U HU) as [-> | ->],
               (orthogonal_det V HV) as [-> | ->]; nra.
    - intros Q HQ. apply (VZUt_maximizes_trace K U V Q sg Hsvd HQ). }
  destruct Hmax as [HT Hmax].
  set (s := T / variance X).
  assert (Hs : 0 <= s).
  { unfold s, Rdiv. apply Rmult_le_pos; [exact HT|].
    apply Rlt_le, Rinv_0_lt_compat, Hvpos. }
  assert (HTs : T = s * variance X) by (unfold s; now field).
  set (t := vsub m2 (vscale s (mvec Rot m1))).
  exists s, Rot, t.
  assert (Hlen' : length X = length Y)
    by (unfold X, Y, centered; now rewrite !length_map).
  assert (HsumX : fold_right vadd (V3 0 0 0) X = V3 0 0 0)
    by now apply centered_sum_zero.
  assert (HsumY : fold_right vadd (V3 0 0 0) Y = V3 0 0 0)
    by now apply centered_sum_zero.
  assert (Hres : forall c Q u, orthogonal Q ->
            squared_residual c Q u S1 S2
            = c * c * variance X - 2 * c * trace (mmul Q K) + variance Y
              + INR (length X)
                * norm2 (vsub (vadd (vscale c (mvec Q m1)) u) m2)).
  { intros c Q u HQ. unfold squared_residual.
    transitivity (tsum (map2 (fun x y =>
        norm2 (vsub (vadd (vscale c (mvec Q x))
                          (vsub (vadd (vscale c (mvec Q m1)) u) m2)) y)) X Y)).
    - unfold X, Y, centered. rewrite map2_map_both. f_equal.
      apply map2_ext. intros p q. f_equal. unfold similarity. vec_ring.
    - rewrite (squared_residual_expand c Q _ X Y HQ Hlen'), HsumX, HsumY.
      fold K. unfold vdot; simpl; ring. }
  split; [|split; [exact Hs | split; [exact HRot | split]]].
  - unfold procrustes_transform, shape1. cbn [transpose_N3 row0].
    rewrite !length_map, Hlen, Nat.eqb_refl. cbn [negb]. f_equal.
    rewrite Hfit. cbn [xbind fit_mu1 fit_mu2 fit_var1 fit_K fit_R].
    fold T. now rewrite xdiv_some by exact Hvar.
  - rewrite procrustes_loss_pointwise by exact Hlen. f_equal.
    unfold procrustes_spec. rewrite Hm1, Hm2. cbn [xbind].
    fold X Y K Rot T. now rewrite xdiv_some by exact Hvar.
  - intros c Q u Hc HQ.
    rewrite (Hres s Rot t (proj1 HRot)), (Hres c Q u (proj1 HQ)).
    fold T.
    replace (norm2 (vsub (vadd (vscale s (mvec Rot m1)) t) m2)) with 0
      by (unfold t, norm2; simpl; ring).
    pose proof (Hmax Q HQ) as HQle.
    pose proof (norm2_nonneg (vsub (vadd (vscale c (mvec Q m1)) u) m2)) as Hn.
    pose proof (pos_INR (length X)) as HN.
    assert (0 <= INR (length X)
                 * norm2 (vsub (vadd (vscale c (mvec Q m1)) u) m2))
      by (apply Rmult_le_pos; assumption).
    assert (c * trace (mmul Q K) <= c * T) by (apply Rmult_le_compat_l; assumption).
    rewrite HTs in *.
    assert (0 <= variance X * ((c - s) * (c - s)))
      by (apply Rmult_le_pos; [lra | apply Rle_0_sqr]).
    nra.
Qed.

End ProcrustesOptimal.

Lemma planar_copy_svd_ok (fit : procrustes_fit) :
  procrustes_rotation_of svd_diagonal (transpose_N3 planar_points)
    (transpose_N3 (map (similarity 2 eye (V3 1 2 3)) planar_points)) = Some fit ->
  svd_ok (fit_K fit) (svd_diagonal (fit_K fit)).
Proof.
  set (S2 := map (similarity 2 eye (V3 1 2 3)) planar_points).
  assert (Hm1 : centroid planar_points = Some (V3 0 0 0)).
  { unfold centroid, planar_points. f_equal. apply vec3_ext; simpl; field. }
  pose proof (centroid_similarity 2 eye (V3 1 2 3) _ _ Hm1) as Hm2. fold S2 in Hm2.
  pose proof (centered_similarity 2 eye (V3 1 2 3) planar_points (V3 0 0 0))
    as HX2. fold S2 in HX2.
  unfold procrustes_rotation_of.
  rewrite !centroid_mean_axis1, Hm1, Hm2. cbn [xbind].
  rewrite !sub_col_centered, sum_sq_variance, mm_cross_cov, HX2.
  intros [= <-]. cbn [fit_K].
  unfold svd_ok, svd_diagonal.
  split; [apply orthogonal_eye|]. split; [apply orthogonal_eye|].
  split; [simpl; lra | mat_ring].
Qed.

Lemma planar_points_not_all_equal : ~ all_equal planar_points.
Proof.
  intros Heq.
  assert (E : V3 1 0 0 = V3 (-1) 0 0)
    by (apply Heq; [now left | right; now left]).
  injection E as E. lra.
Qed.

(** Four points in a plane and their copy, doubled and shifted. *)
Lemma procrustes_transform_optimal_witness :
  exists (s : R) (Rot : mat3) (t : vec3),
    procrustes_transform svd_diagonal planar_points
      (map (similarity 2 eye (V3 1 2 3)) planar_points) = Ok (Some (s, Rot, t))
    /\ 0 <= s /\ proper_rotation Rot.
Proof.
  destruct (procrustes_transform_optimal svd_diagonal planar_points
              (map (similarity 2 eye (V3 1 2 3)) planar_points)
              eq_refl planar_points_not_all_equal planar_copy_svd_ok)
    as (s & Rot & t & Htr & Hs & HR & _).
  exists s, Rot, t. repeat split; try assumption; apply HR.
Defined.

(** ** The regularizers: sign, zero set, lower bound *)

Lemma frob2_zero (A : mat3) : frob2 A = 0 -> A = mzero.
Proof.
  unfold frob2. intros H.
  pose proof (Rle_0_sqr (m00 A)). pose proof (Rle_0_sqr (m01 A)).
  pose proof (Rle_0_sqr (m02 A)). pose proof (Rle_0_sqr (m10 A)).
  pose proof (Rle_0_sqr (m11 A)). pose proof (Rle_0_sqr (m12 A)).
  pose proof (Rle_0_sqr (m20 A)). pose proof (Rle_0_sqr (m21 A)).
  pose proof (Rle_0_sqr (m22 A)). unfold Rsqr in *.
  apply mat3_ext; simpl; apply Rsqr_eq_0; unfold Rsqr; lra.
Qed.

Lemma matrix_norm_zero (A B : mat3) : matrix_norm (msub A B) = 0 -> A = B.
Proof.
  unfold matrix_norm. intros H.
  apply sqrt_eq_0 in H; [|apply frob2_nonneg].
  apply frob2_zero in H. unfold mzero in H.
  apply (f_equal m00) in H as H00. apply mat3_ext;
    [apply (f_equal m00) in H | apply (f_equal m01) in H
    | apply (f_equal m02) in H | apply (f_equal m10) in H
    | apply (f_equal m11) in H | apply (f_equal m12) in H
    | apply (f_equal m20) in H | apply (f_equal m21) in H
    | apply (f_equal m22) in H]; simpl in H; lra.
Qed.

Lemma matrix_norm_nonneg (A : mat3) : 0 <= matrix_norm A.
Proof. apply sqrt_pos. Qed.

Lemma tmean_zero_all (l : list R) :
  Forall (fun x => 0 <= x) l -> tmean l = Some 0 -> Forall (fun x => x = 0) l.
Proof.
  intros Hl Hm. destruct l as [|x l]; [constructor|]. unfold tmean in Hm.
  assert (E : tsum (x :: l) / INR (length (x :: l)) = 0) by congruence.
  assert (Hn : 0 < INR (length (x :: l))) by (apply lt_0_INR; cbn [length]; lia).
  apply tsum_zero_all; [exact Hl|].
  unfold Rdiv in E. apply Rmult_integral in E. destruct E as [E|E]; [exact E|].
  pose proof (Rinv_0_lt_compat _ Hn). lra.
Qed.

Lemma tsum_le (l1 l2 : list R) :
  Forall2 Rle l1 l2 -> tsum l1 <= tsum l2.
Proof. induction 1; simpl; lra. Qed.

Lemma tmean_le (l1 l2 : list R) (r r' : R) :
  Forall2 Rle l1 l2 -> tmean l1 = Some r -> tmean l2 = Some r' -> r <= r'.
Proof.
  intros Hle Hr Hr'. pose proof (Forall2_length Hle) as Hlen.
  destruct l1 as [|x l1]; [discriminate|]. destruct l2 as [|y l2]; [discriminate|].
  unfold tmean in Hr, Hr'.
  assert (Er : r = tsum (x :: l1) / INR (length (x :: l1))) by congruence.
  assert (Er' : r' = tsum (y :: l2) / INR (length (y :: l2))) by congruence.
  rewrite Er, Er', Hlen. unfold Rdiv. apply Rmult_le_compat_r.
  - apply Rlt_le, Rinv_0_lt_compat, lt_0_INR. cbn [length]. lia.
  - now apply tsum_le.
Qed.

Section RegularizerBounds.

Variable svd : mat3 -> mat3 * vec3 * mat3.

(** X4.  [deformation_loss] is never negative, and with orthogonal
    factors from [th.svd] it is zero only for a batch in which every
    Jacobian is a proper rotation. *)
Theorem deformation_loss_zero_only_for_rotations (jacobian : list mat3) :
  Forall (fun m => factors_orthogonal (svd m)) jacobian ->
  (forall r, deformation_loss svd jacobian = Some r -> 0 <= r) /\
  (deformation_loss svd jacobian = Some 0 -> Forall proper_rotation jacobian).
Proof.
  intros Hsvd. rewrite deformation_loss_per_sample. unfold rotation_residual.
  assert (Hnn : Forall (fun x => 0 <= x) (map (def_residual svd) jacobian)).
  { apply Forall_map, Forall_forall. intros m _. apply matrix_norm_nonneg. }
  split.
  - intros r Hr. eapply tmean_nonneg; eassumption.
  - intros H0. pose proof (tmean_zero_all _ Hnn H0) as Hall.
    rewrite Forall_map in Hall. rewrite Forall_forall in *.
    intros m Hm. specialize (Hall m Hm). unfold def_residual in Hall.
    apply matrix_norm_zero in Hall. rewrite Hall.
    apply closest_rotation_proper. now apply Hsvd.
Qed.

(** X5.  With a correct [th.svd], [deformation_loss] is the least mean
    distance between the Jacobians and any batch of proper rotations:
    whatever rotations [Q_i] are chosen, the mean of [||J_i - Q_i||] is
    not below the loss. *)
Theorem deformation_loss_lower_bound (jacobian rotations : list mat3) (r r' : R) :
  Forall (fun m => svd_ok m (svd m)) jacobian ->
  Forall proper_rotation rotations ->
  length rotations = length jacobian ->
  deformation_loss svd jacobian = Some r ->
  tmean (map2 (fun J Q => matrix_norm (msub J Q)) jacobian rotations) = Some r' ->
  r <= r'.
Proof.
  intros Hsvd Hrot Hlen. rewrite deformation_loss_per_sample.
  unfold rotation_residual.
  assert (Hle : Forall2 Rle (map (def_residual svd) jacobian)
                        (map2 (fun J Q => matrix_norm (msub J Q))
                              jacobian rotations)).
  { revert rotations Hrot Hlen.
    induction jacobian as [|J js IH]; intros [|Q qs] Hrot Hlen;
      try discriminate; [constructor|].
    cbn [map map2]. inversion Hsvd; subst. inversion Hrot; subst.
    constructor; [now apply closest_rotation_nearest|].
    apply IH; [assumption | assumption | simpl in Hlen; lia]. }
  intros Hr Hr'. eapply tmean_le; eassumption.
Qed.

(** X6.  With the identity as every actuation, [energy_loss] is
    [deformation_loss]. *)
Theorem energy_loss_identity_actuation (jacobian : list mat3) :
  energy_loss svd jacobian (map (fun _ => eye) jacobian)
  = Ok (deformation_loss svd jacobian).
Proof.
  rewrite energy_loss_per_sample by (now rewrite length_map).
  rewrite deformation_loss_per_sample. unfold rotation_residual.
  do 2 f_equal. rewrite map2_map_r. apply map_ext. intros J.
  unfold energy_residual, def_residual. now rewrite !mmul_eye_r.
Qed.

End RegularizerBounds.

(** ** The energy of a rotated actuation *)

Lemma mT_diag (s : vec3) : mT (diag s) = diag s.
Proof. mat_ring. Qed.

Lemma svd_ok_transpose (M U V : mat3) (sg : vec3) :
  svd_ok M (U, sg, V) -> svd_ok (mT M) (V, sg, U).
Proof.
  intros (HU & HV & Hord & HM).
  split; [exact HV|]. split; [exact HU|]. split; [exact Hord|].
  rewrite HM, !mT_mmul, mT_involutive, mT_diag. now rewrite mmul_assoc.
Qed.

Lemma symmetric_product_cross_cov (A Q : mat3) :
  symmetric A ->
  mT (mmul (mmul Q A) A)
  = cross_cov (rows_of A) (map (fun x => vscale 1 (mvec Q x)) (rows_of A)).
Proof.
  unfold symmetric. destruct A as [a b c d e f g h i]. intros H.
  unfold mT in H; simpl in H. injection H as Hd Hg Hb Hh Hc Hf. subst d g h.
  mat_ring.
Qed.

Section RotatedActuation.

Variable svd : mat3 -> mat3 * vec3 * mat3.

Lemma energy_residual_rotated (A Q : mat3) :
  symmetric A -> proper_rotation Q ->
  svd_ok (mmul (mmul Q A) A) (svd (mmul (mmul Q A) A)) ->
  energy_residual svd (mmul Q A) A = 0.
Proof.
  intros HA HQ Hsvd. unfold energy_residual, closest_rotation.
  set (M := mmul (mmul Q A) A) in *.
  destruct (svd M) as [[U sg] V] eqn:E.
  pose proof (svd_ok_transpose M U V sg Hsvd) as Hsvd'.
  unfold M in Hsvd'. rewrite (symmetric_product_cross_cov A Q HA) in Hsvd'.
  pose proof (rotation_recovered (fun _ => (V, sg, U)) (rows_of A) 1 Q HQ
                ltac:(lra) Hsvd') as [_ Hall].
  cbv zeta in Hall. unfold procrustes_rotation in Hall.
  replace (det (mmul V (mT U))) with (det (mmul U (mT V))) in Hall
    by (rewrite !det_mmul, !det_mT; ring).
  set (Rot := mmul U (mmul (Zfix (sign (det (mmul U (mT V))))) (mT V))) in *.
  assert (HRA : mmul Rot A = mmul Q A).
  { unfold symmetric in HA. destruct A as [a b c d e f g h i].
    unfold mT in HA; simpl in HA. injection HA as Hd Hg Hb Hh Hc Hf. subst d g h.
    unfold rows_of in Hall. simpl in Hall.
    inversion Hall as [|x0 l0 H0 Hall1]; subst.
    inversion Hall1 as [|x1 l1 H1 Hall2]; subst.
    inversion Hall2 as [|x2 l2 H2 _]; subst.
    injection H0 as ? ? ?. injection H1 as ? ? ?. injection H2 as ? ? ?.
    apply mat3_ext; simpl; lra. }
  rewrite HRA. apply matrix_norm_self.
Qed.

(** X7.  When every Jacobian is a proper rotation of its actuation,
    [J_i = Q_i A_i] with [A_i] symmetric, and [th.svd] decomposes the
    products correctly, [energy_loss] is zero. *)
Theorem energy_loss_vanishes_on_rotated_actuations
  (rotations actuations : list mat3) :
  actuations <> [] ->
  length rotations = length actuations ->
  Forall proper_rotation rotations ->
  Forall symmetric actuations ->
  Forall (fun m => svd_ok m (svd m)) (bmm (bmm rotations actuations) actuations) ->
  energy_loss svd (bmm rotations actuations) actuations = Ok (Some 0).
Proof.
  intros Hne Hlen Hrot Hsym Hsvd.
  rewrite energy_loss_per_sample
    by (unfold bmm; rewrite map2_length, Hlen; apply Nat.min_id).
  f_equal. apply tmean_const.
  - destruct rotations as [|Q qs], actuations as [|A acts];
      try discriminate; contradiction.
  - clear Hne. revert actuations Hlen Hsym Hsvd.
    induction Hrot as [|Q qs HQ _ IH]; intros [|A acts] Hlen Hsym Hsvd;
      try discriminate; [constructor|].
    unfold bmm in *. cbn [map2] in *.
    inversion Hsym; subst. inversion Hsvd; subst.
    constructor; [now apply energy_residual_rotated|].
    apply IH; [simpl in Hlen; lia | assumption | assumption].
Qed.

End RotatedActuation.

(** ** Concrete batches for the regularizers *)

Lemma svd_diagonal_factors (M : list mat3) :
  Forall (fun m => factors_orthogonal (svd_diagonal m)) M.
Proof. apply Forall_forall. intros m _. apply svd_diagonal_orthogonal. Qed.

Lemma deformation_loss_single (svd : mat3 -> mat3 * vec3 * mat3) (M : mat3) :
  deformation_loss svd [M] = Some ((def_residual svd M + 0) / 1).
Proof. rewrite deformation_loss_per_sample. reflexivity. Qed.

(** The identity as a batch of one Jacobian. *)
Lemma deformation_loss_zero_only_for_rotations_witness :
  Forall proper_rotation [eye].
Proof.
  apply (deformation_loss_zero_only_for_rotations svd_diagonal [eye]
           (svd_diagonal_factors [eye])).
  rewrite deformation_loss_single.
  rewrite (rotation_residual_zero svd_diagonal eye).
  - f_equal. field.
  - change eye with (diag (V3 1 1 1)). apply svd_diagonal_ok; lra.
  - split; [apply orthogonal_eye | apply det_eye].
Defined.

(** Twice the identity against the identity. *)
Lemma deformation_loss_lower_bound_witness :
  (def_residual svd_diagonal (mscale 2 eye) + 0) / 1
  <= (matrix_norm (msub (mscale 2 eye) eye) + 0) / 1.
Proof.
  apply (deformation_loss_lower_bound svd_diagonal [mscale 2 eye] [eye]).
  - constructor; [|constructor].
    rewrite mscale_eye_diag. apply svd_diagonal_ok; lra.
  - constructor; [|constructor]. split; [apply orthogonal_eye | apply det_eye].
  - reflexivity.
  - apply deformation_loss_single.
  - reflexivity.
Defined.

(** The stretch [diag(3, 1, 1)] as actuation and as Jacobian. *)
Lemma energy_loss_vanishes_on_rotated_actuations_witness :
  energy_loss svd_diagonal (bmm [eye] [stretch]) [stretch] = Ok (Some 0).
Proof.
  apply (energy_loss_vanishes_on_rotated_actuations svd_diagonal [eye] [stretch]).
  - discriminate.
  - reflexivity.
  - constructor; [|constructor]. split; [apply orthogonal_eye | apply det_eye].
  - constructor; [|constructor]. unfold symmetric, stretch. mat_ring.
  - constructor; [|constructor].
    replace (mmul (mmul eye stretch) stretch) with (diag (V3 9 1 1))
      by (unfold stretch; mat_ring).
    apply svd_diagonal_ok; lra.
Defined.

(** ** Loss composition: exceptions, sign, perfect fit *)

Lemma index_mask_length {A : Type} (x : list A) (w : list bool) (l : list A) :
  index_mask x w = Ok l -> length l = mask_sum w.
Proof.
  unfold index_mask, mask_sum.
  destruct (Nat.eqb_spec (length x) (length w)) as [E|_]; [|discriminate].
  intros [= <-]. rewrite length_map.
  revert w E. induction x as [|a x IH]; intros [|b w] E; try discriminate.
  - reflexivity.
  - cbn [combine filter snd]. destruct b; cbn [length];
      rewrite IH by (simpl in E; lia); reflexivity.
Qed.

Lemma index_mask_ok {A : Type} (x : list A) (w : list bool) :
  length x = length w -> exists l, index_mask x w = Ok l.
Proof.
  intros E. unfold index_mask. rewrite E, Nat.eqb_refl. eexists; reflexivity.
Qed.

Lemma index_mask_raise {A : Type} (x : list A) (w : list bool) :
  length x <> length w -> index_mask x w = Raise IndexError.
Proof.
  intros E. unfold index_mask.
  destruct (Nat.eqb_spec (length x) (length w)); [contradiction | reflexivity].
Qed.

(** A regression term raises exactly when its region has a member and one
    of the two arrays is not as long as the mask; it then raises
    [IndexError]. *)
Lemma l1_term_cases (w : R) (prediction target : list vec3) (where_ : list bool) :
  ((0 < mask_sum where_)%nat /\
   (length prediction <> length where_ \/ length target <> length where_) ->
   l1_term w prediction target where_ = Raise IndexError) /\
  (~ ((0 < mask_sum where_)%nat /\
      (length prediction <> length where_ \/ length target <> length where_)) ->
   exists v, l1_term w prediction target where_ = Ok v).
Proof.
  unfold l1_term. split.
  - intros [Hpos Hmis].
    destruct (Nat.ltb_spec 0 (mask_sum where_)) as [_|]; [|lia].
    destruct (Nat.eq_dec (length prediction) (length where_)) as [Ep|Ep].
    + destruct (index_mask_ok prediction where_ Ep) as [l ->]. cbn [py_bind].
      rewrite index_mask_raise by tauto. reflexivity.
    + rewrite index_mask_raise by exact Ep. reflexivity.
  - intros Hn.
    destruct (Nat.ltb_spec 0 (mask_sum where_)) as [Hpos|_];
      [|cbn [py_bind]; eexists; reflexivity].
    destruct (Nat.eq_dec (length prediction) (length where_)) as [Ep|Ep];
      [|exfalso; apply Hn; tauto].
    destruct (Nat.eq_dec (length target) (length where_)) as [Et|Et];
      [|exfalso; apply Hn; tauto].
    destruct (index_mask_ok prediction where_ Ep) as [l ->].
    destruct (index_mask_ok target where_ Et) as [l' ->].
    cbn [py_bind]. eexists; reflexivity.
Qed.

Lemma mask_eq_length (mask : list Z) (tag : Z) :
  length (mask_eq mask tag) = length mask.
Proof. apply length_map. Qed.

Lemma l1_term_aligned (w : R) (prediction target : list vec3) (mask : list Z)
  (tag : Z) :
  aligned prediction target mask ->
  exists v, l1_term w prediction target (mask_eq mask tag) = Ok v.
Proof.
  intros [Hp Ht]. apply l1_term_cases. rewrite mask_eq_length. tauto.
Qed.

Section ComposerExceptions.

Variable svd : mat3 -> mat3 * vec3 * mat3.
Variables FLAME_MASK BOUNDARY_MASK : Z.
Variables SKULL_MASK JAW_MASK SURFACE_MASK : Z.
Variable FIXED_MASK : Z.

Lemma inr_jaw_loss_aligned (self : INRModel) (prediction target : list vec3)
  (mask : list Z) :
  aligned prediction target mask ->
  exists v, inr_jaw_loss svd JAW_MASK self prediction target mask = Ok v.
Proof.
  intros [Hp Ht]. unfold inr_jaw_loss.
  destruct (Nat.ltb 2 (mask_sum (mask_eq mask JAW_MASK)));
    [|cbn [py_bind]; eexists; reflexivity].
  destruct (index_mask_ok prediction (mask_eq mask JAW_MASK)) as [p Hpi];
    [now rewrite mask_eq_length|].
  destruct (index_mask_ok target (mask_eq mask JAW_MASK)) as [t Hti];
    [now rewrite mask_eq_length|].
  rewrite Hpi, Hti. cbn [py_bind].
  rewrite procrustes_loss_pointwise
    by (rewrite (index_mask_length _ _ _ Hpi), (index_mask_length _ _ _ Hti);
        reflexivity).
  cbn [py_bind]. eexists; reflexivity.
Qed.

Lemma surface_compute_loss_aligned (surface : SurfaceINRModel)
  (prediction target : list vec3) (mask : list Z) (jacobian : list mat3) :
  aligned prediction target mask ->
  exists v, surface_compute_loss svd FLAME_MASK BOUNDARY_MASK surface
              prediction target mask jacobian = Ok v.
Proof.
  intros Hal.
  unfold surface_compute_loss, surface_flame_loss, surface_boundary_loss.
  destruct (l1_term_aligned (s_w_flame surface) _ _ _ FLAME_MASK Hal) as [a ->].
  destruct (l1_term_aligned (s_w_boundary surface) _ _ _ BOUNDARY_MASK Hal)
    as [b ->].
  cbn [py_bind]. eexists; reflexivity.
Qed.

Lemma inr_compute_loss_aligned (inr : INRModel)
  (prediction target : list vec3) (mask : list Z) (jacobian : list mat3) :
  aligned prediction target mask ->
  exists v, inr_compute_loss svd SKULL_MASK JAW_MASK SURFACE_MASK inr
              prediction target mask jacobian = Ok v.
Proof.
  intros Hal. unfold inr_compute_loss, inr_surface_loss, inr_skull_loss.
  destruct (l1_term_aligned (w_surface inr) _ _ _ SURFACE_MASK Hal) as [a ->].
  destruct (l1_term_aligned (w_skull inr) _ _ _ SKULL_MASK Hal) as [b ->].
  destruct (inr_jaw_loss_aligned inr _ _ _ Hal) as [c ->].
  cbn [py_bind]. eexists; reflexivity.
Qed.

Lemma sim_compute_loss_aligned (sim : SimulatorModel)
  (prediction target : list vec3) (mask : list Z)
  (jacobian actuations : list mat3) :
  aligned prediction target mask ->
  length jacobian = length actuations ->
  exists v, sim_compute_loss svd FIXED_MASK sim
              prediction target mask jacobian actuations = Ok v.
Proof.
  intros Hal Hja. unfold sim_compute_loss, sim_fixed_loss, sim_e_loss.
  destruct (l1_term_aligned (w_fixed sim) _ _ _ FIXED_MASK Hal) as [a ->].
  cbn [py_bind]. rewrite energy_loss_per_sample by exact Hja.
  cbn [py_bind]. eexists; reflexivity.
Qed.

(** X8.  On a batch whose prediction and target have one row per entry of
    the mask, no variant of [compute_loss] raises (for the simulator the
    Jacobians and the actuations must come in equal numbers; if they do
    not, the exception is the [RuntimeError] of [th.bmm]).  The assertion
    inside [procrustes_loss] can never fail from [INRModel.compute_loss]. *)
Theorem compute_loss_never_raises_when_aligned
  (surface : SurfaceINRModel) (inr : INRModel) (sim : SimulatorModel)
  (prediction target : list vec3) (mask : list Z)
  (jacobian actuations : list mat3) :
  aligned prediction target mask ->
  (exists v, surface_compute_loss svd FLAME_MASK BOUNDARY_MASK surface
               prediction target mask jacobian = Ok v) /\
  (exists v, inr_compute_loss svd SKULL_MASK JAW_MASK SURFACE_MASK inr
               prediction target mask jacobian = Ok v) /\
  (length jacobian = length actuations ->
   exists v, sim_compute_loss svd FIXED_MASK sim
               prediction target mask jacobian actuations = Ok v) /\
  (length jacobian <> length actuations ->
   sim_compute_loss svd FIXED_MASK sim
     prediction target mask jacobian actuations = Raise RuntimeError).
Proof.
  intros Hal.
  split; [|split; [|split]].
  - now apply surface_compute_loss_aligned.
  - now apply inr_compute_loss_aligned.
  - intros Hja. now apply sim_compute_loss_aligned.
  - intros Hja. unfold sim_compute_loss, sim_fixed_loss, sim_e_loss.
    destruct (l1_term_aligned (w_fixed sim) _ _ _ FIXED_MASK Hal) as [a ->].
    cbn [py_bind]. unfold energy_loss.
    destruct (Nat.eqb_spec (length jacobian) (length actuations));
      [contradiction | reflexivity].
Qed.

(** X9.  When the prediction or the target has another number of rows
    than the mask, a variant raises [IndexError] as soon as the region of
    its first regression term (FLAME, SURFACE, FIXED) has a member; with
    all regions of the surface variant empty the mismatch goes unnoticed
    and the loss is returned. *)
Theorem compute_loss_index_error_on_misaligned_region
  (surface : SurfaceINRModel) (inr : INRModel) (sim : SimulatorModel)
  (prediction target : list vec3) (mask : list Z)
  (jacobian actuations : list mat3) :
  length prediction <> length mask \/ length target <> length mask ->
  ((0 < mask_sum (mask_eq mask FLAME_MASK))%nat ->
   surface_compute_loss svd FLAME_MASK BOUNDARY_MASK surface
     prediction target mask jacobian = Raise IndexError) /\
  ((0 < mask_sum (mask_eq mask SURFACE_MASK))%nat ->
   inr_compute_loss svd SKULL_MASK JAW_MASK SURFACE_MASK inr
     prediction target mask jacobian = Raise IndexError) /\
  ((0 < mask_sum (mask_eq mask FIXED_MASK))%nat ->
   sim_compute_loss svd FIXED_MASK sim
     prediction target mask jacobian actuations = Raise IndexError) /\
  (mask_sum (mask_eq mask FLAME_MASK) = 0%nat ->
   mask_sum (mask_eq mask BOUNDARY_MASK) = 0%nat ->
   exists v, surface_compute_loss svd FLAME_MASK BOUNDARY_MASK surface
               prediction target mask jacobian = Ok v).
Proof.
  intros Hmis.
  assert (Hraise : forall w tag, (0 < mask_sum (mask_eq mask tag))%nat ->
             l1_term w prediction target (mask_eq mask tag) = Raise IndexError).
  { intros w tag Hpos. apply l1_term_cases. rewrite mask_eq_length. tauto. }
  split; [|split; [|split]].
  - intros Hpos. unfold surface_compute_loss, surface_flame_loss.
    now rewrite Hraise.
  - intros Hpos. unfold inr_compute_loss, inr_surface_loss. now rewrite Hraise.
  - intros Hpos. unfold sim_compute_loss, sim_fixed_loss. now rewrite Hraise.
  - intros Hf Hb.
    unfold surface_compute_loss, surface_flame_loss, surface_boundary_loss.
    rewrite !l1_term_empty by assumption. cbn [py_bind]. eexists; reflexivity.
Qed.

End ComposerExceptions.

(** Two samples, the first tagged 1 and the second 2; no Jacobian agrees
    in number with the single actuation. *)
Lemma compute_loss_never_raises_when_aligned_witness :
  aligned [V3 0 0 0; V3 1 0 0] [V3 0 1 0; V3 1 1 0] [1%Z; 2%Z] /\
  (exists v, inr_compute_loss svd_diagonal 0 1 2 (Build_INRModel (1/50) 1 2 10)
               [V3 0 0 0; V3 1 0 0] [V3 0 1 0; V3 1 1 0] [1%Z; 2%Z] [eye; eye]
             = Ok v) /\
  sim_compute_loss svd_diagonal 7 (Build_SimulatorModel (1/2) 2)
    [V3 0 0 0; V3 1 0 0] [V3 0 1 0; V3 1 1 0] [1%Z; 2%Z] [eye; eye] [eye]
  = Raise RuntimeError.
Proof.
  assert (Hal : aligned [V3 0 0 0; V3 1 0 0] [V3 0 1 0; V3 1 1 0] [1%Z; 2%Z])
    by (split; reflexivity).
  pose proof (compute_loss_never_raises_when_aligned svd_diagonal 5 6 0 1 2 7
                (Build_SurfaceINRModel (1/50) 1 1) (Build_INRModel (1/50) 1 2 10)
                (Build_SimulatorModel (1/2) 2)
                [V3 0 0 0; V3 1 0 0] [V3 0 1 0; V3 1 1 0] [1%Z; 2%Z]
                [eye; eye] [eye] Hal)
    as (_ & Hinr & _ & Hsim).
  split; [exact Hal|]. split; [exact Hinr|].
  apply Hsim. simpl. lia.
Defined.

(** A target with one row too few, and a mask holding the tags 5, 2 and 7. *)
Lemma compute_loss_index_error_on_misaligned_region_witness :
  (length [V3 0 0 0; V3 1 0 0] <> length [5%Z; 2%Z]
   \/ length [V3 0 1 0] <> length [5%Z; 2%Z]) /\
  surface_compute_loss svd_diagonal 5 6 (Build_SurfaceINRModel (1/50) 1 1)
    [V3 0 0 0; V3 1 0 0] [V3 0 1 0] [5%Z; 2%Z] [eye; eye]
  = Raise IndexError /\
  inr_compute_loss svd_diagonal 0 1 2 (Build_INRModel (1/50) 1 2 10)
    [V3 0 0 0; V3 1 0 0] [V3 0 1 0] [5%Z; 2%Z] [eye; eye]
  = Raise IndexError.
Proof.
  assert (Hmis : length [V3 0 0 0; V3 1 0 0] <> length [5%Z; 2%Z]
                 \/ length [V3 0 1 0] <> length [5%Z; 2%Z])
    by (right; simpl; lia).
  pose proof (compute_loss_index_error_on_misaligned_region
                svd_diagonal 5 6 0 1 2 7
                (Build_SurfaceINRModel (1/50) 1 1) (Build_INRModel (1/50) 1 2 10)
                (Build_SimulatorModel (1/2) 2)
                [V3 0 0 0; V3 1 0 0] [V3 0 1 0] [5%Z; 2%Z]
                [eye; eye] [eye; eye] Hmis)
    as (Hsurf & Hinr & _ & _).
  split; [exact Hmis|]. split.
  - apply Hsurf. vm_compute. lia.
  - apply Hinr. vm_compute. lia.
Defined.

Lemma Ok_inj {A : Type} (a b : A) : Ok a = Ok b -> a = b.
Proof. congruence. Qed.

Lemma xnonneg_zero : xnonneg (Some 0).
Proof. intros r [= <-]. lra. Qed.

Lemma xnonneg_tmean (l : list R) :
  Forall (fun x => 0 <= x) l -> xnonneg (tmean l).
Proof. intros Hl r Hr. eapply tmean_nonneg; eassumption. Qed.

Lemma xnonneg_xmul (a : xR) (w : R) :
  xnonneg a -> 0 <= w -> xnonneg (xmul a (Some w)).
Proof.
  intros Ha Hw r. destruct a as [x|]; [|discriminate]. cbn.
  intros [= <-]. apply Rmult_le_pos; [now apply Ha | exact Hw].
Qed.

Lemma xnonneg_xadd (a b : xR) : xnonneg a -> xnonneg b -> xnonneg (xadd a b).
Proof.
  intros Ha Hb r. destruct a as [x|]; [|discriminate].
  destruct b as [y|]; [|discriminate]. cbn. intros [= <-].
  pose proof (Ha x eq_refl). pose proof (Hb y eq_refl). lra.
Qed.

Lemma l1_loss_nonneg (a b : list vec3) : xnonneg (l1_loss a b).
Proof.
  apply xnonneg_tmean. apply Forall_concat.
  revert b. induction a as [|p a IH]; intros [|q b]; cbn [map2];
    try (now constructor).
  constructor; [|apply IH]. unfold abs_entries.
  constructor; [apply Rabs_pos|]. constructor; [apply Rabs_pos|].
  constructor; [apply Rabs_pos|]. constructor.
Qed.

Lemma l1_term_nonneg (w : R) (prediction target : list vec3) (where_ : list bool)
  (v : xR) :
  0 <= w -> l1_term w prediction target where_ = Ok v -> xnonneg v.
Proof.
  intros Hw. unfold l1_term.
  destruct (Nat.ltb 0 (mask_sum where_)).
  - destruct (index_mask prediction where_) as [p|]; [|discriminate].
    destruct (index_mask target where_) as [t|]; [|discriminate].
    cbn [py_bind]. intros H. apply Ok_inj in H. subst v.
    apply xnonneg_xmul; [apply l1_loss_nonneg | exact Hw].
  - cbn [py_bind]. intros H. apply Ok_inj in H. subst v.
    apply xnonneg_xmul; [apply xnonneg_zero | exact Hw].
Qed.

Lemma procrustes_loss_nonneg (svd : mat3 -> mat3 * vec3 * mat3)
  (S1 S2 : list vec3) (v : xR) :
  procrustes_loss svd S1 S2 = Ok v -> xnonneg v.
Proof.
  unfold procrustes_loss.
  destruct (negb _); [discriminate|]. intros H. apply Ok_inj in H. subst v.
  destruct (procrustes_rotation_of _ _ _) as [fit|]; [|intros r; discriminate].
  cbn [xbind]. destruct (xdiv _ _) as [scale|]; [|intros r; discriminate].
  cbn [xbind]. apply xnonneg_tmean. apply Forall_map, Forall_forall.
  intros x _. apply sqrt_pos.
Qed.

Lemma deformation_loss_nonneg (svd : mat3 -> mat3 * vec3 * mat3)
  (jacobian : list mat3) : xnonneg (deformation_loss svd jacobian).
Proof.
  unfold deformation_loss. apply xnonneg_tmean, Forall_map, Forall_forall.
  intros x _. apply sqrt_pos.
Qed.

Lemma energy_loss_nonneg (svd : mat3 -> mat3 * vec3 * mat3)
  (jacobian actuations : list mat3) (v : xR) :
  energy_loss svd jacobian actuations = Ok v -> xnonneg v.
Proof.
  unfold energy_loss. destruct (negb _); [discriminate|].
  intros H. apply Ok_inj in H. subst v.
  apply xnonneg_tmean, Forall_map, Forall_forall. intros x _. apply sqrt_pos.
Qed.

Lemma map2_diag {A C : Type} (f : A -> A -> C) (l : list A) :
  map2 f l l = map (fun a => f a a) l.
Proof. induction l as [|a l IH]; simpl; [reflexivity | now rewrite IH]. Qed.

Lemma l1_loss_self (p : list vec3) : p <> [] -> l1_loss p p = Some 0.
Proof.
  intros Hne. unfold l1_loss. apply tmean_const.
  - destruct p; [contradiction | discriminate].
  - apply Forall_concat. rewrite map2_diag.
    apply Forall_map, Forall_forall. intros x _. unfold abs_entries.
    assert (Hz : forall v : R, Rabs (v - v) = 0)
      by (intros v; rewrite <- Rabs_R0; f_equal; ring).
    constructor; [apply Hz|]. constructor; [apply Hz|].
    constructor; [apply Hz|]. constructor.
Qed.

Lemma l1_term_self (w : R) (x : list vec3) (where_ : list bool) :
  length x = length where_ -> l1_term w x x where_ = Ok (Some 0).
Proof.
  intros E. unfold l1_term.
  destruct (Nat.ltb_spec 0 (mask_sum where_)) as [Hpos|_].
  - destruct (index_mask_ok x where_ E) as [p Hp]. rewrite Hp. cbn [py_bind].
    rewrite l1_loss_self.
    + now rewrite xmul_zero_l.
    + apply index_mask_length in Hp. intros ->. simpl in Hp. lia.
  - cbn [py_bind]. now rewrite xmul_zero_l.
Qed.

Section ComposerValues.

Variable svd : mat3 -> mat3 * vec3 * mat3.
Variables FLAME_MASK BOUNDARY_MASK : Z.
Variables SKULL_MASK JAW_MASK SURFACE_MASK : Z.
Variable FIXED_MASK : Z.

(** X10.  With non-negative weights no variant of [compute_loss] returns
    a negative loss. *)
Theorem compute_loss_nonnegative
  (surface : SurfaceINRModel) (inr : INRModel) (sim : SimulatorModel)
  (prediction target : list vec3) (mask : list Z)
  (jacobian actuations : list mat3) (r : R) :
  0 <= s_w_deformation surface -> 0 <= s_w_flame surface ->
  0 <= s_w_boundary surface ->
  0 <= w_deformation inr -> 0 <= w_jaw inr -> 0 <= w_skull inr ->
  0 <= w_surface inr ->
  0 <= w_energy sim -> 0 <= w_fixed sim ->
  (surface_compute_loss svd FLAME_MASK BOUNDARY_MASK surface
     prediction target mask jacobian = Ok (Some r) -> 0 <= r) /\
  (inr_compute_loss svd SKULL_MASK JAW_MASK SURFACE_MASK inr
     prediction target mask jacobian = Ok (Some r) -> 0 <= r) /\
  (sim_compute_loss svd FIXED_MASK sim
     prediction target mask jacobian actuations = Ok (Some r) -> 0 <= r).
Proof.
  intros Hsd Hsf Hsb Hid Hij Hik His Hme Hmf.
  split; [|split].
  - unfold surface_compute_loss, surface_flame_loss, surface_boundary_loss,
      surface_def_loss.
    destruct (l1_term _ _ _ (mask_eq mask FLAME_MASK)) as [a|] eqn:Ea;
      [|discriminate].
    destruct (l1_term _ _ _ (mask_eq mask BOUNDARY_MASK)) as [b|] eqn:Eb;
      [|discriminate].
    cbn [py_bind]. intros H. apply Ok_inj in H. revert r H.
    apply xnonneg_xadd; [apply xnonneg_xadd|].
    + eapply l1_term_nonneg; [|exact Ea]; assumption.
    + eapply l1_term_nonneg; [|exact Eb]; assumption.
    + apply xnonneg_xmul; [apply deformation_loss_nonneg | assumption].
  - unfold inr_compute_loss, inr_surface_loss, inr_skull_loss, inr_def_loss.
    destruct (l1_term _ _ _ (mask_eq mask SURFACE_MASK)) as [a|] eqn:Ea;
      [|discriminate].
    destruct (l1_term _ _ _ (mask_eq mask SKULL_MASK)) as [b|] eqn:Eb;
      [|discriminate].
    destruct (inr_jaw_loss svd JAW_MASK inr prediction target mask) as [c|] eqn:Ec;
      [|discriminate].
    cbn [py_bind]. intros H. apply Ok_inj in H. revert r H.
    apply xnonneg_xadd; [apply xnonneg_xadd; [apply xnonneg_xadd|]|].
    + eapply l1_term_nonneg; [|exact Ea]; assumption.
    + eapply l1_term_nonneg; [|exact Eb]; assumption.
    + unfold inr_jaw_loss in Ec.
      destruct (Nat.ltb 2 _).
      * destruct (index_mask prediction _) as [p|]; [|discriminate].
        destruct (index_mask target _) as [t|]; [|discriminate].
        cbn [py_bind] in Ec.
        destruct (procrustes_loss svd p t) as [l|] eqn:El; [|discriminate].
        cbn [py_bind] in Ec. apply Ok_inj in Ec. subst c.
        apply xnonneg_xmul; [eapply procrustes_loss_nonneg; exact El | assumption].
      * cbn [py_bind] in Ec. apply Ok_inj in Ec. subst c.
        apply xnonneg_xmul; [apply xnonneg_zero | assumption].
    + apply xnonneg_xmul; [apply deformation_loss_nonneg | assumption].
  - unfold sim_compute_loss, sim_fixed_loss, sim_e_loss.
    destruct (l1_term _ _ _ (mask_eq mask FIXED_MASK)) as [a|] eqn:Ea;
      [|discriminate].
    destruct (energy_loss svd jacobian actuations) as [e|] eqn:Ee; [|discriminate].
    cbn [py_bind]. intros H. apply Ok_inj in H. revert r H.
    apply xnonneg_xadd.
    + eapply l1_term_nonneg; [|exact Ea]; assumption.
    + apply xnonneg_xmul; [eapply energy_loss_nonneg; exact Ee | assumption].
Qed.

(** X11.  A prediction equal to the target costs nothing in the
    regression terms: the surface loss is then the weighted deformation
    loss alone, and the simulator loss the weighted energy alone. *)
Theorem perfect_fit_leaves_the_regularizer
  (surface : SurfaceINRModel) (sim : SimulatorModel)
  (x : list vec3) (mask : list Z) (jacobian actuations : list mat3) :
  length x = length mask ->
  surface_compute_loss svd FLAME_MASK BOUNDARY_MASK surface x x mask jacobian
  = Ok (xmul (deformation_loss svd jacobian) (Some (s_w_deformation surface))) /\
  sim_compute_loss svd FIXED_MASK sim x x mask jacobian actuations
  = py_bind (energy_loss svd jacobian actuations)
            (fun e => Ok (xmul e (Some (w_energy sim)))).
Proof.
  intros E. split.
  - unfold surface_compute_loss, surface_flame_loss, surface_boundary_loss,
      surface_def_loss.
    rewrite !l1_term_self by (now rewrite mask_eq_length). cbn [py_bind].
    f_equal. destruct (deformation_loss svd jacobian) as [d|]; [|reflexivity].
    cbn. f_equal. ring.
  - unfold sim_compute_loss, sim_fixed_loss, sim_e_loss.
    rewrite l1_term_self by (now rewrite mask_eq_length). cbn [py_bind].
    destruct (energy_loss svd jacobian actuations) as [e|]; [|reflexivity].
    cbn [py_bind]. f_equal. destruct e as [ev|]; [|reflexivity].
    cbn. f_equal. ring.
Qed.

End ComposerValues.

(** The weights of the training scripts, on one misfitted FLAME sample. *)
Lemma compute_loss_nonnegative_witness :
  surface_compute_loss svd_diagonal 5 6 (Build_SurfaceINRModel (1/50) 1 1)
    [V3 3 0 0] [V3 0 0 0] [5%Z] [eye] = Ok (Some 1) /\ 0 <= 1.
Proof.
  assert (E : surface_compute_loss svd_diagonal 5 6
                (Build_SurfaceINRModel (1/50) 1 1)
                [V3 3 0 0] [V3 0 0 0] [5%Z] [eye] = Ok (Some 1)).
  { unfold surface_compute_loss, surface_flame_loss, surface_boundary_loss,
      surface_def_loss, l1_term, index_mask.
    rewrite (deformation_loss_single svd_diagonal eye).
    unfold def_residual. rewrite (closest_rotation_svd_diagonal eye).
    rewrite matrix_norm_self.
    cbn [mask_eq map Z.eqb Pos.eqb mask_sum filter length Nat.ltb Nat.leb
         Nat.eqb combine py_bind fst snd s_w_flame s_w_boundary s_w_deformation].
    unfold l1_loss, abs_entries, tmean.
    cbn [map2 concat map app length tsum fold_right vx vy vz xmul xadd].
    replace (3 - 0) with 3 by ring. replace (0 - 0) with 0 by ring.
    rewrite Rabs_R0, (Rabs_pos_eq 3) by lra. simpl INR.
    cbn [xmul xadd xbind]. do 2 f_equal. field. }
  split; [exact E|].
  refine (proj1 (compute_loss_nonnegative svd_diagonal 5 6 0 1 2 7
                   (Build_SurfaceINRModel (1/50) 1 1)
                   (Build_INRModel (1/50) 1 2 10) (Build_SimulatorModel (1/2) 2)
                   [V3 3 0 0] [V3 0 0 0] [5%Z] [eye] [eye] 1
                   _ _ _ _ _ _ _ _ _) E); simpl; lra.
Defined.

(** A two-row batch fitted exactly. *)
Lemma perfect_fit_leaves_the_regularizer_witness :
  length [V3 0 0 0; V3 1 0 0] = length [5%Z; 7%Z] /\
  surface_compute_loss svd_diagonal 5 6 (Build_SurfaceINRModel (1/50) 1 1)
    [V3 0 0 0; V3 1 0 0] [V3 0 0 0; V3 1 0 0] [5%Z; 7%Z] [eye; eye]
  = Ok (xmul (deformation_loss svd_diagonal [eye; eye]) (Some (1/50))).
Proof.
  split; [reflexivity|].
  exact (proj1 (perfect_fit_leaves_the_regularizer svd_diagonal 5 6 7
                  (Build_SurfaceINRModel (1/50) 1 1) (Build_SimulatorModel (1/2) 2)
                  [V3 0 0 0; V3 1 0 0] [5%Z; 7%Z] [eye; eye] [eye; eye]
                  eq_refl)).
Defined.

(** ** The epoch loop: value, short datasets, exceptions *)

Lemma fold_batch_step_raise {B Model : Type} {D : Type} {DL : DatasetLike D B}
  (process_batch : Model -> B -> py xR) (optimizer_step : Model -> B -> Model)
  (bs : list B) (e : exn) :
  fold_left (batch_step Model process_batch optimizer_step) bs (Raise e) = Raise e.
Proof. induction bs as [|b bs IH]; [reflexivity | exact IH]. Qed.

Section EpochValue.

Context {D B : Type} {DL : DatasetLike D B}.
Variable Model : Type.
Variable prepare_for_epoch : D -> D.
Variable process_batch : Model -> B -> py xR.
Variable optimizer_step : Model -> B -> Model.

Lemma visited_batches_count (dataset : D) (batch_size : nat) :
  (0 < batch_size)%nat ->
  exists bs, visited_batches prepare_for_epoch dataset batch_size = Ok bs
             /\ length bs = Nat.max (ds_len dataset / batch_size) 1.
Proof.
  intros HB. unfold visited_batches, num_batches.
  destruct batch_size as [|k]; [lia|]. unfold py_bind.
  eexists; split; [reflexivity|]. now rewrite length_map, length_seq.
Qed.

Lemma batch_losses_total_on (self : Model) (bs : list B) :
  (forall m b, In b bs -> exists l, process_batch m b = Ok l) ->
  exists ls, batch_losses Model process_batch optimizer_step self bs = Ok ls
             /\ length ls = length bs.
Proof.
  revert self. induction bs as [|b bs IH]; intros self Htot.
  - exists []. split; reflexivity.
  - cbn [batch_losses]. destruct (Htot self b (or_introl eq_refl)) as [l ->].
    cbn [py_bind].
    destruct (IH (optimizer_step self b)) as (ls & -> & Hlen).
    { intros m b' Hin. apply Htot. now right. }
    cbn [py_bind].
    exists (l :: ls). split; [reflexivity | simpl; now rewrite Hlen].
Qed.

Lemma batch_losses_total (self : Model) (bs : list B) :
  (forall m b, exists l, process_batch m b = Ok l) ->
  exists ls, batch_losses Model process_batch optimizer_step self bs = Ok ls
             /\ length ls = length bs.
Proof. intros Htot. apply batch_losses_total_on. intros m b _. apply Htot. Qed.

(** When [process_batch] accepts every batch that satisfies [good], and
    every slice of the prepared dataset does, the epoch returns the mean
    of its batch losses. *)
Lemma train_epoch_total_on (good : B -> Prop) (c : nat)
  (self : Model) (dataset : D) (batch_size : nat) :
  (0 < c)%nat -> (forall b : B, batch_len b = c) ->
  (0 < batch_size)%nat ->
  (forall i, (i < Nat.max (ds_len dataset / batch_size) 1)%nat ->
             good (batch_at (prepare_for_epoch dataset) batch_size i)) ->
  (forall m b, good b -> exists l, process_batch m b = Ok l) ->
  exists ls,
    length ls = Nat.max (ds_len dataset / batch_size) 1 /\
    train_epoch Model prepare_for_epoch process_batch optimizer_step
                self dataset batch_size
    = Ok (xbind (xsum ls) (fun s => Some (s / INR (length ls)))).
Proof.
  intros Hc Hlen HB Hgood Htot.
  destruct (visited_batches_count dataset batch_size HB) as (bs & Hbs & Hn).
  destruct (batch_losses_total_on self bs) as (ls & Hls & Hll).
  { intros m b Hin. apply Htot.
    unfold visited_batches, num_batches in Hbs.
    destruct batch_size as [|k]; [lia|]. unfold py_bind in Hbs.
    assert (Hbs' : map (batch_at (prepare_for_epoch dataset) (S k))
                       (seq 0 (Nat.max (ds_len dataset / S k) 1)) = bs)
      by congruence.
    rewrite <- Hbs' in Hin. apply in_map_iff in Hin.
    destruct Hin as (i & <- & Hi). apply Hgood. apply in_seq in Hi. lia. }
  exists ls. split; [congruence|]. rewrite Hll.
  now apply (train_epoch_mean_of_batch_losses Model prepare_for_epoch
               process_batch optimizer_step c Hlen self dataset batch_size bs ls).
Qed.

(** X12.  For a positive batch size, batches whose [len] is a positive
    constant (the tuples of the dataset classes) and a [process_batch]
    that does not raise, [train_epoch] does not raise either -- not even
    on an empty dataset -- and returns the plain mean of the losses of the
    [max(len(dataset) // batch_size, 1)] batches, each loss computed with
    the model as updated by the batches before it. *)
Theorem train_epoch_returns_mean_batch_loss
  (c : nat) (self : Model) (dataset : D) (batch_size : nat) :
  (0 < c)%nat -> (forall b : B, batch_len b = c) ->
  (0 < batch_size)%nat ->
  (forall m b, exists l, process_batch m b = Ok l) ->
  exists bs ls,
    visited_batches prepare_for_epoch dataset batch_size = Ok bs /\
    length bs = Nat.max (ds_len dataset / batch_size) 1 /\
    batch_losses Model process_batch optimizer_step self bs = Ok ls /\
    length ls = length bs /\
    train_epoch Model prepare_for_epoch process_batch optimizer_step
                self dataset batch_size
    = Ok (xbind (xsum ls) (fun s => Some (s / INR (length bs)))).
Proof.
  intros Hc Hlen HB Htot.
  destruct (visited_batches_count dataset batch_size HB) as (bs & Hbs & Hn).
  destruct (batch_losses_total self bs Htot) as (ls & Hls & Hll).
  exists bs, ls. repeat split; try assumption.
  now apply (train_epoch_mean_of_batch_losses Model prepare_for_epoch
               process_batch optimizer_step c Hlen self dataset batch_size bs ls).
Qed.

(** X13.  The first batch on which [process_batch] raises ends the epoch:
    [train_epoch] raises that very exception, whatever the batches after
    it would have done. *)
Theorem train_epoch_raises_first_failure
  (self : Model) (dataset : D) (batch_size : nat)
  (bs1 bs2 : list B) (b : B) (ls : list xR) (e : exn) :
  visited_batches prepare_for_epoch dataset batch_size = Ok (bs1 ++ b :: bs2) ->
  batch_losses Model process_batch optimizer_step self bs1 = Ok ls ->
  process_batch (model_after optimizer_step self bs1) b = Raise e ->
  train_epoch Model prepare_for_epoch process_batch optimizer_step
              self dataset batch_size = Raise e.
Proof.
  intros Hbs Hls Hfail. unfold train_epoch.
  rewrite train_loop_visited, Hbs. cbn [py_bind].
  rewrite fold_left_app.
  assert (Hpre : forall (l : list B) (a0 : accumulators Model) (ls0 : list xR),
             batch_losses Model process_batch optimizer_step (acc_model Model a0) l
             = Ok ls0 ->
             exists a1,
               fold_left (batch_step Model process_batch optimizer_step) l (Ok a0)
               = Ok a1
               /\ acc_model Model a1
                  = model_after optimizer_step (acc_model Model a0) l).
  { induction l as [|b0 l IH]; intros a0 ls0 H0.
    - exists a0. split; reflexivity.
    - cbn [batch_losses] in H0.
      destruct (process_batch (acc_model Model a0) b0) as [l0|] eqn:E0;
        [|discriminate].
      cbn [py_bind] in H0.
      destruct (batch_losses Model process_batch optimizer_step
                  (optimizer_step (acc_model Model a0) b0) l) as [ls1|] eqn:E1;
        [|discriminate].
      cbn [fold_left]. unfold batch_step at 2. cbn [py_bind]. rewrite E0.
      cbn [py_bind].
      match goal with
      | |- context [fold_left _ l (Ok ?a)] =>
          destruct (IH a ls1 E1) as (a1 & Ha1 & Hm1)
      end.
      exists a1. split; [exact Ha1|]. rewrite Hm1. reflexivity. }
  destruct (Hpre bs1 {| acc_model := self; total_loss := Some 0;
                        total_samples := 0 |} ls Hls) as (a1 & Ha1 & Hm1).
  rewrite Ha1. cbn [fold_left]. unfold batch_step at 2. cbn [py_bind].
  rewrite Hm1. cbn [acc_model]. rewrite Hfail. cbn [py_bind].
  now rewrite fold_batch_step_raise.
Qed.

End EpochValue.

Section SingleBatch.

Context {D B : Type} {DL : DatasetLike D B}.
Variable Model : Type.
Variable prepare_for_epoch : D -> D.
Variable process_batch : Model -> B -> py xR.
Variable optimizer_step : Model -> B -> Model.

(** An epoch of one batch returns the loss of that batch. *)
Lemma single_batch_epoch (self : Model) (dataset : D) (batch_size : nat) (b : B) :
  visited_batches prepare_for_epoch dataset batch_size = Ok [b] ->
  (0 < batch_len b)%nat ->
  train_epoch Model prepare_for_epoch process_batch optimizer_step
              self dataset batch_size
  = process_batch self b.
Proof.
  intros Hbs Hlen. unfold train_epoch. rewrite train_loop_visited, Hbs.
  cbn [py_bind fold_left]. unfold batch_step. cbn [py_bind acc_model].
  destruct (process_batch self b) as [l|e]; [|reflexivity].
  cbn [py_bind total_loss total_samples Nat.add]. unfold float_div_int.
  destruct (batch_len b) as [|n] eqn:En; [lia|].
  destruct l as [x|]; [|reflexivity]. cbn [xmul xadd xbind].
  assert (INR (S n) <> 0) by (apply not_0_INR; discriminate).
  replace ((0 + x * INR (S n)) / INR (S n)) with x by now field.
  reflexivity.
Qed.

End SingleBatch.

Lemma slice_whole {A : Type} (l : list A) (B : nat) :
  (length l <= B)%nat -> slice l (0 * B) ((0 + 1) * B) = l.
Proof.
  intros H. unfold slice. cbn [Nat.mul Nat.add skipn].
  rewrite Nat.add_0_r, Nat.sub_0_r. now apply firstn_all2.
Qed.

Lemma single_batch_count (L B : nat) :
  (0 < B)%nat -> (L < 2 * B)%nat -> Nat.max (L / B) 1 = 1%nat.
Proof.
  intros HB HL.
  assert (L / B < 2)%nat by (apply Nat.Div0.div_lt_upper_bound; lia). lia.
Qed.

(** X14.  A dataset with fewer than twice [batch_size] samples is visited
    in one batch; when it has at most [batch_size] samples that batch is
    the whole prepared dataset, truncated by the slice, and [train_epoch]
    returns (or raises) exactly what [process_batch] does on it. *)
Theorem short_dataset_is_one_batch
  (Model : Type) (prepare_for_epoch : INRDataset -> INRDataset)
  (process_batch : Model -> batch3 -> py xR)
  (optimizer_step : Model -> batch3 -> Model)
  (self : Model) (dataset : INRDataset) (batch_size : nat) :
  let dataset' := prepare_for_epoch dataset in
  (0 < batch_size)%nat ->
  (ds_len dataset < 2 * batch_size)%nat ->
  (length (inr_inputs dataset') <= batch_size)%nat ->
  (length (inr_mask dataset') <= batch_size)%nat ->
  (length (inr_target dataset') <= batch_size)%nat ->
  visited_batches prepare_for_epoch dataset batch_size
  = Ok [(inr_inputs dataset', inr_mask dataset', inr_target dataset')] /\
  train_epoch Model prepare_for_epoch process_batch optimizer_step
              self dataset batch_size
  = process_batch self
      (inr_inputs dataset', inr_mask dataset', inr_target dataset').
Proof.
  intros dataset' HB HL Hi Hm Ht.
  assert (Hv : visited_batches prepare_for_epoch dataset batch_size
               = Ok [(inr_inputs dataset', inr_mask dataset', inr_target dataset')]).
  { unfold visited_batches, num_batches.
    destruct batch_size as [|k]; [lia|]. unfold py_bind.
    cbn [ds_len INRDataset_like] in HL |- *.
    rewrite (single_batch_count _ _ HB HL). cbn [seq map]. unfold batch_at.
    cbn [ds_getitem INRDataset_like]. fold dataset'.
    now rewrite !slice_whole by assumption. }
  split; [exact Hv|].
  apply (single_batch_epoch Model prepare_for_epoch process_batch optimizer_step
           self dataset batch_size _ Hv).
  cbn [batch_len INRDataset_like]. lia.
Qed.

(** ** Concrete epochs *)

(** Four samples in batches of two, the loss being the first coordinate of
    the first input of the batch. *)
Lemma train_epoch_returns_mean_batch_loss_witness :
  exists bs ls,
    visited_batches (fun d => d) four_samples 2 = Ok bs /\
    length bs = Nat.max (ds_len four_samples / 2) 1 /\
    batch_losses unit first_coordinate_loss keep_model tt bs = Ok ls /\
    length ls = length bs /\
    train_epoch unit (fun d => d) first_coordinate_loss keep_model tt
                four_samples 2
    = Ok (xbind (xsum ls) (fun s => Some (s / INR (length bs)))).
Proof.
  apply (train_epoch_returns_mean_batch_loss unit (fun d => d)
           first_coordinate_loss keep_model 3 tt four_samples 2).
  - lia.
  - reflexivity.
  - lia.
  - intros m b. unfold first_coordinate_loss.
    destruct (fst (fst b)); eexists; reflexivity.
Defined.

(** Four samples with a batch size of five: one batch, all four rows. *)
Lemma short_dataset_is_one_batch_witness :
  visited_batches (fun d => d) four_samples 5
  = Ok [(inr_inputs four_samples, inr_mask four_samples, inr_target four_samples)]
  /\
  train_epoch unit (fun d => d) first_coordinate_loss keep_model tt four_samples 5
  = first_coordinate_loss tt
      (inr_inputs four_samples, inr_mask four_samples, inr_target four_samples).
Proof.
  apply (short_dataset_is_one_batch unit (fun d => d)
           first_coordinate_loss keep_model tt four_samples 5);
    simpl; lia.
Defined.

(** ** The Fourier encoding: norm and period *)

Lemma tsum_sq_app (a b : list R) :
  sum_squares (a ++ b) = sum_squares a + sum_squares b.
Proof. unfold sum_squares. now rewrite map_app, tsum_app. Qed.

Lemma sum_squares_encode_scalar (F : nat) (x : R) :
  sum_squares (encode_scalar F x) = INR F.
Proof.
  unfold encode_scalar. rewrite tsum_sq_app. unfold sum_squares.
  rewrite <- (frequencies_length F) at 3.
  induction (frequencies F) as [|f fs IH]; [simpl; lra|].
  cbn [map tsum fold_right length] in *. rewrite S_INR.
  pose proof (sin2_cos2 (f * x)) as H. unfold Rsqr in H.
  unfold tsum in IH. lra.
Qed.

Lemma sum_squares_encoded_row (F : nat) (row : list R) :
  sum_squares (concat (map (encode_scalar F) row)) = INR (length row) * INR F.
Proof.
  induction row as [|x row IH]; [simpl; unfold sum_squares; simpl; lra|].
  cbn [map concat length]. rewrite tsum_sq_app, IH, sum_squares_encode_scalar, S_INR.
  ring.
Qed.

(** X16.  Every row produced by [fourier_encode] has the same Euclidean
    norm whatever the coordinates are: its squares add up to
    [D * fourier_features] for a row of [D] coordinates (each frequency
    contributes [sin^2 + cos^2 = 1]). *)
Theorem fourier_encoded_rows_have_constant_norm (self : BaseModel) (x : list (list R)) :
  x <> [] ->
  exists rows,
    fourier_encode self x = Ok rows /\
    Forall2 (fun row enc =>
               sum_squares enc = INR (length row) * INR (fourier_features self))
            x rows.
Proof.
  intros Hx. unfold fourier_encode. destruct x as [|r0 x']; [contradiction|].
  eexists; split; [reflexivity|].
  generalize (r0 :: x'). intros l. induction l as [|r l IH]; constructor.
  - apply sum_squares_encoded_row.
  - exact IH.
Qed.

Lemma fourier_encoded_rows_have_constant_norm_witness :
  exists rows,
    fourier_encode (Build_BaseModel 3 3 3 32 false true 10) [[0; 1/2; 7]] = Ok rows /\
    Forall2 (fun row enc => sum_squares enc = INR (length row) * INR 10)
            [[0; 1/2; 7]] rows.
Proof.
  apply (fourier_encoded_rows_have_constant_norm
           (Build_BaseModel 3 3 3 32 false true 10) [[0; 1/2; 7]]).
  discriminate.
Defined.

Lemma frequency_shift (k n : nat) (x : R) :
  PI * 2 ^ k * (x + 2 * INR n) = PI * 2 ^ k * x + 2 * INR (2 ^ k * n) * PI.
Proof.
  rewrite mult_INR, pow_INR. change (INR 2) with 2. ring.
Qed.

Lemma encode_scalar_shift (F n : nat) (x : R) :
  encode_scalar F (x + 2 * INR n) = encode_scalar F x.
Proof.
  unfold encode_scalar, frequencies. rewrite !map_map. f_equal.
  - apply map_ext. intros k. rewrite frequency_shift. apply sin_period.
  - apply map_ext. intros k. rewrite frequency_shift. apply cos_period.
Qed.

Lemma encode_scalar_even_shift (F : nat) (a b : R) :
  even_shift a b -> encode_scalar F a = encode_scalar F b.
Proof.
  intros [n [-> | ->]]; [symmetry|]; apply encode_scalar_shift.
Qed.

Lemma fourier_encode_even_shift (self : BaseModel) (x x' : list (list R)) :
  Forall2 (Forall2 even_shift) x x' ->
  fourier_encode self x = fourier_encode self x'.
Proof.
  intros H. unfold fourier_encode.
  assert (E : map (fun row => concat (map (encode_scalar (fourier_features self)) row)) x
              = map (fun row => concat (map (encode_scalar (fourier_features self)) row)) x').
  { induction H as [|r r' l l' Hr Hl IH]; [reflexivity|].
    cbn [map]. rewrite IH. f_equal. f_equal.
    clear - Hr. induction Hr as [|a b r r' Hab Hr IH]; [reflexivity|].
    cbn [map]. now rewrite IH, (encode_scalar_even_shift _ a b Hab). }
  destruct H; [reflexivity | now rewrite E].
Qed.

(** X17.  With Fourier features the network cannot tell apart two inputs
    whose coordinates differ by even integers: the lowest frequency is
    [pi], so [forward] has period 2 in every coordinate. *)
Theorem forward_has_period_two (net : Network) (x x' : list (list R)) :
  with_fourier (config net) = true ->
  Forall2 (Forall2 even_shift) x x' ->
  forward net (Batched x) = forward net (Batched x').
Proof.
  intros Hf H. unfold forward, forward_input. rewrite Hf. cbn [as_batch].
  now rewrite (fourier_encode_even_shift _ x x' H).
Qed.

(** The inputs 0 and 2 of a network with one Fourier feature. *)
Lemma forward_has_period_two_witness :
  forward tiny_fourier_network (Batched [[0]])
  = forward tiny_fourier_network (Batched [[2]]).
Proof.
  apply (forward_has_period_two tiny_fourier_network [[0]] [[2]]).
  - reflexivity.
  - repeat constructor. exists 1%nat. left. simpl. lra.
Defined.

(** ** The layers: shapes and range of the output *)

Lemma widths_app (l1 l2 : list layer) (w : nat) :
  widths (l1 ++ l2) w
  = match widths l1 w with Some w' => widths l2 w' | None => None end.
Proof.
  revert w. induction l1 as [|l l1 IH]; intros w; [reflexivity|].
  destruct l as [i o| |]; cbn [app widths]; try apply IH.
  destruct (Nat.eqb w i); [apply IH | reflexivity].
Qed.

Lemma widths_hidden_layers (n h : nat) : widths (hidden_layers n h) h = Some h.
Proof.
  induction n as [|n IH]; [reflexivity|].
  cbn [hidden_layers widths]. now rewrite Nat.eqb_refl.
Qed.

(** The layers appended by [__init__] fit one another: rows of the width
    of the first layer come out with [output_size] entries. *)
Lemma widths_layers (self : BaseModel) :
  widths (layers self) (first_width self (input_size self))
  = Some (output_size self).
Proof.
  unfold layers, first_width.
  rewrite widths_app.
  assert (E : widths (if negb (with_fourier self)
                      then [Linear (input_size self) (hidden_size self)]
                      else [Linear (input_size self * 2 * fourier_features self)
                                   (hidden_size self)])
                     (if with_fourier self
                      then (input_size self * 2 * fourier_features self)%nat
                      else input_size self)
              = Some (hidden_size self)).
  { destruct (with_fourier self); cbn [negb widths]; now rewrite Nat.eqb_refl. }
  rewrite E. cbn [app widths]. rewrite widths_app, widths_hidden_layers.
  cbn [app widths]. rewrite Nat.eqb_refl.
  destruct (use_sigmoid_output self); reflexivity.
Qed.

Lemma forallb_width (x : list (list R)) (w i : nat) :
  x <> [] -> Forall (fun r => length r = w) x ->
  forallb (fun row => Nat.eqb (length row) i) x = Nat.eqb w i.
Proof.
  intros Hx H. induction H as [|r x Hr Hx' IH]; [contradiction|].
  cbn [forallb]. rewrite Hr.
  destruct x as [|r' x'].
  - cbn [forallb]. apply andb_true_r.
  - rewrite IH by discriminate. apply andb_diag.
Qed.

Lemma run_layers_raise (ms : list module) (e : exn) :
  fold_left (fun acc m => do x <- acc; apply_module m x) ms (Raise e) = Raise e.
Proof. induction ms as [|m ms IH]; [reflexivity | exact IH]. Qed.

Lemma run_layers_cons (m : module) (ms : list module) (x : list (list R)) :
  run_layers (m :: ms) x = do y <- apply_module m x; run_layers ms y.
Proof.
  unfold run_layers. cbn [fold_left py_bind].
  destruct (apply_module m x) as [y|e]; [reflexivity|].
  cbn [py_bind]. apply run_layers_raise.
Qed.

Lemma run_layers_app (ms1 ms2 : list module) (x : list (list R)) :
  run_layers (ms1 ++ ms2) x = do y <- run_layers ms1 x; run_layers ms2 y.
Proof.
  revert x. induction ms1 as [|m ms1 IH]; intros x; [reflexivity|].
  cbn [app]. rewrite !run_layers_cons.
  destruct (apply_module m x) as [y|e]; [|reflexivity].
  cbn [py_bind]. apply IH.
Qed.

Lemma Forall_map_width {A : Type} (f : list A -> list A) (x : list (list A))
  (w : nat) :
  (forall r, length (f r) = w) -> Forall (fun r => length r = w) (map f x).
Proof. intros H. apply Forall_forall. intros r Hr. apply in_map_iff in Hr.
  destruct Hr as (r0 & <- & _). apply H. Qed.

Lemma run_layers_widths (ms : list module) (x : list (list R)) (w w' : nat) :
  Forall well_shaped ms ->
  widths (map module_shape ms) w = Some w' ->
  x <> [] -> Forall (fun r => length r = w) x ->
  exists y, run_layers ms x = Ok y /\ length y = length x
            /\ Forall (fun r => length r = w') y.
Proof.
  intros Hws. revert x w. induction Hws as [|m ms Hm Hms IH]; intros x w Hw Hx Hall.
  - cbn in Hw. injection Hw as <-. exists x. repeat split; assumption.
  - rewrite run_layers_cons.
    assert (Hne : forall (f : list R -> list R), map f x <> []).
    { intros f E. apply Hx. now apply map_eq_nil in E. }
    destruct m as [i W b| |]; cbn [map module_shape widths] in Hw.
    + cbn [apply_module]. rewrite (forallb_width x w i Hx Hall).
      destruct (Nat.eqb w i) eqn:Ewi; [|discriminate]. cbn [py_bind].
      destruct Hm as [HW Hb].
      destruct (IH (map (fun row => map2 (fun w0 bj => dot row w0 + bj) W b) x)
                   (length W) Hw (Hne _)) as (y & Hy & Hly & Hwy).
      { apply Forall_map_width. intros r. rewrite map2_length, Hb.
        apply Nat.min_id. }
      exists y. split; [exact Hy|]. split; [now rewrite Hly, length_map | exact Hwy].
    + cbn [apply_module py_bind].
      destruct (IH (map (map sin) x) w Hw (Hne _)) as (y & Hy & Hly & Hwy).
      { apply Forall_forall. intros r Hr. apply in_map_iff in Hr.
        destruct Hr as (r0 & <- & Hr0). rewrite length_map.
        now apply (proj1 (Forall_forall _ _) Hall). }
      exists y. split; [exact Hy|]. split; [now rewrite Hly, length_map | exact Hwy].
    + cbn [apply_module py_bind].
      destruct (IH (map (map sigmoid) x) w Hw (Hne _)) as (y & Hy & Hly & Hwy).
      { apply Forall_forall. intros r Hr. apply in_map_iff in Hr.
        destruct Hr as (r0 & <- & Hr0). rewrite length_map.
        now apply (proj1 (Forall_forall _ _) Hall). }
      exists y. split; [exact Hy|]. split; [now rewrite Hly, length_map | exact Hwy].
Qed.

(** What [forward] hands to the first layer, for rows of [D] columns. *)
Lemma forward_input_rows (self : BaseModel) (x : coordinates) (D : nat) :
  as_batch x <> [] -> Forall (fun r => length r = D) (as_batch x) ->
  exists x0, forward_input self x = Ok x0 /\ x0 <> []
             /\ length x0 = length (as_batch x)
             /\ Forall (fun r => length r = first_width self D) x0.
Proof.
  intros Hx Hall. unfold forward_input, first_width, fourier_encode.
  destruct (with_fourier self).
  - destruct (as_batch x) as [|r0 x'] eqn:Ex; [contradiction|].
    eexists. split; [reflexivity|]. split; [discriminate|].
    split; [apply length_map|].
    apply Forall_forall. intros r Hr. apply in_map_iff in Hr.
    destruct Hr as (r1 & <- & Hr1).
    rewrite (concat_blocks_length _ (2 * fourier_features self))
      by apply encode_scalar_length.
    rewrite (proj1 (Forall_forall _ _) Hall r1 Hr1). lia.
  - exists (as_batch x). repeat split; assumption.
Qed.

Lemma forward_total (net : Network) (x : coordinates) :
  built net ->
  as_batch x <> [] ->
  Forall (fun r => length r = input_size (config net)) (as_batch x) ->
  exists y, forward net x = Ok y /\ length y = length (as_batch x)
            /\ Forall (fun r => length r = output_size (config net)) y.
Proof.
  intros [Hshape Hws] Hx Hall. unfold forward.
  destruct (forward_input_rows (config net) x _ Hx Hall)
    as (x0 & -> & Hx0 & Hl0 & Hw0).
  cbn [py_bind].
  destruct (run_layers_widths (modules net) x0
              (first_width (config net) (input_size (config net)))
              (output_size (config net)) Hws) as (y & -> & Hly & Hwy);
    try assumption.
  { rewrite Hshape. apply widths_layers. }
  cbn [py_bind]. destruct (use_sigmoid_output (config net)).
  - eexists. split; [reflexivity|]. split; [now rewrite length_map, Hly|].
    apply Forall_forall. intros r Hr. apply in_map_iff in Hr.
    destruct Hr as (r0 & <- & Hr0). rewrite length_map.
    now apply (proj1 (Forall_forall _ _) Hwy).
  - exists y. split; [reflexivity|]. split; [congruence | exact Hwy].
Qed.

(** X18.  Through a network as [__init__] builds it, a batch with at
    least one row of [input_size] coordinates (or a single coordinate
    vector, which is unsqueezed to a batch of one) never meets a shape
    error: [forward] returns one row of [output_size] entries per input
    row, with or without Fourier features and sigmoid output. *)
Theorem forward_returns_output_size_rows (net : Network) (x : coordinates) :
  built net ->
  as_batch x <> [] ->
  Forall (fun r => length r = input_size (config net)) (as_batch x) ->
  exists y, forward net x = Ok y /\ length y = length (as_batch x)
            /\ Forall (fun r => length r = output_size (config net)) y.
Proof. apply forward_total. Qed.

Lemma tiny_network_built : built tiny_network.
Proof.
  split; [reflexivity|].
  repeat (constructor; try (split; [repeat constructor | reflexivity])).
Qed.

Lemma forward_returns_output_size_rows_witness :
  exists y, forward tiny_network (Single [0]) = Ok y /\ length y = 1%nat
            /\ Forall (fun r => length r = 1%nat) y.
Proof.
  apply (forward_returns_output_size_rows tiny_network (Single [0])).
  - exact tiny_network_built.
  - discriminate.
  - repeat constructor.
Defined.

(** X19.  A batch whose rows have another width than the first layer
    expects is refused with the [RuntimeError] of the matrix product. *)
Theorem forward_rejects_other_widths (net : Network) (x : coordinates) (D : nat) :
  built net ->
  as_batch x <> [] ->
  Forall (fun r => length r = D) (as_batch x) ->
  first_width (config net) D <> first_width (config net) (input_size (config net)) ->
  forward net x = Raise RuntimeError.
Proof.
  intros [Hshape Hws] Hx Hall Hne. unfold forward.
  destruct (forward_input_rows (config net) x _ Hx Hall)
    as (x0 & -> & Hx0 & Hl0 & Hw0).
  cbn [py_bind].
  assert (Hhd : exists o rest,
             layers (config net)
             = Linear (first_width (config net) (input_size (config net))) o :: rest).
  { unfold layers, first_width. destruct (with_fourier (config net));
      cbn [negb app]; eexists; eexists; reflexivity. }
  destruct Hhd as (o & rest & Hl). rewrite Hl in Hshape.
  destruct (modules net) as [|m ms]; [discriminate|].
  cbn [map] in Hshape. injection Hshape as Hm _.
  destruct m as [i W b| |]; try discriminate. cbn [module_shape] in Hm.
  injection Hm as Hi _. subst i.
  rewrite run_layers_cons. cbn [apply_module].
  rewrite (forallb_width x0 _ _ Hx0 Hw0).
  destruct (Nat.eqb_spec (first_width (config net) D)
              (first_width (config net) (input_size (config net))));
    [contradiction | reflexivity].
Qed.

Lemma forward_rejects_other_widths_witness :
  forward tiny_network (Batched [[0; 0; 0]]) = Raise RuntimeError.
Proof.
  apply (forward_rejects_other_widths tiny_network (Batched [[0; 0; 0]]) 3).
  - exact tiny_network_built.
  - discriminate.
  - repeat constructor.
  - vm_compute. lia.
Defined.

Lemma sigmoid_range (x : R) : 0 < sigmoid x < 1.
Proof.
  unfold sigmoid. pose proof (exp_pos (- x)) as H.
  split.
  - apply Rdiv_lt_0_compat; lra.
  - apply (Rmult_lt_reg_r (1 + exp (- x))); [lra|].
    unfold Rdiv. rewrite Rmult_assoc, Rinv_l by lra. lra.
Qed.

Lemma layers_end_with_sigmoid (self : BaseModel) :
  use_sigmoid_output self = true ->
  exists front, layers self = front ++ [Sigmoid].
Proof.
  intros H. unfold layers. rewrite H.
  eexists. rewrite !app_assoc. reflexivity.
Qed.

(** X20.  With [use_sigmoid_output] and a non-negative [scale], every
    entry [forward] returns lies between [translation] and
    [translation + scale], whatever the weights and the input. *)
Theorem sigmoid_output_range (net : Network) (x : coordinates)
  (y : list (list R)) :
  map module_shape (modules net) = layers (config net) ->
  use_sigmoid_output (config net) = true ->
  0 <= scale net ->
  forward net x = Ok y ->
  Forall (Forall (fun v => translation net <= v <= translation net + scale net)) y.
Proof.
  intros Hshape Hsig Hs Hy.
  destruct (layers_end_with_sigmoid _ Hsig) as [front Hfront].
  rewrite Hfront in Hshape.
  assert (Hsplit : exists l m0, modules net = l ++ [m0]).
  { destruct (modules net) as [|m ms] eqn:Em.
    - destruct front; discriminate.
    - destruct (@exists_last _ (m :: ms)) as (l & m0 & E); [discriminate|].
      exists l, m0. exact E. }
  destruct Hsplit as (l & m0 & Em). rewrite Em in Hshape.
  rewrite map_app in Hshape. cbn [map] in Hshape.
  apply app_inj_tail in Hshape. destruct Hshape as [_ Hlast].
  destruct m0 as [i W b| |]; try discriminate.
  unfold forward in Hy. rewrite Hsig in Hy.
  destruct (forward_input (config net) x) as [x0|]; [|discriminate].
  cbn [py_bind] in Hy. rewrite Em, run_layers_app in Hy.
  destruct (run_layers l x0) as [z|]; [|discriminate].
  cbn [py_bind] in Hy. rewrite run_layers_cons in Hy.
  cbn [apply_module py_bind run_layers fold_left] in Hy.
  assert (E : y = map (map (fun v => v * scale net + translation net))
                      (map (map sigmoid) z)) by congruence.
  subst y. apply Forall_forall. intros r Hr.
  apply in_map_iff in Hr. destruct Hr as (r1 & <- & Hr1).
  apply in_map_iff in Hr1. destruct Hr1 as (r0 & <- & _).
  apply Forall_forall. intros v Hv.
  apply in_map_iff in Hv. destruct Hv as (u & <- & Hu).
  apply in_map_iff in Hu. destruct Hu as (t & <- & _).
  pose proof (sigmoid_range t) as [H0 H1]. nra.
Qed.

Lemma sigmoid_output_range_witness :
  exists y, forward tiny_network (Single [0]) = Ok y /\
            Forall (Forall (fun v => -1 <= v <= -1 + 2)) y.
Proof.
  destruct (forward_total tiny_network (Single [0]) tiny_network_built)
    as (y & Hy & _); [discriminate | repeat constructor |].
  exists y. split; [exact Hy|].
  apply (sigmoid_output_range tiny_network (Single [0]) y);
    [reflexivity | reflexivity | simpl; lra | exact Hy].
Defined.

(** ** An epoch of the three variants *)

Lemma rows_of_points_width (inputs : list vec3) :
  Forall (fun r => length r = 3%nat) (rows_of_points inputs).
Proof.
  apply Forall_forall. intros r Hr. apply in_map_iff in Hr.
  destruct Hr as (p & <- & _). reflexivity.
Qed.

(** [self(inputs)] on a batch with at least one row. *)
Lemma forward_on_points (net : Model3D) (inputs : list vec3) :
  inputs <> [] ->
  exists rows,
    forward (model_network net) (Batched (rows_of_points inputs)) = Ok rows
    /\ length (map point_of_row rows) = length inputs.
Proof.
  intros Hne.
  destruct (forward_total (model_network net) (Batched (rows_of_points inputs))
              (model_built net)) as (y & Hy & Hl & _).
  - cbn [as_batch]. intros E. apply Hne. now apply map_eq_nil in E.
  - cbn [as_batch]. rewrite (model_inputs net). apply rows_of_points_width.
  - exists y. split; [exact Hy|]. rewrite length_map, Hl. cbn [as_batch].
    apply length_map.
Qed.

(** [self(inputs)] on a batch without rows, with Fourier features:
    [view(0, -1)] in [fourier_encode] raises. *)
Lemma forward_on_no_points (net : Model3D) :
  with_fourier (config (model_network net)) = true ->
  forward (model_network net) (Batched (rows_of_points [])) = Raise RuntimeError.
Proof.
  intros Hf. unfold forward, forward_input. rewrite Hf. reflexivity.
Qed.

Lemma slices_aligned {A C : Type} (x : list A) (m : list C) (s e : nat) :
  length m = length x -> length (slice m s e) = length (slice x s e).
Proof. intros Hm. now rewrite !slice_length, Hm. Qed.

(** The slices the loop takes from a dataset with at least one sample
    have at least one row. *)
Lemma visited_slice_nonempty {A : Type} (x : list A) (L B i : nat) :
  (0 < B)%nat -> (0 < L)%nat -> length x = L ->
  (i < Nat.max (L / B) 1)%nat ->
  slice x (i * B) ((i + 1) * B) <> [].
Proof.
  intros HB HL Hx Hi E. apply (f_equal (@length A)) in E.
  rewrite slice_length, Hx in E. cbn [length] in E.
  pose proof (div_mul_le L B) as Hle.
  destruct (Nat.eq_dec (L / B) 0) as [E0|E0].
  - rewrite E0 in Hi. assert (i = 0)%nat by lia. subst i. lia.
  - assert (Hi' : (i < L / B)%nat) by lia.
    assert ((i + 1) * B <= L / B * B)%nat by (apply Nat.mul_le_mono_r; lia).
    lia.
Qed.

(** An epoch whose first batch makes [process_batch] raise. *)
Lemma train_epoch_first_batch_raises {D B : Type} {DL : DatasetLike D B}
  (Model : Type) (prepare_for_epoch : D -> D)
  (process_batch : Model -> B -> py xR) (optimizer_step : Model -> B -> Model)
  (self : Model) (dataset : D) (batch_size : nat) (e : exn) :
  (0 < batch_size)%nat ->
  process_batch self (batch_at (prepare_for_epoch dataset) batch_size 0) = Raise e ->
  train_epoch Model prepare_for_epoch process_batch optimizer_step
              self dataset batch_size = Raise e.
Proof.
  intros HB Hfail. unfold train_epoch, train_loop, num_batches.
  destruct batch_size as [|k]; [lia|]. cbn [py_bind].
  destruct (Nat.max (ds_len dataset / S k) 1) as [|n] eqn:En; [lia|].
  cbn [seq fold_left]. unfold epoch_step at 2. unfold batch_step at 1.
  cbn [py_bind acc_model]. rewrite Hfail. cbn [py_bind].
  assert (Hr : forall l, fold_left (epoch_step Model process_batch optimizer_step
                                      (prepare_for_epoch dataset) (S k)) l (Raise e)
                         = Raise e).
  { induction l as [|i l IH]; [reflexivity | exact IH]. }
  now rewrite Hr.
Qed.

Section EpochOverParallelArrays.

Variable svd : mat3 -> mat3 * vec3 * mat3.
Variables FLAME_MASK BOUNDARY_MASK : Z.
Variables SKULL_MASK JAW_MASK SURFACE_MASK : Z.
Variable FIXED_MASK : Z.
Variable construct_jacobian : Model3D -> list vec3 -> py (list mat3).

(** On a batch the network accepts, one Jacobian comes back per row. *)
Hypothesis jacobian_rows :
  forall net inputs, inputs <> [] ->
    exists J, construct_jacobian net inputs = Ok J /\ length J = length inputs.

Lemma surface_process_batch_usable (self : SurfaceINRModel) (net : Model3D)
  (batch : batch3) :
  usable3 batch ->
  exists l, surface_process_batch svd FLAME_MASK BOUNDARY_MASK construct_jacobian
              self net batch = Ok l.
Proof.
  destruct batch as [[inputs mask] target]. intros (Hne & Hm & Ht).
  unfold surface_process_batch.
  destruct (forward_on_points net inputs Hne) as (rows & -> & Hl).
  destruct (jacobian_rows net inputs Hne) as (J & -> & _). cbn [py_bind].
  apply surface_compute_loss_aligned. split; congruence.
Qed.

Lemma inr_process_batch_usable (self : INRModel) (net : Model3D) (batch : batch3) :
  usable3 batch ->
  exists l, inr_process_batch svd SKULL_MASK JAW_MASK SURFACE_MASK construct_jacobian
              self net batch = Ok l.
Proof.
  destruct batch as [[inputs mask] target]. intros (Hne & Hm & Ht).
  unfold inr_process_batch.
  destruct (forward_on_points net inputs Hne) as (rows & -> & Hl).
  destruct (jacobian_rows net inputs Hne) as (J & -> & _). cbn [py_bind].
  apply inr_compute_loss_aligned. split; congruence.
Qed.

Lemma sim_process_batch_usable (self : SimulatorModel) (net : Model3D)
  (batch : batch4) :
  usable4 batch ->
  exists l, sim_process_batch svd FIXED_MASK construct_jacobian
              self net batch = Ok l.
Proof.
  destruct batch as [[[inputs mask] target] actuations].
  intros (Hne & Hm & Ht & Ha).
  unfold sim_process_batch.
  destruct (forward_on_points net inputs Hne) as (rows & -> & Hl).
  destruct (jacobian_rows net inputs Hne) as (J & -> & HJ). cbn [py_bind].
  apply sim_compute_loss_aligned; [split|]; congruence.
Qed.


End EpochOverParallelArrays.

(** ** Concrete models and epochs *)

Lemma small_network_built : built small_network.
Proof.
  split; [reflexivity|].
  repeat (constructor; try (split; [repeat constructor | reflexivity])).
Qed.

Lemma small_fourier_network_built : built small_fourier_network.
Proof.
  split; [reflexivity|].
  repeat (constructor; try (split; [repeat constructor | reflexivity])).
Qed.

Lemma identity_jacobian_rows (net : Model3D) (inputs : list vec3) :
  inputs <> [] ->
  exists J, identity_jacobian net inputs = Ok J /\ length J = length inputs.
Proof.
  intros _. eexists. split; [reflexivity | apply length_map].
Qed.

(** The mask of the second batch is one entry short: the first batch is
    processed, the second raises [IndexError], and so does the epoch. *)
Lemma train_epoch_raises_first_failure_witness :
  exists net : Model3D,
    model_network net = small_network /\
    train_epoch Model3D (fun d => d)
      (inr_process_batch svd_diagonal 0 1 2 identity_jacobian
                         (Build_INRModel (1/50) 1 2 10))
      (fun m _ => m) net short_mask_samples 2
    = Raise IndexError.
Proof.
  exists (Build_Model3D small_network small_network_built eq_refl eq_refl).
  split; [reflexivity|].
  set (net := Build_Model3D small_network small_network_built eq_refl eq_refl).
  destruct (inr_process_batch_usable svd_diagonal 0 1 2 identity_jacobian
              identity_jacobian_rows (Build_INRModel (1/50) 1 2 10) net
              ([V3 1 0 0; V3 1 0 0], [0%Z; 0%Z], [V3 1 0 0; V3 1 0 0]))
    as [v Hv]; [split; [discriminate | split; reflexivity]|].
  apply (train_epoch_raises_first_failure Model3D (fun d => d)
           (inr_process_batch svd_diagonal 0 1 2 identity_jacobian
                              (Build_INRModel (1/50) 1 2 10))
           (fun m _ => m) net short_mask_samples 2
           [([V3 1 0 0; V3 1 0 0], [0%Z; 0%Z], [V3 1 0 0; V3 1 0 0])]
           []
           ([V3 3 0 0; V3 3 0 0], [2%Z], [V3 3 0 0; V3 3 0 0])
           [v] IndexError).
  - reflexivity.
  - cbn [batch_losses]. rewrite Hv. reflexivity.
  - cbn [model_after fold_left]. unfold inr_process_batch.
    destruct (forward_on_points net [V3 3 0 0; V3 3 0 0]) as (rows & -> & Hl);
      [discriminate|].
    cbn [py_bind identity_jacobian].
    unfold inr_compute_loss, inr_surface_loss.
    rewrite (proj1 (l1_term_cases _ _ _ _)); [reflexivity|].
    split; [vm_compute; lia|]. left. rewrite Hl. simpl. lia.
Defined.


(** ** [assign_values_3d]: per-vertex means *)

Lemma np_index_lt (n : nat) (i : Z) (k : nat) : np_index n i = Ok k -> (k < n)%nat.
Proof.
  unfold np_index.
  destruct ((0 <=? i) && (i <? Z.of_nat n))%Z eqn:E1.
  - intros [= <-]. apply andb_prop in E1. destruct E1 as [H1 H2].
    apply Z.leb_le in H1. apply Z.ltb_lt in H2. lia.
  - destruct ((- Z.of_nat n <=? i) && (i <? 0))%Z eqn:E2; [|discriminate].
    intros [= <-]. apply andb_prop in E2. destruct E2 as [H1 H2].
    apply Z.leb_le in H1. apply Z.ltb_lt in H2. lia.
Qed.

Lemma add_at_length (a : list R) (k : nat) (v : R) :
  length (add_at a k v) = length a.
Proof.
  revert k. induction a as [|x a IH]; intros [|k]; simpl; auto.
Qed.

Lemma add_at_map_seq (f : nat -> R) (s n k : nat) (v : R) :
  add_at (map f (seq s n)) k v
  = map (fun j => if Nat.eqb j (s + k) then f j + v else f j) (seq s n).
Proof.
  revert s k. induction n as [|n IH]; intros s k; [reflexivity|].
  cbn [seq map]. destruct k as [|k]; cbn [add_at].
  - rewrite Nat.add_0_r, Nat.eqb_refl. f_equal.
    apply map_ext_in. intros j Hj. apply in_seq in Hj.
    destruct (Nat.eqb_spec j s); [lia | reflexivity].
  - destruct (Nat.eqb_spec s (s + S k)); [lia|]. f_equal.
    rewrite IH. apply map_ext. intros j.
    replace (S s + k)%nat with (s + S k)%nat by lia. reflexivity.
Qed.

Lemma contributions_snoc (ps : list (nat * R)) (p : nat * R) (k : nat) :
  contributions (ps ++ [p]) k
  = contributions ps k ++ (if Nat.eqb (fst p) k then [snd p] else []).
Proof.
  unfold contributions. rewrite filter_app, map_app. cbn [filter].
  destruct (Nat.eqb (fst p) k); reflexivity.
Qed.

(** The two arrays after the corners [ps] have been accumulated. *)
Lemma accumulate_all (n : nat) (values_uv : list R) (cs : list corner)
  (ps0 : list (nat * R)) :
  fold_left (accumulate values_uv) cs
    (Ok (map (fun k => tsum (contributions ps0 k)) (seq 0 n),
         map (fun k => INR (length (contributions ps0 k))) (seq 0 n)))
  = do ps <- resolve_all n values_uv cs;
    Ok (map (fun k => tsum (contributions (ps0 ++ ps) k)) (seq 0 n),
        map (fun k => INR (length (contributions (ps0 ++ ps) k))) (seq 0 n)).
Proof.
  revert ps0. induction cs as [|c cs IH]; intros ps0.
  - cbn [fold_left resolve_all py_bind]. now rewrite app_nil_r.
  - cbn [fold_left resolve_all]. unfold accumulate at 2. cbn [py_bind fst snd].
    rewrite length_map, length_seq.
    destruct (resolve n values_uv c) as [[k v]|e] eqn:Er.
    + cbn [py_bind fst snd]. rewrite !add_at_map_seq. cbn [Nat.add].
      assert (E1 : map (fun j => if Nat.eqb j k
                                 then tsum (contributions ps0 j) + v
                                 else tsum (contributions ps0 j)) (seq 0 n)
                   = map (fun j => tsum (contributions (ps0 ++ [(k, v)]) j)) (seq 0 n)).
      { apply map_ext. intros j. rewrite contributions_snoc, tsum_app.
        cbn [fst snd]. rewrite (Nat.eqb_sym k j).
        destruct (Nat.eqb j k); simpl; lra. }
      assert (E2 : map (fun j => if Nat.eqb j k
                                 then INR (length (contributions ps0 j)) + 1
                                 else INR (length (contributions ps0 j))) (seq 0 n)
                   = map (fun j => INR (length (contributions (ps0 ++ [(k, v)]) j)))
                         (seq 0 n)).
      { apply map_ext. intros j. rewrite contributions_snoc, length_app.
        cbn [fst snd]. rewrite (Nat.eqb_sym k j).
        destruct (Nat.eqb j k); cbn [length].
        - rewrite plus_INR. simpl. lra.
        - now rewrite Nat.add_0_r. }
      rewrite E1, E2, IH.
      destruct (resolve_all n values_uv cs) as [ps|e]; cbn [py_bind];
        [|reflexivity].
      now rewrite <- app_assoc.
    + cbn [py_bind].
      clear. induction cs as [|c' cs IH]; [reflexivity | exact IH].
Qed.

Lemma xdiv_tmean (l : list R) : xdiv (tsum l) (INR (length l)) = tmean l.
Proof.
  destruct l as [|x l]; [apply xdiv_zero; reflexivity|].
  unfold tmean. apply xdiv_some. apply not_0_INR. discriminate.
Qed.

Lemma map2_map_seq {A B C : Type} (h : A -> B -> C) (f : nat -> A) (g : nat -> B)
  (l : list nat) :
  map2 h (map f l) (map g l) = map (fun k => h (f k) (g k)) l.
Proof. induction l as [|k l IH]; [reflexivity|]. cbn. now rewrite IH. Qed.

Lemma assign_values_3d_closed_form (n : nat) (faces : list (list corner))
  (values_uv : list R) :
  assign_values_3d n faces values_uv
  = do ps <- resolve_all n values_uv (concat faces);
    Ok (map (fun k => tmean (contributions ps k)) (seq 0 n)).
Proof.
  unfold assign_values_3d.
  assert (E0 : (repeat 0 n, repeat 0 n)
               = (map (fun k => tsum (contributions [] k)) (seq 0 n),
                  map (fun k => INR (length (contributions [] k))) (seq 0 n))).
  { f_equal; clear; generalize 0%nat;
      induction n as [|n IH]; intros s; cbn; f_equal; auto. }
  rewrite E0, accumulate_all.
  destruct (resolve_all n values_uv (concat faces)) as [ps|e]; [|reflexivity].
  cbn [py_bind fst snd app]. rewrite map2_map_seq. f_equal.
  apply map_ext. intros k. apply xdiv_tmean.
Qed.

(** X21.  [assign_values_3d] gives every vertex the mean of the UV values
    of the face corners that refer to it, and [nan] to a vertex no corner
    refers to; it raises [IndexError] when an index of a corner cannot be
    resolved.  Indices are resolved as numpy does: a file index of zero or
    below wraps around to the end of the array. *)
Theorem assign_values_3d_is_mean_per_vertex (num_vertices : nat)
  (faces : list (list corner)) (values_uv : list R) :
  assign_values_3d num_vertices faces values_uv
  = do ps <- resolve_all num_vertices values_uv (concat faces);
    Ok (map (fun k => tmean (contributions ps k)) (seq 0 num_vertices)).
Proof. apply assign_values_3d_closed_form. Qed.

Lemma np_index_ok (n : nat) (i : Z) :
  in_bounds n i -> exists k, np_index n i = Ok k.
Proof.
  unfold in_bounds, np_index. intros H.
  destruct (Z.leb_spec 0 i), (Z.ltb_spec i (Z.of_nat n)); cbn [andb];
    try (eexists; reflexivity); try lia.
  destruct (Z.leb_spec (- Z.of_nat n) i), (Z.ltb_spec i 0); cbn [andb];
    try (eexists; reflexivity); lia.
Qed.

Lemma np_index_raise (n : nat) (i : Z) :
  ~ in_bounds n i -> np_index n i = Raise IndexError.
Proof.
  unfold in_bounds, np_index. intros H.
  destruct (Z.leb_spec 0 i), (Z.ltb_spec i (Z.of_nat n)); cbn [andb];
    try lia;
    destruct (Z.leb_spec (- Z.of_nat n) i), (Z.ltb_spec i 0); cbn [andb];
    try reflexivity; lia.
Qed.

Lemma np_index_only_index_error (n : nat) (i : Z) (e : exn) :
  np_index n i = Raise e -> e = IndexError.
Proof.
  unfold np_index.
  destruct ((0 <=? i) && (i <? Z.of_nat n))%Z; [discriminate|].
  destruct ((- Z.of_nat n <=? i) && (i <? 0))%Z; [discriminate|]. congruence.
Qed.

Lemma resolve_ok (n : nat) (values_uv : list R) (c : corner) :
  resolvable n (length values_uv) c ->
  exists k v, resolve n values_uv c = Ok (k, v) /\ (k < n)%nat /\ In v values_uv.
Proof.
  intros [Hv Ht]. unfold resolve.
  destruct (np_index_ok _ _ Hv) as [k Hk].
  destruct (np_index_ok _ _ Ht) as [j Hj]. rewrite Hk, Hj. cbn [py_bind].
  exists k, (nth j values_uv 0). split; [reflexivity|].
  split; [eapply np_index_lt; exact Hk|].
  apply nth_In. eapply np_index_lt; exact Hj.
Qed.

Lemma resolve_raise (n : nat) (values_uv : list R) (c : corner) :
  ~ resolvable n (length values_uv) c ->
  resolve n values_uv c = Raise IndexError.
Proof.
  intros H. unfold resolve.
  destruct (np_index n (v_index c - 1)) as [k|e] eqn:Ek.
  - cbn [py_bind].
    destruct (np_index (length values_uv) (vt_index c - 1)) as [j|e] eqn:Ej.
    + exfalso. apply H. split; unfold in_bounds.
      * apply np_index_lt in Ek as Hlt. unfold np_index in Ek.
        destruct (Z.leb_spec 0 (v_index c - 1)),
          (Z.ltb_spec (v_index c - 1) (Z.of_nat n)); cbn [andb] in Ek; try lia;
          destruct (Z.leb_spec (- Z.of_nat n) (v_index c - 1)),
            (Z.ltb_spec (v_index c - 1) 0); cbn [andb] in Ek;
          try discriminate; lia.
      * apply np_index_lt in Ej as Hlt. unfold np_index in Ej.
        destruct (Z.leb_spec 0 (vt_index c - 1)),
          (Z.ltb_spec (vt_index c - 1) (Z.of_nat (length values_uv)));
          cbn [andb] in Ej; try lia;
          destruct (Z.leb_spec (- Z.of_nat (length values_uv)) (vt_index c - 1)),
            (Z.ltb_spec (vt_index c - 1) 0); cbn [andb] in Ej;
          try discriminate; lia.
    + cbn [py_bind]. now rewrite (np_index_only_index_error _ _ _ Ej).
  - cbn [py_bind]. now rewrite (np_index_only_index_error _ _ _ Ek).
Qed.

Lemma resolve_all_ok (n : nat) (values_uv : list R) (cs : list corner) :
  Forall (resolvable n (length values_uv)) cs ->
  exists ps, resolve_all n values_uv cs = Ok ps
             /\ Forall (fun p => (fst p < n)%nat /\ In (snd p) values_uv) ps.
Proof.
  induction 1 as [|c cs Hc Hcs IH].
  - exists []. split; [reflexivity | constructor].
  - destruct (resolve_ok n values_uv c Hc) as (k & v & Hr & Hk & Hv).
    destruct IH as (ps & Hps & Hall).
    exists ((k, v) :: ps). cbn [resolve_all]. rewrite Hr, Hps. cbn [py_bind].
    split; [reflexivity|]. constructor; [split; assumption | exact Hall].
Qed.

Lemma resolve_all_raise (n : nat) (values_uv : list R) (cs : list corner) :
  Exists (fun c => ~ resolvable n (length values_uv) c) cs ->
  resolve_all n values_uv cs = Raise IndexError.
Proof.
  induction 1 as [c cs Hc | c cs Hcs IH]; cbn [resolve_all].
  - now rewrite (resolve_raise _ _ _ Hc).
  - destruct (resolve n values_uv c) as [p|e] eqn:Er.
    + cbn [py_bind]. now rewrite IH.
    + cbn [py_bind]. f_equal. unfold resolve in Er.
      destruct (np_index n (v_index c - 1)) as [k|e1] eqn:Ek; cbn [py_bind] in Er.
      * destruct (np_index (length values_uv) (vt_index c - 1)) as [j|e2] eqn:Ej;
          cbn [py_bind] in Er; [discriminate|].
        assert (e = e2) by congruence. subst.
        now apply np_index_only_index_error in Ej.
      * assert (e = e1) by congruence. subst.
        now apply np_index_only_index_error in Ek.
Qed.

Lemma assign_values_3d_ok (n : nat) (faces : list (list corner))
  (values_uv : list R) :
  Forall (resolvable n (length values_uv)) (concat faces) ->
  exists values_3d,
    assign_values_3d n faces values_uv = Ok values_3d /\ length values_3d = n.
Proof.
  rewrite assign_values_3d_closed_form.
  intros H. destruct (resolve_all_ok _ _ _ H) as (ps & -> & _).
  cbn [py_bind]. eexists. split; [reflexivity|].
  now rewrite length_map, length_seq.
Qed.

Lemma one_triangle_resolvable :
  Forall (resolvable 4 (length [1; 3])) (concat one_triangle).
Proof. repeat constructor; unfold in_bounds; simpl; lia. Qed.

(** X22.  [assign_values_3d] returns one value per vertex when every
    corner of every face can be resolved -- in particular for the indices
    [1 .. n] of an OBJ file -- and raises [IndexError] as soon as one
    cannot. *)
Theorem assign_values_3d_index_error (num_vertices : nat)
  (faces : list (list corner)) (values_uv : list R) :
  (Forall (resolvable num_vertices (length values_uv)) (concat faces) ->
   exists values_3d,
     assign_values_3d num_vertices faces values_uv = Ok values_3d
     /\ length values_3d = num_vertices) /\
  (Exists (fun c => ~ resolvable num_vertices (length values_uv) c) (concat faces) ->
   assign_values_3d num_vertices faces values_uv = Raise IndexError).
Proof.
  split.
  - apply assign_values_3d_ok.
  - rewrite assign_values_3d_closed_form.
    intros H. now rewrite (resolve_all_raise _ _ _ H).
Qed.

(** One triangle over four vertices; with three vertices only, its third
    corner, given as vertex 5, cannot be resolved. *)
Lemma assign_values_3d_index_error_witness :
  (exists values_3d,
      assign_values_3d 4 one_triangle [1; 3] = Ok values_3d
      /\ length values_3d = 4%nat) /\
  assign_values_3d 3 [[{| v_index := 1; vt_index := 1 |};
                       {| v_index := 2; vt_index := 2 |};
                       {| v_index := 5; vt_index := 1 |}]] [1; 3]
  = Raise IndexError.
Proof.
  split.
  - apply (proj1 (assign_values_3d_index_error 4 one_triangle [1; 3])).
    exact one_triangle_resolvable.
  - apply (proj2 (assign_values_3d_index_error 3 _ [1; 3])).
    cbn [concat app]. apply Exists_cons_tl, Exists_cons_tl, Exists_cons_hd.
    unfold resolvable, in_bounds. simpl. lia.
Defined.

Lemma tsum_between (l : list R) (lo hi : R) :
  Forall (fun x => lo <= x <= hi) l ->
  lo * INR (length l) <= tsum l <= hi * INR (length l).
Proof.
  induction 1 as [|y l Hy Hl IH].
  - simpl. lra.
  - cbn [tsum fold_right length]. rewrite S_INR. unfold tsum in IH. nra.
Qed.

Lemma tmean_between (l : list R) (lo hi v : R) :
  Forall (fun x => lo <= x <= hi) l -> tmean l = Some v -> lo <= v <= hi.
Proof.
  intros H Hv. destruct l as [|x l]; [discriminate|].
  unfold tmean in Hv. assert (E : v = tsum (x :: l) / INR (length (x :: l)))
    by congruence.
  assert (Hn : 0 < INR (length (x :: l))) by (apply lt_0_INR; simpl; lia).
  pose proof (tsum_between _ _ _ H) as Hb.
  subst v. split.
  - apply (Rmult_le_reg_r (INR (length (x :: l)))); [exact Hn|].
    unfold Rdiv. rewrite Rmult_assoc, Rinv_l by lra. lra.
  - apply (Rmult_le_reg_r (INR (length (x :: l)))); [exact Hn|].
    unfold Rdiv. rewrite Rmult_assoc, Rinv_l by lra. lra.
Qed.

Lemma resolve_all_values (n : nat) (values_uv : list R) (cs : list corner)
  (ps : list (nat * R)) :
  resolve_all n values_uv cs = Ok ps ->
  Forall (fun p => In (snd p) values_uv) ps.
Proof.
  revert ps. induction cs as [|c cs IH]; intros ps H; cbn [resolve_all] in H.
  - assert (ps = []) by congruence. subst. constructor.
  - destruct (resolve n values_uv c) as [p|] eqn:Er; [|discriminate].
    cbn [py_bind] in H.
    destruct (resolve_all n values_uv cs) as [ps'|]; [|discriminate].
    cbn [py_bind] in H. assert (ps = p :: ps') by congruence. subst.
    constructor; [|now apply IH].
    unfold resolve in Er.
    destruct (np_index n (v_index c - 1)) as [k|]; [|discriminate].
    cbn [py_bind] in Er.
    destruct (np_index (length values_uv) (vt_index c - 1)) as [j|] eqn:Ej;
      [|discriminate].
    cbn [py_bind] in Er. assert (p = (k, nth j values_uv 0)) by congruence.
    subst. cbn [snd]. apply nth_In. eapply np_index_lt; exact Ej.
Qed.

(** X23.  The values carried to the vertices stay within the range of the
    UV values: a vertex value that is not [nan] lies between any two
    bounds of [values_uv]. *)
Theorem assign_values_3d_within_bounds (num_vertices : nat)
  (faces : list (list corner)) (values_uv : list R) (lo hi : R)
  (values_3d : list xR) :
  Forall (fun x => lo <= x <= hi) values_uv ->
  assign_values_3d num_vertices faces values_uv = Ok values_3d ->
  Forall (fun r => forall v, r = Some v -> lo <= v <= hi) values_3d.
Proof.
  intros Hb. rewrite assign_values_3d_closed_form.
  destruct (resolve_all num_vertices values_uv (concat faces)) as [ps|] eqn:Eps;
    [|discriminate].
  cbn [py_bind]. intros H.
  assert (values_3d = map (fun k => tmean (contributions ps k)) (seq 0 num_vertices))
    by congruence.
  subst. apply Forall_forall. intros r Hr. apply in_map_iff in Hr.
  destruct Hr as (k & <- & _). intros v Hv.
  apply (tmean_between (contributions ps k)); [|exact Hv].
  apply Forall_forall. intros x Hx. unfold contributions in Hx.
  apply in_map_iff in Hx. destruct Hx as (p & <- & Hp).
  apply filter_In in Hp. destruct Hp as [Hp _].
  pose proof (resolve_all_values _ _ _ _ Eps) as Hall.
  apply (proj1 (Forall_forall _ _) Hb).
  now apply (proj1 (Forall_forall _ _) Hall).
Qed.

(** X24.  A vertex comes out as [nan] exactly when no face corner refers
    to it. *)
Theorem assign_values_3d_nan_iff_unreferenced (num_vertices : nat)
  (faces : list (list corner)) (values_uv : list R)
  (values_3d : list xR) (k : nat) :
  (k < num_vertices)%nat ->
  assign_values_3d num_vertices faces values_uv = Ok values_3d ->
  (nth_error values_3d k = Some None <->
   forall c p, In c (concat faces) ->
               resolve num_vertices values_uv c = Ok p -> fst p <> k).
Proof.
  intros Hk. rewrite assign_values_3d_closed_form.
  destruct (resolve_all num_vertices values_uv (concat faces)) as [ps|] eqn:Eps;
    [|discriminate].
  cbn [py_bind]. intros H.
  assert (values_3d = map (fun k => tmean (contributions ps k)) (seq 0 num_vertices))
    by congruence.
  subst. rewrite nth_error_map, nth_error_seq.
  destruct (Nat.ltb_spec k num_vertices); [|lia]. cbn [option_map Nat.add].
  assert (Hin : forall p, In p ps <->
                  exists c, In c (concat faces)
                            /\ resolve num_vertices values_uv c = Ok p).
  { clear - Eps. revert ps Eps.
    induction (concat faces) as [|c cs IH]; intros ps Eps p;
      cbn [resolve_all] in Eps.
    - assert (ps = []) by congruence. subst. split; [intros []|].
      intros (c & [] & _).
    - destruct (resolve num_vertices values_uv c) as [p0|] eqn:Er; [|discriminate].
      cbn [py_bind] in Eps.
      destruct (resolve_all num_vertices values_uv cs) as [ps'|]; [|discriminate].
      cbn [py_bind] in Eps. assert (ps = p0 :: ps') by congruence. subst.
      split.
      + intros [<- | Hp].
        * exists c. split; [now left | exact Er].
        * apply (IH ps' eq_refl) in Hp. destruct Hp as (c' & Hc' & Hr').
          exists c'. split; [now right | exact Hr'].
      + intros (c' & [<- | Hc'] & Hr').
        * left. congruence.
        * right. apply (IH ps' eq_refl). exists c'. split; assumption. }
  split.
  - intros Hnone c p Hc Hr Hfst.
    assert (Hp : In p ps) by (apply Hin; exists c; split; assumption).
    assert (Hc' : In (snd p) (contributions ps k)).
    { unfold contributions. apply in_map. apply filter_In. split; [exact Hp|].
      now apply Nat.eqb_eq. }
    destruct (contributions ps k); [destruct Hc' | discriminate].
  - intros Hno. destruct (contributions ps k) as [|x l] eqn:Ec; [reflexivity|].
    exfalso.
    assert (Hx : In x (contributions ps k)) by (rewrite Ec; now left).
    unfold contributions in Hx. apply in_map_iff in Hx.
    destruct Hx as (p & _ & Hp). apply filter_In in Hp. destruct Hp as [Hp Hpk].
    apply Hin in Hp. destruct Hp as (c & Hc & Hr).
    apply (Hno c p Hc Hr). now apply Nat.eqb_eq.
Qed.

(** The triangle over four vertices, the fourth one being referenced by
    no corner. *)
Lemma assign_values_3d_within_bounds_witness :
  exists values_3d,
    assign_values_3d 4 one_triangle [1; 3] = Ok values_3d /\
    Forall (fun r => forall v, r = Some v -> 1 <= v <= 3) values_3d.
Proof.
  destruct (assign_values_3d_ok 4 one_triangle [1; 3] one_triangle_resolvable)
    as (values_3d & H & _).
  exists values_3d. split; [exact H|].
  apply (assign_values_3d_within_bounds 4 one_triangle [1; 3] 1 3 values_3d);
    [|exact H].
  repeat constructor; lra.
Defined.

Lemma assign_values_3d_nan_iff_unreferenced_witness :
  exists values_3d,
    assign_values_3d 4 one_triangle [1; 3] = Ok values_3d /\
    (nth_error values_3d 3 = Some None <->
     forall c p, In c (concat one_triangle) ->
                 resolve 4 [1; 3] c = Ok p -> fst p <> 3%nat).
Proof.
  destruct (assign_values_3d_ok 4 one_triangle [1; 3] one_triangle_resolvable)
    as (values_3d & H & _).
  exists values_3d. split; [exact H|].
  apply (assign_values_3d_nan_iff_unreferenced 4 one_triangle [1; 3] values_3d 3);
    [lia | exact H].
Defined.

(** ** [reflect] on a symmetric layout *)

Lemma dist2_zero (p q : R * R) : dist2 p q <= 0 -> p = q.
Proof.
  destruct p as [a b], q as [c d]. unfold dist2. cbn [fst snd]. intros H.
  pose proof (Rle_0_sqr (a - c)) as H1. pose proof (Rle_0_sqr (b - d)) as H2.
  unfold Rsqr in H1, H2.
  assert (E1 : (a - c) * (a - c) = 0) by lra.
  assert (E2 : (b - d) * (b - d) = 0) by lra.
  apply Rmult_integral in E1. apply Rmult_integral in E2.
  f_equal; lra.
Qed.

Lemma dist2_self (p : R * R) : dist2 p p = 0.
Proof. unfold dist2. ring. Qed.

Lemma map2_map_same {A B C : Type} (f : A -> B -> C) (g : A -> B) (l : list A) :
  map2 f l (map g l) = map (fun a => f a (g a)) l.
Proof. induction l as [|a l IH]; [reflexivity|]. cbn. now rewrite IH. Qed.

Lemma nth_map_in_range {A B : Type} (f : A -> B) (l : list A) (n : nat)
  (d : B) (d' : A) :
  (n < length l)%nat -> nth n (map f l) d = f (nth n l d').
Proof.
  intros H. rewrite (nth_indep _ d (f d')) by (now rewrite length_map).
  apply map_nth.
Qed.

(** X25.  On a layout that is symmetric about the mid line, and with a
    tree that returns a nearest neighbour of every mirrored point,
    [reflect] turns the initial values [u - mid_point] into the distance
    [|u - mid_point|] to the mid line: the left half receives the values
    of its mirror images, the right half is kept. *)
Theorem reflect_symmetric_layout (query : list (R * R) -> R * R -> nat)
  (uv_coords : list (R * R)) (mid_point : R) :
  symmetric_layout uv_coords mid_point ->
  (forall p, In p uv_coords -> fst p < mid_point ->
             nearest query uv_coords (mirrored mid_point p)) ->
  reflect query uv_coords mid_point (initial_values_uv uv_coords mid_point)
  = map (fun p => Rabs (fst p - mid_point)) uv_coords.
Proof.
  intros Hsym Hq. unfold reflect, initial_values_uv.
  rewrite map2_map_same. apply map_ext_in. intros p Hp.
  destruct (Rlt_dec (fst p) mid_point) as [Hlt | Hge].
  - destruct (Hq p Hp Hlt) as [Hidx Hmin].
    specialize (Hmin _ (Hsym p Hp Hlt)). rewrite dist2_self in Hmin.
    apply dist2_zero in Hmin.
    rewrite (nth_map_in_range _ _ _ 0 (0, 0)) by exact Hidx.
    rewrite Hmin. unfold mirrored. cbn [fst].
    rewrite Rabs_left by lra. ring.
  - rewrite Rabs_right by lra. reflexivity.
Qed.

(** Two points at 3/10 and 5/10 about the mid line 4/10 of the script. *)
Lemma reflect_symmetric_layout_witness :
  reflect (fun _ _ => 1%nat) [(3/10, 0); (5/10, 0)] (4/10)
          (initial_values_uv [(3/10, 0); (5/10, 0)] (4/10))
  = map (fun p => Rabs (fst p - 4/10)) [(3/10, 0); (5/10, 0)].
Proof.
  apply (reflect_symmetric_layout (fun _ _ => 1%nat) [(3/10, 0); (5/10, 0)] (4/10)).
  - intros p [<- | [<- | []]]; cbn [fst]; intros H; [|lra].
    right. left. unfold mirrored. cbn [fst snd]. f_equal. lra.
  - intros p [<- | [<- | []]]; cbn [fst]; intros H; [|lra].
    split; [simpl; lia|].
    intros q _. cbn [nth]. unfold mirrored, dist2. cbn [fst snd].
    replace (5 / 10 - (4 / 10 - 3 / 10 + 4 / 10)) with 0 by lra.
    pose proof (Rle_0_sqr (fst q - (4 / 10 - 3 / 10 + 4 / 10))) as H1.
    pose proof (Rle_0_sqr (snd q - 0)) as H2. unfold Rsqr in H1, H2. lra.
Defined.

(** ** The checkpoint filter *)

Lemma startswith_spec (p s : String.string) :
  startswith p s = true <-> exists b, s = (p ++ b)%string.
Proof.
  revert s. induction p as [|a p IH]; intros s.
  - split; [intros _; exists s; reflexivity | reflexivity].
  - destruct s as [|c s]; cbn [startswith].
    + split; [discriminate | intros [b Hb]; discriminate].
    + rewrite andb_true_iff, IH, Ascii.eqb_eq. split.
      * intros [-> [b ->]]. exists b. reflexivity.
      * intros [b Hb]. cbn in Hb. injection Hb as -> ->.
        split; [reflexivity | exists b; reflexivity].
Qed.

Lemma contains_spec (p s : String.string) :
  contains p s = true <-> exists a b, s = (a ++ p ++ b)%string.
Proof.
  induction s as [|c s IH]; cbn [contains]; rewrite orb_true_iff, startswith_spec.
  - split.
    + intros [[b Hb] | H]; [|discriminate]. exists String.EmptyString, b. exact Hb.
    + intros (a & b & H). left. destruct a as [|x a]; [|discriminate].
      exists b. exact H.
  - rewrite IH. split.
    + intros [[b Hb] | (a & b & Hab)].
      * exists String.EmptyString, b. exact Hb.
      * exists (String.String c a), b. cbn. now rewrite Hab.
    + intros (a & b & H). destruct a as [|x a].
      * left. exists b. exact H.
      * right. cbn in H. injection H as -> ->. exists a, b. reflexivity.
Qed.

Lemma append_assoc (a b c : String.string) :
  ((a ++ b) ++ c)%string = (a ++ (b ++ c))%string.
Proof. induction a as [|x a IH]; [reflexivity|]. cbn. now rewrite IH. Qed.

(** A mode whose name occurs inside the name of another mode selects the
    checkpoints of that mode too. *)
Lemma selected_submode (mode mode' file : String.string) :
  contains mode mode' = true ->
  selected mode' file = true -> selected mode file = true.
Proof.
  unfold selected. rewrite !andb_true_iff, !contains_spec.
  intros (a & b & ->) [He (c & d & ->)]. split; [exact He|].
  exists (c ++ a)%string, (b ++ d)%string.
  now rewrite !append_assoc.
Qed.

(** X26.  The filter tests [args.mode in file] by substring, so the mode
    [inr] also selects every checkpoint of the mode [surface_inr]: each
    file visualized with [--mode surface_inr] is visualized, as an
    [INRModel], with [--mode inr] as well. *)
Theorem mode_inr_selects_surface_inr_checkpoints (file : String.string) :
  selected "surface_inr"%string file = true -> selected "inr"%string file = true.
Proof. apply selected_submode. reflexivity. Qed.

Lemma mode_inr_selects_surface_inr_checkpoints_witness :
  selected "surface_inr"%string "model_surface_inr_7.pth"%string = true
  /\ selected "inr"%string "model_surface_inr_7.pth"%string = true.
Proof.
  split; [reflexivity|].
  apply (mode_inr_selects_surface_inr_checkpoints "model_surface_inr_7.pth"%string).
  reflexivity.
Defined.
